(** * Congress simulation: a shallow embedding of the round orchestration core

    Sources embedded here (TypeScript, under [frontend/src/lib]):
    - [simulation/rng.ts]      the seeded linear congruential generator [Random];
    - [simulation/agents.ts]   [decideVote], the per-member decision backend;
    - [simulation/debate.ts]   [templateSpeech] and [generateSpeech];
    - [simulation/engine.ts]   [sampleMembers], [pickSpokespeople], [asyncVote] and
                               the orchestrator [runSimulation];
    - [simulation.ts]          the browser orchestrator [runSimulationClient] with
                               its own [sampleMembers], [batchVote] and
                               [generateAmendment].

    Conventions.
    - A JavaScript [number] is an exact rational ([Q]), or an integer ([Z], [nat]
      for loop counters and lengths) where the code only counts.  Rounding of
      doubles is not modelled; the statements below are about counts, indices,
      orderings and control flow.  Where a statement depends on the values the
      seeded generator draws, it is made for generator states in [0, 2^32),
      on which the arithmetic of the generator is exact in doubles.  NaN
      appears only as the running sum of [Random.choice] and is written
      [None].
    - A JavaScript string is a [string] of bytes; case mapping and white space are
      the ASCII ones.
    - An exception is the [Throw] branch of [Result]; [try]/[catch] is [catch].
    - Everything the program reads from outside is an oracle held in [World]:
      the values of [Math.random()], the outcomes of [fetch] and the replies of the
      in-browser inference engine, each consumed in call order.  Prompts are
      written only to those services and are not modelled; callbacks that only
      observe a run ([onSpeech], [onRoundComplete], ...) are left out. *)

From Stdlib Require Import ZArith QArith Qround List String Ascii Bool Arith Lia.
From Stdlib Require Import DecimalString DecimalNat Permutation.
Import ListNotations.

Local Open Scope string_scope.
Local Open Scope list_scope.
Local Open Scope nat_scope.

Set Implicit Arguments.

(** ** Exceptions *)

Inductive Exn : Type :=
| Error (msg : string)      (* [throw new Error(msg)] *)
| TypeError                 (* property access on [undefined] or [null] *)
| Rejected                  (* a rejected promise of an external service *)
| OutOfFuel.                (* the model's bound on an unbounded loop was reached *)

Inductive Result (A : Type) : Type :=
| Ok (a : A)
| Throw (e : Exn).

Arguments Ok {A} a.
Arguments Throw {A} e.

(** ** Numbers *)

Definition Qltb (x y : Q) : bool := negb (Qle_bool y x).
Definition Qgtb (x y : Q) : bool := Qltb y x.
Definition Qgeb (x y : Q) : bool := Qle_bool y x.

Definition Qmax (x y : Q) : Q := if Qle_bool x y then y else x.
Definition Qmin (x y : Q) : Q := if Qle_bool x y then x else y.

Definition Qsum (l : list Q) : Q := fold_left Qplus l 0%Q.

Lemma Qltb_lt x y : Qltb x y = true <-> (x < y)%Q.
Proof.
  unfold Qltb. rewrite negb_true_iff. split; intro H.
  - apply Qnot_le_lt. intro L. apply Qle_bool_iff in L. congruence.
  - destruct (Qle_bool y x) eqn:E; [|reflexivity].
    apply Qle_bool_iff in E. exfalso. exact (Qlt_not_le _ _ H E).
Qed.

Lemma Qltb_irrefl_eq x y : (x == y)%Q -> Qltb x y = false.
Proof.
  intro E. destruct (Qltb x y) eqn:L; [|reflexivity].
  apply Qltb_lt in L. rewrite E in L. exfalso. exact (Qlt_irrefl _ L).
Qed.

(** ** Arrays *)

(** [a[i]] for a numeric index: [undefined] ([None]) outside the array. *)
Definition js_index {T} (a : list T) (i : Z) : option T :=
  if (i <? 0)%Z then None else nth_error a (Z.to_nat i).

(** [a.slice(from, to)] for [0 <= from]. *)
Definition slice {T} (a : list T) (from to : nat) : list T :=
  firstn (to - from) (skipn from a).

(** ** Strings *)

Definition lowerAscii (c : ascii) : ascii :=
  let n := nat_of_ascii c in
  if (65 <=? n) && (n <=? 90) then ascii_of_nat (n + 32) else c.

Definition upperAscii (c : ascii) : ascii :=
  let n := nat_of_ascii c in
  if (97 <=? n) && (n <=? 122) then ascii_of_nat (n - 32) else c.

Fixpoint mapString (f : ascii -> ascii) (s : string) : string :=
  match s with
  | EmptyString => EmptyString
  | String c r => String (f c) (mapString f r)
  end.

Definition toLowerCase : string -> string := mapString lowerAscii.
Definition toUpperCase : string -> string := mapString upperAscii.

(** [s.includes(p)] *)
Fixpoint includes (p s : string) : bool :=
  if prefix p s then true
  else match s with
       | EmptyString => false
       | String _ r => includes p r
       end.

(** [String(n)] for a natural number. *)
Definition natToString (n : nat) : string :=
  NilZero.string_of_uint (Nat.to_uint n).

Fixpoint repeatChar (c : ascii) (k : nat) : string :=
  match k with
  | O => EmptyString
  | S k' => String c (repeatChar c k')
  end.

(** [s.padStart(w, "0")] *)
Definition padStart0 (w : nat) (s : string) : string :=
  repeatChar "0"%char (w - String.length s) ++ s.

(** The member identifier [`M-${String(i + 1).padStart(4, "0")}`]. *)
Definition memberId (i : nat) : string :=
  "M-" ++ padStart0 4 (natToString (i + 1)).

(** ** The seeded random source ([rng.ts]) *)

Module Rng.

(** The object holds one field, [seed], which every call of [next] replaces.
    The field is taken to be an integer, and the arithmetic of [next] is the
    exact one.  For a state in [0, 2^32) the product
    [seed * 1664525 + 1013904223] is below 2^53, double arithmetic is exact on
    it, and [next] below is the value the code computes; [next] leaves such a
    state in that range.  Outside that range the code can differ: for a
    first seed above about 5.4 * 10^9 ([Date.now()], for one) the first
    product exceeds 2^53 and is rounded, for a seed from about 10^302 it
    overflows and the draw is NaN, and a negative seed can give negative
    draws.  Statements that depend on the values drawn are
    made for states in [0, 2^32) ([exactState]).  JavaScript's [%] truncates
    towards zero ([Z.rem]). *)
Record Random : Type := mkRandom { seed : Z }.

(** The states on which the exact arithmetic of the embedding and the double
    arithmetic of the code agree. *)
Definition exactState (g : Random) : Prop := (0 <= seed g < 4294967296)%Z.

(** [constructor(seed)]: [seed ?? Date.now()]. *)
Definition create (s : option Z) (now : Z) : Random :=
  mkRandom (match s with Some z => z | None => now end).

Definition next (g : Random) : Q * Random :=
  let s := Z.rem (seed g * 1664525 + 1013904223) 4294967296 in
  (s # 4294967296, mkRandom s).

(** [while (u === 0) u = this.next();] with a bound on the iterations. *)
Fixpoint redraw (fuel : nat) (g : Random) : option (Q * Random) :=
  match fuel with
  | O => None
  | S fuel' =>
      let (u, g') := next g in
      if Qeq_bool u 0 then redraw fuel' g' else Some (u, g')
  end.

(** [gauss(mu, sigma)].  [boxMuller u v] stands for
    [Math.sqrt(-2.0 * Math.log(u)) * Math.cos(2.0 * Math.PI * v)], which has no
    exact rational value; it is a parameter of the model.  The expression is
    a number only for [u > 0]: from a state in [0, 2^32) both draws kept lie
    in (0, 1) ([gauss_draws_in_domain]), while from a negative state the code
    takes the logarithm of a negative draw and returns NaN, which the
    parameter does not show.  Statements about the value returned are made
    for states in [0, 2^32).  Each of the two redraw loops gets two
    iterations, which always suffice (a draw of 0 leaves the state 0, and the
    next state is the increment). *)
Definition gauss (boxMuller : Q -> Q -> Q) (mu sigma : Q) (g : Random)
  : Result (Q * Random) :=
  match redraw 2 g with
  | None => Throw OutOfFuel
  | Some (u, g1) =>
      match redraw 2 g1 with
      | None => Throw OutOfFuel
      | Some (v, g2) => Ok ((boxMuller u v * sigma + mu)%Q, g2)
      end
  end.

(** The loop of [choice]: [sum] is the running sum, [None] once it is NaN
    (a position of [items] with no weight adds [undefined]). *)
Fixpoint scan {T} (r : Q) (sum : option Q) (items : list T) (weights : list Q)
  : option T :=
  match items with
  | [] => None
  | x :: items' =>
      let sum' := match sum, weights with
                  | Some s, w :: _ => Some (s + w)%Q
                  | _, _ => None
                  end in
      if match sum' with Some s => Qltb r s | None => false end
      then Some x
      else scan r sum' items' (tl weights)
  end.

Definition choice {T} (items : list T) (weights : option (list Q)) (g : Random)
  : Result (option T * Random) :=
  match items with
  | [] => Throw (Error "Empty items")
  | _ :: _ =>
      match weights with
      | None =>
          let (u, g') := next g in
          Ok (js_index items (Qfloor (u * inject_Z (Z.of_nat (List.length items)))), g')
      | Some ws =>
          let total := Qsum ws in
          let (u, g') := next g in
          let r := (u * total)%Q in
          match scan r (Some 0%Q) items ws with
          | Some x => Ok (Some x, g')
          | None => Ok (js_index items (Z.of_nat (List.length items) - 1), g')
          end
      end
  end.

(** [choices(items, weights, k)] *)
Fixpoint choices {T} (items : list T) (weights : list Q) (k : nat) (g : Random)
  : Result (list (option T) * Random) :=
  match k with
  | O => Ok ([], g)
  | S k' =>
      match choice items (Some weights) g with
      | Throw e => Throw e
      | Ok (x, g') =>
          match choices items weights k' g' with
          | Throw e => Throw e
          | Ok (xs, g'') => Ok (x :: xs, g'')
          end
      end
  end.

End Rng.


(** ** More string functions *)

(** White space of one byte: the ASCII characters that [\s] and [trim()]
    match.  Both also match spaces outside ASCII (U+00A0, U+2028, U+3000, ...),
    which a byte string holds as several bytes and this test does not see:
    the string functions built on it are those of the code on ASCII text. *)
Definition isSpace (c : ascii) : bool :=
  let n := nat_of_ascii c in
  (n =? 32) || ((9 <=? n) && (n <=? 13)).

Definition isDigit (c : ascii) : bool :=
  let n := nat_of_ascii c in (48 <=? n) && (n <=? 57).

Fixpoint dropWhile (f : ascii -> bool) (s : string) : string :=
  match s with
  | EmptyString => EmptyString
  | String c r => if f c then dropWhile f r else s
  end.

Fixpoint takeWhile (f : ascii -> bool) (s : string) : string :=
  match s with
  | EmptyString => EmptyString
  | String c r => if f c then String c (takeWhile f r) else EmptyString
  end.

Fixpoint revString (acc s : string) : string :=
  match s with
  | EmptyString => acc
  | String c r => revString (String c acc) r
  end.

(** [s.trim()] *)
Definition trim (s : string) : string :=
  revString EmptyString
    (dropWhile isSpace (revString EmptyString (dropWhile isSpace s))).

(** [s.slice(k)] *)
Fixpoint dropString (k : nat) (s : string) : string :=
  match k, s with
  | S k', String _ r => dropString k' r
  | _, _ => s
  end.

(** [s.replace(/p/g, "")] for a literal, non-empty pattern [p]: [skip] counts the
    characters of a match that remain to be dropped. *)
Fixpoint removeAllFrom (p : string) (skip : nat) (s : string) : string :=
  match s with
  | EmptyString => EmptyString
  | String c r =>
      match skip with
      | S k => removeAllFrom p k r
      | O => if prefix p s then removeAllFrom p (String.length p - 1) r
             else String c (removeAllFrom p 0 r)
      end
  end.

Definition removeAll (p s : string) : string := removeAllFrom p 0 s.

(** [s.startsWith(p)] *)
Definition startsWith (p s : string) : bool := prefix p s.

Definition newline : string := String (ascii_of_nat 10) EmptyString.

(** ** The data model ([api.ts], [agents.ts], [simulation.ts]) *)

(** [District]: the optional descriptive fields ([description], [industries],
    [demographics_text]) are read by no function embedded here and are left out. *)
Record District : Type := mkDistrict {
  district_id : string;
  name : string;
  lean : Q;
  population : Q;
  weights : list (string * Q)
}.

Record Member : Type := mkMember {
  member_id : string;
  district : District;
  ideology : Q;
  party_hint : string
}.

Record Bill : Type := mkBill {
  title : string;
  summary : string;
  text_content : option string;
  issue_vector : list (string * Q)
}.

Inductive Stance : Type := support | oppose | amend.

(** The literal union ["yes" | "no" | "abstain"]. *)
Inductive Ballot : Type := yes | no | abstain.

Record Speech : Type := mkSpeech {
  sp_member_id : string;
  stance : Stance;
  text : string;
  rationale : list (string * Q)
}.

Definition Ballot_eqb (a b : Ballot) : bool :=
  match a, b with
  | yes, yes | no, no | abstain, abstain => true
  | _, _ => false
  end.

(** The fixed mapping support -> yes, oppose -> no, amend -> abstain. *)
Definition voteOfStance (s : Stance) : Ballot :=
  match s with
  | support => yes
  | oppose => no
  | amend => abstain
  end.

(** [[...members].sort((a, b) => a.ideology - b.ideology)]: the sort is stable,
    so it is determined by the comparator; insertion from the right keeps equal
    keys in their original order. *)
Fixpoint insertByIdeology (m : Member) (l : list Member) : list Member :=
  match l with
  | [] => [m]
  | x :: l' =>
      if Qle_bool (ideology m) (ideology x) then m :: l
      else x :: insertByIdeology m l'
  end.

Fixpoint sortByIdeology (l : list Member) : list Member :=
  match l with
  | [] => []
  | m :: l' => insertByIdeology m (sortByIdeology l')
  end.

(** [Math.max(-1, Math.min(1, x))] *)
Definition clamp (x : Q) : Q := Qmax (-1) (Qmin 1 x).

(** ** Values decoded from JSON *)

#[local] Unset Elimination Schemes.

Inductive JsVal : Type :=
| JUndefined
| JNull
| JBool (b : bool)
| JNum (q : Q)
| JStr (s : string)
| JArr (items : list JsVal)
| JObj (fields : list (string * JsVal)).

#[local] Set Elimination Schemes.

Fixpoint lookupField (k : string) (fields : list (string * JsVal)) : JsVal :=
  match fields with
  | [] => JUndefined
  | (k', v) :: rest => if String.eqb k k' then v else lookupField k rest
  end.

(** [v.k] for a data property [k]: a [TypeError] on [null] and [undefined],
    [undefined] on a value that has no such property. *)
Definition getProp (v : JsVal) (k : string) : Result JsVal :=
  match v with
  | JUndefined | JNull => Throw TypeError
  | JObj fields => Ok (lookupField k fields)
  | _ => Ok JUndefined
  end.

(** ** The outside world *)

(** One [fetch] to the local generation endpoint followed by [r.json()]. *)
Inductive Fetched : Type :=
| NetworkError                               (* [fetch] rejects *)
| Response (ok : bool) (body : option JsVal). (* [r.ok]; [None]: [r.json()] rejects *)

(** One [engine.chat.completions.create] followed by
    [reply.choices[0].message.content]. *)
Inductive Reply : Type :=
| CreateFails                    (* the call rejects, or the reply has no first choice *)
| Content (c : option string).   (* [None]: the content is [null] *)

Record World : Type := mkWorld {
  mathRandom : nat -> Q;       (* the successive values of [Math.random()] *)
  randomCalls : nat;
  fetched : nat -> Fetched;    (* the successive outcomes of [fetch] *)
  fetchCalls : nat;
  completion : nat -> Reply;   (* the successive replies of the inference engine *)
  completionCalls : nat;
  dateNow : Z;                 (* [Date.now()] *)
  reloadFails : bool;          (* whether [engine.reload] rejects *)
  loadedEngine : option string (* the module variables [loadedEngine] and
                                  [currentModelId] of [simulation.ts] *)
}.

(** A computation reads and advances the world and returns or throws; the
    world after a throw is kept, since a [catch] continues from it. *)
Definition M (A : Type) : Type := World -> Result A * World.

Definition ret {A} (a : A) : M A := fun w => (Ok a, w).

Definition throw {A} (e : Exn) : M A := fun w => (Throw e, w).

Definition bind {A B} (m : M A) (k : A -> M B) : M B :=
  fun w =>
    match m w with
    | (Ok a, w') => k a w'
    | (Throw e, w') => (Throw e, w')
    end.

(** [try { m } catch (e) { h e }] *)
Definition catch {A} (m : M A) (h : Exn -> M A) : M A :=
  fun w =>
    match m w with
    | (Ok a, w') => (Ok a, w')
    | (Throw e, w') => h e w'
    end.

Definition lift {A} (r : Result A) : M A := fun w => (r, w).

Notation "x <- m ;; k" := (bind m (fun x => k))
  (at level 61, m at next level, right associativity).
Notation "' pat <- m ;; k" := (bind m (fun x => match x with pat => k end))
  (at level 61, pat pattern, m at next level, right associativity).

(** [Math.random()] *)
Definition random : M Q :=
  fun w =>
    (Ok (mathRandom w (randomCalls w)),
     mkWorld (mathRandom w) (S (randomCalls w)) (fetched w) (fetchCalls w)
       (completion w) (completionCalls w) (dateNow w) (reloadFails w)
       (loadedEngine w)).

(** [await fetch(...)] and, when asked for, [await r.json()] *)
Definition fetch : M Fetched :=
  fun w =>
    (Ok (fetched w (fetchCalls w)),
     mkWorld (mathRandom w) (randomCalls w) (fetched w) (S (fetchCalls w))
       (completion w) (completionCalls w) (dateNow w) (reloadFails w)
       (loadedEngine w)).

(** [(await engine.chat.completions.create(...)).choices[0].message.content] *)
Definition createCompletion : M (option string) :=
  fun w =>
    let w' :=
      mkWorld (mathRandom w) (randomCalls w) (fetched w) (fetchCalls w)
        (completion w) (S (completionCalls w)) (dateNow w) (reloadFails w)
        (loadedEngine w) in
    match completion w (completionCalls w) with
    | CreateFails => (Throw Rejected, w')
    | Content c => (Ok c, w')
    end.

(** [content || fallback] *)
Definition orElse (c : option string) (fallback : string) : string :=
  match c with
  | None => fallback
  | Some EmptyString => fallback
  | Some s => s
  end.

(** [for (const x of xs) { ... }] with an accumulator. *)
Fixpoint foldM {A B} (f : B -> A -> M B) (xs : list A) (acc : B) : M B :=
  match xs with
  | [] => ret acc
  | x :: xs' => acc' <- f acc x ;; foldM f xs' acc'
  end.

(** A JavaScript object used as a map from strings: keys in insertion order,
    an assignment to a present key replaces its value in place. *)
Fixpoint lookup {V} (k : string) (o : list (string * V)) : option V :=
  match o with
  | [] => None
  | (k', v) :: o' => if String.eqb k k' then Some v else lookup k o'
  end.

Fixpoint assign {V} (k : string) (v : V) (o : list (string * V)) : list (string * V) :=
  match o with
  | [] => [(k, v)]
  | (k', v') :: o' =>
      if String.eqb k k' then (k', v) :: o' else (k', v') :: assign k v o'
  end.

(** ** The decision backend ([agents.ts]) *)

Module Agents.

(** [VoteDecision]: the interface declares [vote] as one of three literals and
    [rationale] as a string; at run time both come out of [JSON.parse], so the
    embedding keeps what the code can produce: any string, any value. *)
Record VoteDecision : Type := mkDecision {
  vote : string;
  decisionRationale : JsVal
}.

(** [llmModel.includes("local") || llmModel.startsWith("llama")] *)
Definition isLocalModel (llmModel : string) : bool :=
  includes "local" llmModel || startsWith "llama" llmModel.

Section DecideVote.

(** [JSON.parse]: [None] when it throws a [SyntaxError]. *)
Variable JSON_parse : string -> option JsVal.

(** The body of the inner [try]: strip the code fences, trim, parse, read the
    two fields. *)
Definition parseDecision (responseText : JsVal) : Result VoteDecision :=
  match responseText with
  | JStr s =>
      let clean := trim (removeAll "```" (removeAll "```json" s)) in
      match JSON_parse clean with
      | None => Throw (Error "SyntaxError")
      | Some json =>
          match getProp json "vote" with
          | Throw e => Throw e
          | Ok (JStr v) =>
              match getProp json "rationale" with
              | Throw e => Throw e
              | Ok r => Ok (mkDecision (toLowerCase v) r)
              end
          | Ok _ => Throw TypeError        (* [toLowerCase] is not a function *)
          end
      end
  | _ => Throw TypeError                   (* [replace] is not a function *)
  end.

(** The body of the outer [try] up to the inner one: the request, or the
    [throw] for a model that is not a local one. *)
Definition requestDecision (llmModel : string) : M JsVal :=
  if isLocalModel llmModel then
    r <- fetch ;;
    match r with
    | NetworkError => throw Rejected
    | Response _ None => throw Rejected
    | Response _ (Some data) => lift (getProp data "response")
    end
  else throw (Error "Model not supported").

Definition decideVote (member : Member) (bill : Bill) (useLlm : bool)
  (llmModel : string) : M VoteDecision :=
  if negb useLlm then
    roll <- random ;;
    ret (mkDecision (if Qgtb roll (1 # 2) then "yes" else "no")
           (JStr "LLM disabled; random heuristic vote."))
  else
    catch
      (responseText <- requestDecision llmModel ;;
       catch (lift (parseDecision responseText))
         (fun _ => ret (mkDecision "abstain" (JStr "Failed to parse reasoning."))))
      (fun _ => ret (mkDecision "abstain" (JStr "Error in decision process."))).

End DecideVote.

End Agents.

(** ** Speeches ([debate.ts]) *)

Module Debate.

Definition leanWord (member : Member) : string :=
  if Qgtb (lean (district member)) (15 # 100) then "left-leaning"
  else if Qltb (lean (district member)) (- (15 # 100)) then "right-leaning"
  else "mixed".

Definition templateSpeech (member : Member) (s : Stance) (bill : Bill) : string :=
  match s with
  | support =>
      "I support the " ++ title bill ++ ". My district is " ++ leanWord member
      ++ ", and I believe this legislation moves us in the right direction."
  | oppose =>
      "I oppose the " ++ title bill ++ ". My district is " ++ leanWord member
      ++ ", and this bill does not align with our values or priorities."
  | amend =>
      "I have concerns about the " ++ title bill ++ ". My district is "
      ++ leanWord member
      ++ "; we need to address specific flaws before I can support this."
  end.

(** [data.response.trim()] inside the [try] of [generateSpeech]. *)
Definition responseText (data : JsVal) : Result string :=
  match getProp data "response" with
  | Ok (JStr s) => Ok (trim s)
  | Ok _ => Throw TypeError
  | Throw e => Throw e
  end.

Definition generateSpeech (member : Member) (s : Stance) (bill : Bill)
  (useLlm : bool) (llmModel : string) : M string :=
  if negb useLlm then ret (templateSpeech member s bill)
  else if Agents.isLocalModel llmModel then
    r <- fetch ;;
    match r with
    | Response true (Some data) =>
        match responseText data with
        | Ok t => ret t
        | Throw _ => ret (templateSpeech member s bill)
        end
    | _ => ret (templateSpeech member s bill)
    end
  else ret (templateSpeech member s bill).

End Debate.

(** ** The engine ([engine.ts]) *)

Module Engine.

(** [Vote] and [Round] of [api.ts]: this tally keeps no roll call. *)
Record Vote : Type := mkVote {
  v_yes : Z;
  v_no : Z;
  v_abstain : Z;
  passed : bool;
  threshold : Q
}.

Record Round : Type := mkRound {
  round_index : nat;
  speeches : list Speech;
  roundVote : Vote
}.

Record SimulationResult : Type := mkResult {
  members : nat;
  rounds : list Round;
  final_passed : bool
}.

Section Engine.

Variable boxMuller : Q -> Q -> Q.
Variable JSON_parse : string -> option JsVal.

Definition partyHint (x : Q) : string :=
  if Qgtb x (15 # 100) then "Blue"
  else if Qltb x (- (15 # 100)) then "Red" else "Purple".

(** The loop of [sampleMembers]: [i] is the loop variable, [k] the number of
    iterations left. *)
Fixpoint sampleLoop (districts : list District) (probs : list Q) (k i : nat)
  (rng : Rng.Random) : Result (list Member) :=
  match k with
  | O => Ok []
  | S k' =>
      match Rng.choice districts (Some probs) rng with
      | Throw e => Throw e
      | Ok (None, _) => Throw TypeError
      | Ok (Some d, rng1) =>
          match Rng.gauss boxMuller (lean d) (35 # 100) rng1 with
          | Throw e => Throw e
          | Ok (x, rng2) =>
              let x' := clamp x in
              match sampleLoop districts probs k' (S i) rng2 with
              | Throw e => Throw e
              | Ok ms => Ok (mkMember (memberId i) d x' (partyHint x') :: ms)
              end
          end
      end
  end.

Definition sampleMembers (districts : list District) (n : nat) (rng : Rng.Random)
  : Result (list Member) :=
  let pops := map (fun d => Qmax 1 (population d)) districts in
  let total := Qsum pops in
  let probs := map (fun p => (p / total)%Q) pops in
  sampleLoop districts probs n 0 rng.

Definition seenHas (seen : list string) (id : string) : bool :=
  existsb (String.eqb id) seen.

(** [for (const i of idxs)]: the members at the five fixed positions, each once. *)
Fixpoint pickFixed (sortedM : list Member) (idxs : list nat)
  (chosen : list Member) (seen : list string)
  : Result (list Member * list string) :=
  match idxs with
  | [] => Ok (chosen, seen)
  | i :: idxs' =>
      match nth_error sortedM i with
      | None => Throw TypeError
      | Some m =>
          if seenHas seen (member_id m) then pickFixed sortedM idxs' chosen seen
          else pickFixed sortedM idxs' (chosen ++ [m]) (seen ++ [member_id m])
      end
  end.

(** [while (chosen.length < k && mid.length > 0)]: the draws come from
    [Math.random()], and nothing bounds their number; [fuel] does. *)
Fixpoint fillFromMiddle (fuel : nat) (k total : nat) (mid : list Member)
  (chosen : list Member) (seen : list string) : M (list Member) :=
  if (List.length chosen <? k) && (0 <? List.length mid) then
    match fuel with
    | O => throw OutOfFuel
    | S fuel' =>
        u <- random ;;
        match js_index mid (Qfloor (u * inject_Z (Z.of_nat (List.length mid)))) with
        | None => throw TypeError
        | Some m =>
            let fresh := negb (seenHas seen (member_id m)) in
            let chosen' := if fresh then chosen ++ [m] else chosen in
            let seen' := if fresh then seen ++ [member_id m] else seen in
            if (List.length chosen' <? k) && (total <=? List.length seen')
            then ret chosen'
            else fillFromMiddle fuel' k total mid chosen' seen'
        end
    end
  else ret chosen.

Definition pickSpokespeople (fuel : nat) (ms : list Member) (k : nat)
  : M (list Member) :=
  let sortedM := sortByIdeology ms in
  if List.length sortedM <=? k then ret sortedM
  else
    let len := List.length sortedM in
    let idxs := [0; len / 4; len / 2; (3 * len) / 4; len - 1] in
    '(chosen, seen) <- lift (pickFixed sortedM idxs [] []) ;;
    let mid := slice sortedM (len / 4) ((3 * len) / 4) in
    chosen' <- fillFromMiddle fuel k (List.length ms) mid chosen seen ;;
    ret (sortByIdeology chosen').

(** [passed = (yes / Math.max(1, yes + no)) >= threshold] *)
Definition tallyPassed (y n : Z) (thr : Q) : bool :=
  Qgeb (inject_Z y / Qmax 1 (inject_Z (y + n)))%Q thr.

(** The body of [for (const m of members)] in [asyncVote]. *)
Definition tallyStep (bill : Bill) (useLlm : bool) (llmModel : string)
  (acc : Z * Z * Z) (m : Member) : M (Z * Z * Z) :=
  let '(y, n, a) := acc in
  decision <- Agents.decideVote JSON_parse m bill useLlm llmModel ;;
  if String.eqb (Agents.vote decision) "yes" then ret (y + 1, n, a)%Z
  else if String.eqb (Agents.vote decision) "no" then ret (y, n + 1, a)%Z
  else ret (y, n, a + 1)%Z.

Definition asyncVote (ms : list Member) (bill : Bill) (useLlm : bool)
  (llmModel : string) (thr : Q) : M Vote :=
  '(y, n, a) <- foldM (tallyStep bill useLlm llmModel) ms (0, 0, 0)%Z ;;
  ret (mkVote y n a (tallyPassed y n thr) thr).

(** One spokesperson: the decision, the stance it implies, the speech. *)
Definition speak (bill : Bill) (useLlm : bool) (llmModel : string)
  (acc : list Speech) (s : Member) : M (list Speech) :=
  decision <- Agents.decideVote JSON_parse s bill useLlm llmModel ;;
  let st := if String.eqb (Agents.vote decision) "yes" then support
            else if String.eqb (Agents.vote decision) "no" then oppose
            else amend in
  txt <- Debate.generateSpeech s st bill useLlm llmModel ;;
  ret (acc ++ [mkSpeech (member_id s) st txt []]).

(** [for (let r = 0; r < rounds; r++)]: [k] iterations are left. *)
Fixpoint roundLoop (fuel : nat) (ms : list Member) (bill : Bill) (useLlm : bool)
  (llmModel : string) (k r : nat) (allRounds : list Round) : M (list Round) :=
  match k with
  | O => ret allRounds
  | S k' =>
      spokes <- pickSpokespeople fuel ms 7 ;;
      sps <- foldM (speak bill useLlm llmModel) spokes [] ;;
      voteResult <- asyncVote ms bill useLlm llmModel (1 # 2) ;;
      let allRounds' := allRounds ++ [mkRound r sps voteResult] in
      if passed voteResult then ret allRounds'
      else if negb (passed voteResult) then ret allRounds'
      else roundLoop fuel ms bill useLlm llmModel k' (S r) allRounds'
  end.

Definition runSimulation (fuel : nat) (districts : list District)
  (numMembers rounds : nat) (bill : Bill) (useLlm : bool) (llmModel : string)
  (seed : option Z) : M SimulationResult :=
  fun w =>
    let rng := Rng.create seed (dateNow w) in
    match districts with
    | [] => (Throw (Error "No active districts are loaded."), w)
    | _ :: _ =>
        (ms <- lift (sampleMembers districts numMembers rng) ;;
         allRounds <- roundLoop fuel ms bill useLlm llmModel rounds 0 [] ;;
         let finalPassed :=
           match allRounds with
           | [] => false
           | _ :: _ =>
               match nth_error allRounds (List.length allRounds - 1) with
               | Some rd => passed (roundVote rd)
               | None => false
               end
           end in
         ret (mkResult numMembers allRounds finalPassed)) w
    end.

End Engine.

End Engine.

(** ** The browser orchestrator ([simulation.ts]) *)

Module Client.

Record Vote : Type := mkVote {
  v_yes : Z;
  v_no : Z;
  v_abstain : Z;
  passed : bool;
  threshold : Q;
  rollCall : list (string * Ballot)
}.

Record Round : Type := mkRound {
  round_index : nat;
  speeches : list Speech;
  roundVote : Vote;
  amendment : option string
}.

(** [SimResult]; the optional [final_statements] is never set. *)
Record SimResult : Type := mkResult {
  members : list Member;
  rounds : list Round;
  final_passed : bool;
  notes : list string
}.

(** [SimOptions] without its callbacks ([onInit], [onSpeech], [onRoundComplete],
    [onPhase], [llmConfig.onProgress]): they observe the run and return nothing
    to it.  [sample] is [districtSummary.sample], [llmConfig] the model name. *)
Record SimOptions : Type := mkOptions {
  bill : Bill;
  sample : list District;
  numMembers : nat;
  optRounds : nat;
  useLlm : bool;
  llmConfig : option string;
  optSeed : option Z
}.

Definition partyHint (x : Q) : string :=
  if Qgtb x (1 # 10) then "Blue"
  else if Qltb x (- (1 # 10)) then "Red" else "Purple".

(** The loop of [sampleMembers]; the third parameter of the function,
    [rngSeed], is read nowhere in its body. *)
Fixpoint sampleLoop (districts : list District) (k i : nat) : M (list Member) :=
  match k with
  | O => ret []
  | S k' =>
      match nth_error districts (i mod List.length districts) with
      | None => throw TypeError
      | Some d =>
          u <- random ;;
          let noise := ((u - (1 # 2)) * (4 # 10))%Q in
          let x := clamp (lean d + noise)%Q in
          ms <- sampleLoop districts k' (S i) ;;
          ret (mkMember (memberId i) d x (partyHint x) :: ms)
      end
  end.

Definition sampleMembers (districts : list District) (n : nat) (rngSeed : option Z)
  : M (list Member) :=
  sampleLoop districts n 0.

(** *** [batchVote] *)

Definition prefixCI (p s : string) : bool :=
  prefix p (toUpperCase (substring 0 (String.length p) s)).

Definition isSeparator (c : ascii) : bool :=
  let n := nat_of_ascii c in (n =? 58) || (n =? 124) || (n =? 45).

(** One attempt of [/(M-\d+)\s*[:|-]?\s*(YES|NO)/i] at the start of [s]: the
    identifier in upper case, the vote, and the length of the match.  Every
    quantifier of the pattern is followed by characters it cannot match, so the
    greedy reading is the only one. *)
Definition matchAt (s : string) : option (string * Ballot * nat) :=
  match s with
  | String m (String dash r) =>
      if (Ascii.eqb (upperAscii m) "M"%char && Ascii.eqb dash "-"%char)%bool then
        let ds := takeWhile isDigit r in
        if (String.length ds =? 0) then None
        else
          let r1 := dropString (String.length ds) r in
          let r2 := dropWhile isSpace r1 in
          let ws1 := String.length r1 - String.length r2 in
          let r3 := match r2 with
                    | String c r' => if isSeparator c then r' else r2
                    | EmptyString => r2
                    end in
          let sep := String.length r2 - String.length r3 in
          let r4 := dropWhile isSpace r3 in
          let ws2 := String.length r3 - String.length r4 in
          let n := 2 + String.length ds + ws1 + sep + ws2 in
          if prefixCI "YES" r4 then Some (("M-" ++ ds)%string, yes, n + 3)
          else if prefixCI "NO" r4 then Some (("M-" ++ ds)%string, no, n + 2)
          else None
      else None
  | _ => None
  end.

(** [while ((match = regex.exec(txt)) !== null)]: the matches from left to
    right, each search starting where the last match ended. *)
Fixpoint scanVotes (skip : nat) (s : string) : list (string * Ballot) :=
  match s with
  | EmptyString => []
  | String _ r =>
      match skip with
      | S k => scanVotes k r
      | O =>
          match matchAt s with
          | Some (id, v, n) => (id, v) :: scanVotes (n - 1) r
          | None => scanVotes 0 r
          end
      end
  end.

Definition RollCall : Type := list (string * Ballot).

Definition recordMatches (found : list (string * Ballot)) (results : RollCall)
  : RollCall :=
  fold_left (fun res '(id, v) => assign id v res) found results.

(** The fallback of one member of the chunk: a vote drawn with probability
    [(ideology + 1) / 2] when the reply named no vote for it. *)
Definition fallbackVote (results : RollCall) (m : Member) : M RollCall :=
  match lookup (member_id m) results with
  | Some _ => ret results
  | None =>
      let prob := ((ideology m + 1) / 2)%Q in
      u <- random ;;
      ret (assign (member_id m) (if Qltb u prob then yes else no) results)
  end.

Definition abstainAll (chunk : list Member) (results : RollCall) : RollCall :=
  fold_left (fun res m => assign (member_id m) abstain res) chunk results.

Definition voteChunk (chunk : list Member) (results : RollCall) : M RollCall :=
  catch
    (c <- createCompletion ;;
     let txt := orElse c EmptyString in
     foldM fallbackVote chunk (recordMatches (scanVotes 0 txt) results))
    (fun _ => ret (abstainAll chunk results)).

Definition BATCH_SIZE : nat := 10.

(** [for (let i = 0; i < members.length; i += BATCH_SIZE)]: [k] iterations
    are left. *)
Fixpoint batchLoop (ms : list Member) (k i : nat) (results : RollCall)
  : M RollCall :=
  match k with
  | O => ret results
  | S k' =>
      results' <- voteChunk (slice ms i (i + BATCH_SIZE)) results ;;
      batchLoop ms k' (i + BATCH_SIZE) results'
  end.

Definition batchVote (b : Bill) (ms : list Member) : M RollCall :=
  batchLoop ms ((List.length ms + (BATCH_SIZE - 1)) / BATCH_SIZE) 0 [].

(** *** [generateAmendment] *)

Definition generateAmendment (b : Bill) (sps : list Speech) (voteFailed : bool)
  : M string :=
  c <- createCompletion ;;
  ret (orElse c "Add a budgetary oversight committee to monitor spending.").

(** *** [runSimulationClient] *)

(** Step 1: load the engine when the run asks for one that is not loaded. *)
Definition initEngine (o : SimOptions) : M unit :=
  fun w =>
    match useLlm o, llmConfig o with
    | true, Some model =>
        if match loadedEngine w with
           | None => true
           | Some current => negb (String.eqb current model)
           end
        then
          if reloadFails w then (Throw Rejected, w)
          else (Ok tt,
                mkWorld (mathRandom w) (randomCalls w) (fetched w) (fetchCalls w)
                  (completion w) (completionCalls w) (dateNow w) (reloadFails w)
                  (Some model))
        else (Ok tt, w)
    | _, _ => (Ok tt, w)
    end.

(** [useLlm && loadedEngine] *)
Definition engineReady (o : SimOptions) : M bool :=
  fun w => (Ok (useLlm o && match loadedEngine w with Some _ => true | None => false end), w).

(** The five speakers: the ends, the quartiles and the median of the members
    sorted by ideology; a position outside the array holds [undefined]. *)
Definition pickSpeakers (ms : list Member) : list (option Member) :=
  let sorted := sortByIdeology ms in
  let len := List.length sorted in
  [ nth_error sorted 0;
    nth_error sorted (len / 4);
    nth_error sorted (len / 2);
    nth_error sorted ((3 * len) / 4);
    js_index sorted (Z.of_nat len - 1) ].

(** The body of [for (const s of speakers)]. *)
Definition speak (llm : bool) (b : Bill) (r : nat) (sps : list Speech)
  (speaker : option Member) : M (list Speech) :=
  match speaker with
  | None => throw TypeError
  | Some s =>
      if llm then
        c <- createCompletion ;;
        let t := match c with Some x => toLowerCase x | None => EmptyString end in
        let st := if includes "yes" t then support
                  else if includes "no" t then oppose else amend in
        c2 <- createCompletion ;;
        ret (sps ++ [mkSpeech (member_id s) st (orElse c2 "I yield my time.") []])
      else
        let st := if Qgtb (ideology s) 0 then support else oppose in
        ret (sps ++ [mkSpeech (member_id s) st "I have no brain (LLM disabled)." []])
  end.

(** Step 1 of the vote: the counts of [Object.entries(votes)]. *)
Definition countStep (acc : Z * Z * Z) (entry : string * Ballot) : Z * Z * Z :=
  let '(y, n, a) := acc in
  match snd entry with
  | yes => (y + 1, n, a)
  | no => (y, n + 1, a)
  | abstain => (y, n, a + 1)
  end%Z.

Definition countVotes (votes : RollCall) : Z * Z * Z :=
  fold_left countStep votes (0, 0, 0)%Z.

(** Step 2 of the vote, for one speech: the speaker's vote is forced to the
    vote its stance implies and the counts follow. *)
Definition forceConsistency (acc : Z * Z * Z * RollCall) (s : Speech)
  : Z * Z * Z * RollCall :=
  let '(y, n, a, votes) := acc in
  let currentVote := lookup (sp_member_id s) votes in
  let forcedVote := voteOfStance (stance s) in
  if match currentVote with
     | Some v => Ballot_eqb v forcedVote
     | None => false
     end
  then acc
  else
    let '(y1, n1, a1) :=
      match currentVote with
      | Some yes => (y - 1, n, a)
      | Some no => (y, n - 1, a)
      | _ => (y, n, a - 1)
      end%Z in
    let '(y2, n2, a2) :=
      match forcedVote with
      | yes => (y1 + 1, n1, a1)
      | no => (y1, n1 + 1, a1)
      | abstain => (y1, n1, a1 + 1)
      end%Z in
    (y2, n2, a2, assign (sp_member_id s) forcedVote votes).

(** [yes > (yes + no) * 0.5] *)
Definition majority (y n : Z) : bool :=
  Qgtb (inject_Z y) (inject_Z (y + n) * (1 # 2))%Q.

Definition castVotes (llm : bool) (o : SimOptions) (b : Bill) (ms : list Member)
  (sps : list Speech) : M Vote :=
  if llm then
    votes <- batchVote b ms ;;
    let '(y, n, a) := countVotes votes in
    let '(y', n', a', votes') := fold_left forceConsistency sps (y, n, a, votes) in
    ret (mkVote y' n' a' (majority y' n') (1 # 2) votes')
  else
    ret (mkVote (Z.of_nat (numMembers o / 2)) (Z.of_nat (numMembers o / 2)) 0
           false (1 # 2) []).

Definition amendSummary (b : Bill) (r : nat) (amendText : string) : Bill :=
  mkBill (title b)
    (summary b ++ newline ++ newline ++ "AMENDMENT (Round "
     ++ natToString (r + 1) ++ "): " ++ amendText)
    (text_content b) (issue_vector b).

(** [for (let r = 0; r < rounds; r++)]: [k] iterations are left.  The round
    object is pushed before [amendment] is assigned to it; the array holds the
    object itself, so the assignment shows in the result. *)
Fixpoint roundLoop (llm : bool) (o : SimOptions) (ms : list Member) (k r : nat)
  (currentBill : Bill) (allRounds : list Round) (ns : list string)
  : M (list Round * list string) :=
  match k with
  | O => ret (allRounds, ns)
  | S k' =>
      sps <- foldM (speak llm currentBill r) (pickSpeakers ms) [] ;;
      voteRes <- castVotes llm o currentBill ms sps ;;
      if passed voteRes then
        ret (allRounds ++ [mkRound r sps voteRes None],
             ns ++ [("Passed in round " ++ natToString (r + 1) ++ ".")%string])
      else if (S r <? optRounds o) then
        if llm then
          amendText <- generateAmendment currentBill sps true ;;
          roundLoop llm o ms k' (S r) (amendSummary currentBill r amendText)
            (allRounds ++ [mkRound r sps voteRes (Some amendText)])
            (ns ++ [("Amendment Proposed: " ++ amendText)%string])
        else
          roundLoop llm o ms k' (S r) currentBill
            (allRounds ++ [mkRound r sps voteRes None]) ns
      else
        roundLoop llm o ms k' (S r) currentBill
          (allRounds ++ [mkRound r sps voteRes None]) ns
  end.

Definition runSimulationClient (o : SimOptions) : M SimResult :=
  _ <- initEngine o ;;
  match sample o with
  | [] => throw (Error "No districts")
  | d0 :: _ =>
      let filledDistricts :=
        map (fun i => nth (i mod List.length (sample o)) (sample o) d0)
          (seq 0 (numMembers o)) in
      ms <- sampleMembers filledDistricts (numMembers o) (optSeed o) ;;
      llm <- engineReady o ;;
      '(allRounds, ns) <- roundLoop llm o ms (optRounds o) 0 (bill o) [] [] ;;
      let final :=
        match js_index allRounds (Z.of_nat (List.length allRounds) - 1) with
        | Some rd => passed (roundVote rd)
        | None => false
        end in
      ret (mkResult ms allRounds final ns)
  end.

End Client.

(** ** Worlds for concrete runs *)

(** A world whose oracles replay the given lists and then repeat a default:
    [Math.random()] returns 1/2, [fetch] rejects, the engine returns no content. *)
Definition worldOf (rands : list Q) (fetches : list Fetched) (replies : list Reply)
  (loaded : option string) : World :=
  mkWorld (fun k => nth k rands (1 # 2)) 0
          (fun k => nth k fetches NetworkError) 0
          (fun k => nth k replies (Content None)) 0
          0%Z false loaded.

Definition mockDistrict (id : string) (l : Q) : District :=
  mkDistrict id id l 750000 [("economy", 1 # 2); ("climate", 1 # 2)].

Definition mockBill : Bill :=
  mkBill "Save the Whales Act" "This bill bans all whale hunting." None [].

(** ** Predicates used in the statements *)

(** What one step of the vote keeps of a roll call: the keys stay distinct and
    none is lost. *)
Definition extends (old new : Client.RollCall) : Prop :=
  (NoDup (map fst old) -> NoDup (map fst new)) /\
  (forall k, In k (map fst old) -> In k (map fst new)).

(** ** Concrete runs used below *)

(** Three members of one district, two rounds, no engine. *)
Definition heuristicRun : Client.SimOptions :=
  Client.mkOptions mockBill [mockDistrict "d1" 0] 3 2 false None (Some 42%Z).

(** The same configuration with a budget of zero rounds. *)
Definition zeroRoundsRun : Client.SimOptions :=
  Client.mkOptions mockBill [mockDistrict "d1" 0] 3 0 false None (Some 42%Z).

Definition quietWorld : World := worldOf [] [] [] None.

Definition modelName : string := "Llama-3.2-1B-Instruct-q4f16_1-MLC".

(** Two members, one round, the engine enabled.  The five speakers are the
    first member twice and the second three times; the first answers YES, the
    second NO, and the batch reply repeats those votes. *)
Definition tieRun : Client.SimOptions :=
  Client.mkOptions mockBill [mockDistrict "d1" 0] 2 1 true (Some modelName) None.

Definition tieWorld : World :=
  worldOf [] []
    [ Content (Some "YES"); Content (Some "We must act.");
      Content (Some "YES"); Content (Some "We must act.");
      Content (Some "NO"); Content (Some "Too costly.");
      Content (Some "NO"); Content (Some "Too costly.");
      Content (Some "NO"); Content (Some "Too costly.");
      Content (Some "M-0001: YES M-0002: NO") ]
    None.

(** One member, a budget of three rounds, the engine enabled.  Each round asks
    the single member five times for a stance and a speech, then for the batch
    of votes; after a failed round that is not the last it asks for an
    amendment. *)
Definition threeRoundsRun : Client.SimOptions :=
  Client.mkOptions mockBill [mockDistrict "d1" 0] 1 3 true (Some modelName) None.

Definition failingRound (amendmentText : string) : list Reply :=
  [ Content (Some "NO"); Content (Some "Too costly.");
    Content (Some "NO"); Content (Some "Too costly.");
    Content (Some "NO"); Content (Some "Too costly.");
    Content (Some "NO"); Content (Some "Too costly.");
    Content (Some "NO"); Content (Some "Too costly.");
    Content (Some "M-0001: NO");
    Content (Some amendmentText) ].

Definition passingRound : list Reply :=
  [ Content (Some "YES"); Content (Some "We must act.");
    Content (Some "YES"); Content (Some "We must act.");
    Content (Some "YES"); Content (Some "We must act.");
    Content (Some "YES"); Content (Some "We must act.");
    Content (Some "YES"); Content (Some "We must act.");
    Content (Some "M-0001: YES") ].

Definition threeRoundsWorld : World :=
  worldOf [] []
    (failingRound "Reduce funding by 20%." ++ failingRound "Add oversight."
     ++ passingRound)
    None.

(** The first round fails as above; the call that asks for the amendment is
    rejected by the engine. *)
Definition rejectedAmendmentWorld : World :=
  worldOf [] []
    (firstn 11 (failingRound EmptyString) ++ [CreateFails])
    None.

(** One district, one member, one round, no inference: the configuration of
    two runs that differ in nothing but the values [Math.random()] returns. *)
Definition seededRun : Client.SimOptions :=
  Client.mkOptions mockBill [mockDistrict "d1" 0] 1 1 false None (Some 42%Z).

Definition highDraws : World := worldOf [3 # 4; 3 # 4] [] [] None.
Definition lowDraws : World := worldOf [1 # 4; 1 # 4] [] [] None.

(** A reply of the generation endpoint whose vote is none of the three
    literals: the JSON text [{"vote":"Maybe","rationale":"Unsure."}]. *)
Definition dquote : string := String (ascii_of_nat 34) EmptyString.

Definition undecidedReply : string :=
  "{" ++ dquote ++ "vote" ++ dquote ++ ":" ++ dquote ++ "Maybe" ++ dquote ++ ","
  ++ dquote ++ "rationale" ++ dquote ++ ":" ++ dquote ++ "Unsure." ++ dquote ++ "}".

Definition undecidedJson : JsVal :=
  JObj [("vote", JStr "Maybe"); ("rationale", JStr "Unsure.")].

Definition undecidedWorld : World :=
  worldOf [] [Response true (Some (JObj [("response", JStr undecidedReply)]))] [] None.

(** A stand-in for [JSON.parse] that knows one text. *)
Definition parseOnly (known : string) (v : JsVal) (s : string) : option JsVal :=
  if String.eqb s known then Some v else None.

Definition mockMember : Member :=
  mkMember "M001" (mockDistrict "D01" (1 # 2)) (4 # 10) "Blue".

(** One member, one round, the engine enabled; the batch reply also names an
    identifier that belongs to nobody. *)
Definition strayIdRun : Client.SimOptions :=
  Client.mkOptions mockBill [mockDistrict "d1" 0] 1 1 true (Some modelName) None.

Definition strayIdWorld : World :=
  worldOf [] []
    (firstn 10 passingRound ++ [Content (Some "M-0001: YES M-9999: YES")])
    None.

(** One member speaks five times and changes its mind. *)
Definition waveringWorld : World :=
  worldOf [] []
    [ Content (Some "YES"); Content (Some "We must act.");
      Content (Some "NO"); Content (Some "Too costly.");
      Content (Some "YES"); Content (Some "We must act.");
      Content (Some "NO"); Content (Some "Too costly.");
      Content (Some "NO"); Content (Some "Too costly.");
      Content (Some "M-0001: YES") ]
    None.

(** ** Orderings and sample data for the further properties *)

From Stdlib Require Import Sorted.

(** The order [(a, b) => a.ideology - b.ideology] sorts by. *)
Definition byIdeology (a b : Member) : Prop := (ideology a <= ideology b)%Q.

(** Members [M-0001], [M-0002], ... with the given ideologies, all of one
    district. *)
Definition membersOf (xs : list Q) : list Member :=
  map (fun p => mkMember (memberId (fst p)) (mockDistrict "d1" 0) (snd p) "Purple")
      (combine (seq 0 (List.length xs)) xs).

Definition nineMembers : list Member :=
  membersOf [-(8 # 10); -(6 # 10); -(4 # 10); -(2 # 10); 0; 2 # 10; 4 # 10; 6 # 10; 8 # 10]%Q.

(** The generator after [k] calls of [next]. *)
Fixpoint afterDraws (k : nat) (g : Rng.Random) : Rng.Random :=
  match k with
  | O => g
  | S k' => afterDraws k' (snd (Rng.next g))
  end.

(** A reply of the local generation endpoint whose [response] is [s]. *)
Definition generated (s : string) : Fetched :=
  Response true (Some (JObj [("response", JStr s)])).

(** A world in which [Math.random()] always returns 0. *)
Definition zeroDrawsWorld : World :=
  mkWorld (fun _ => 0%Q) 0 (fun _ => NetworkError) 0 (fun _ => Content None) 0
          0%Z false None.

(** The world after [k] further calls of [Math.random()] and nothing else. *)
Definition advanceRandom (k : nat) (w : World) : World :=
  mkWorld (mathRandom w) (randomCalls w + k) (fetched w) (fetchCalls w)
          (completion w) (completionCalls w) (dateNow w) (reloadFails w)
          (loadedEngine w).

(** The amendments recorded on a list of rounds, in order. *)
Definition amendmentsOf (rs : list Client.Round) : list string :=
  flat_map (fun rd => match Client.amendment rd with
                      | Some t => [t]
                      | None => []
                      end) rs.

(** The number of entries of a roll call that hold the ballot [b]. *)
Definition countOf (b : Ballot) (votes : Client.RollCall) : Z :=
  Z.of_nat (List.length (filter (fun e => Ballot_eqb (snd e) b) votes)).

(** The note of a passing last round, for rounds numbered from [r]. *)
Definition passNote (r : nat) (rs : list Client.Round) : list string :=
  match rev rs with
  | rd :: _ =>
      if Client.passed (Client.roundVote rd)
      then [("Passed in round " ++ natToString (r + List.length rs) ++ ".")%string]
      else []
  | [] => []
  end.

(** A reply in the format the batch prompt asks for ("Output strictly:
    M-xxx: YES / M-xxx: NO"): one line per member, given by its index. *)
Definition ballotLine (entry : nat * bool) : string :=
  (memberId (fst entry) ++ ": " ++ (if snd entry then "YES" else "NO") ++ newline)%string.

Definition ballotLines (entries : list (nat * bool)) : string :=
  fold_right (fun e acc => (ballotLine e ++ acc)%string) EmptyString entries.

Fixpoint allDigits (s : string) : bool :=
  match s with
  | EmptyString => true
  | String c r => isDigit c && allDigits r
  end.

(** A world in which every call of the inference engine fails. *)
Definition failingEngineWorld : World :=
  mkWorld (fun _ => (1 # 2)%Q) 0 (fun _ => NetworkError) 0 (fun _ => CreateFails) 0
          0%Z false (Some modelName).

(** ** The batch prompt's view of the bill ([buildBatchVotePrompt]) *)

Module Prompt.

(** Whether [r] continues the first byte of U+2028 or U+2029 in UTF-8
    (E2 80 A8 and E2 80 A9). *)
Definition lineSeparatorTail (r : string) : bool :=
  prefix (String (ascii_of_nat 128) (String (ascii_of_nat 168) EmptyString)) r
  || prefix (String (ascii_of_nat 128) (String (ascii_of_nat 169) EmptyString)) r.

(** The capture group, a greedy run of [.]: the longest run of characters that
    are not line terminators (LF, CR, and U+2028 and U+2029 in their UTF-8
    encoding). *)
Fixpoint takeLine (s : string) : string :=
  match s with
  | EmptyString => EmptyString
  | String c r =>
      let n := nat_of_ascii c in
      if (n =? 10) || (n =? 13) then EmptyString
      else if (n =? 226) && lineSeparatorTail r then EmptyString
      else String c (takeLine r)
  end.

(** One attempt of the pattern [AMENDMENT \(Round \d+\): ] followed by the
    capture group, at the start of [s]: the capture.  The digits are followed
    by a parenthesis, which is no digit, so the greedy reading of [\d+] is the
    only one. *)
Definition matchAmendmentAt (s : string) : option string :=
  if prefix "AMENDMENT (Round " s then
    let r := dropString 17 s in
    let ds := takeWhile isDigit r in
    if String.length ds =? 0 then None
    else
      let r1 := dropString (String.length ds) r in
      if prefix "): " r1 then Some (takeLine (dropString 3 r1)) else None
  else None.

(** [summary.match(...)]: the leftmost match; [None] is [null]. *)
Fixpoint firstAmendment (s : string) : option string :=
  match matchAmendmentAt s with
  | Some t => Some t
  | None =>
      match s with
      | EmptyString => None
      | String _ r => firstAmendment r
      end
  end.

(** [amendmentText = amendMatch ? amendMatch[1] : null], the text the prompt
    repeats under "A COMPROMISE AMENDMENT IS PROPOSED". *)
Definition amendmentText (b : Bill) : option string := firstAmendment (summary b).

End Prompt.

(** ** Synthetic districts ([synthetic.ts]) *)

Module Synthetic.

Section Synthetic.

Variable boxMuller : Q -> Q -> Q.

(** The first loop over [Object.keys(w)]: each weight is jittered and floored
    at 0.01, [sum] adds them up.  The weights are the entries of the object in
    key order. *)
Fixpoint jitterWeights (jitter : Q) (ws : list (string * Q)) (sum : Q)
  (rng : Rng.Random) : Result (list (string * Q) * Q * Rng.Random) :=
  match ws with
  | [] => Ok ([], sum, rng)
  | (k, x) :: ws' =>
      match Rng.gauss boxMuller 0 (jitter * (8 # 100)) rng with
      | Throw e => Throw e
      | Ok (g, rng1) =>
          let x' := Qmax (1 # 100) (x + g) in
          match jitterWeights jitter ws' (sum + x') rng1 with
          | Throw e => Throw e
          | Ok (out, total, rng2) => Ok ((k, x') :: out, total, rng2)
          end
      end
  end.

(** The second loop: [w[k] / (sum || 1.0)]. *)
Definition normalise (ws : list (string * Q)) (sum : Q) : list (string * Q) :=
  map (fun kv => (fst kv, (snd kv / (if Qeq_bool sum 0 then 1 else sum))%Q)) ws.

(** [for (let i = 0; i < multiplier; i++)] for one base district: [k]
    iterations are left. *)
Fixpoint subLoop (d : District) (subPop jitter : Q) (k i : nat) (rng : Rng.Random)
  : Result (list District * Rng.Random) :=
  match k with
  | O => Ok ([], rng)
  | S k' =>
      match Rng.gauss boxMuller 0 (jitter * (35 # 100)) rng with
      | Throw e => Throw e
      | Ok (g, rng1) =>
          let lean' := clamp (lean d + g) in
          match jitterWeights jitter (weights d) 0 rng1 with
          | Throw e => Throw e
          | Ok (w, sum, rng2) =>
              match subLoop d subPop jitter k' (S i) rng2 with
              | Throw e => Throw e
              | Ok (out, rng3) =>
                  Ok (mkDistrict
                        (district_id d ++ ".s" ++ natToString (i + 1))
                        (name d ++ " (sub " ++ natToString (i + 1) ++ ")")
                        lean' subPop (normalise w sum) :: out, rng3)
              end
          end
      end
  end.

(** [for (const d of base)] *)
Fixpoint baseLoop (base : list District) (multiplier : nat) (jitter : Q)
  (rng : Rng.Random) : Result (list District) :=
  match base with
  | [] => Ok []
  | d :: base' =>
      let subPop :=
        Qmax 1 (inject_Z (Qfloor (population d / inject_Z (Z.of_nat multiplier)))) in
      match subLoop d subPop jitter multiplier 0 rng with
      | Throw e => Throw e
      | Ok (subs, rng1) =>
          match baseLoop base' multiplier jitter rng1 with
          | Throw e => Throw e
          | Ok out => Ok (subs ++ out)
          end
      end
  end.

(** [splitDistricts(base, multiplier, jitter, seed)] for a whole number
    [multiplier]; [now] is [Date.now()], read by [new Random(seed)]. *)
Definition splitDistricts (base : list District) (multiplier : nat) (jitter : Q)
  (seed : option Z) (now : Z) : Result (list District) :=
  if multiplier <=? 1 then Ok base
  else baseLoop base multiplier jitter (Rng.create seed now).

End Synthetic.

End Synthetic.

(** ** The active districts ([state.ts]) *)

Module State.

(** [DistrictSummary]; [meta] is stored and read by no function embedded here. *)
Record DistrictSummary : Type := mkSummary {
  source : string;
  count : nat;
  sample : list District
}.

(** The two module variables. *)
Record AppState : Type := mkState {
  activeDistricts : list District;
  activeSummary : DistrictSummary
}.

Definition initial : AppState := mkState [] (mkSummary "none" 0 []).

Definition getActiveDistricts (st : AppState) : list District := activeDistricts st.

Definition getActiveSummary (st : AppState) : DistrictSummary := activeSummary st.

Definition setActiveDistricts (districts : list District) (src : string)
  (st : AppState) : AppState :=
  mkState districts (mkSummary src (List.length districts) (slice districts 0 5)).

Definition loadMockDistricts : list District :=
  [ mkDistrict "mock-1" "Mock District 1 (Left)" (6 # 10) 750000
      [("economy", 2 # 10); ("climate", 3 # 10); ("healthcare", 3 # 10);
       ("immigration", 1 # 10); ("education", 1 # 10)];
    mkDistrict "mock-2" "Mock District 2 (Right)" (- (6 # 10)) 750000
      [("economy", 4 # 10); ("climate", 1 # 10); ("healthcare", 1 # 10);
       ("immigration", 3 # 10); ("education", 1 # 10)];
    mkDistrict "mock-3" "Mock District 3 (Center)" (5 # 100) 750000
      [("economy", 5 # 10); ("climate", 1 # 10); ("healthcare", 1 # 10);
       ("immigration", 1 # 10); ("education", 2 # 10)] ].

(** What [setActiveDistricts] establishes between the two variables. *)
Definition consistent (st : AppState) : Prop :=
  count (activeSummary st) = List.length (activeDistricts st) /\
  sample (activeSummary st) = firstn 5 (activeDistricts st).

End State.

(** ** The API facade ([api.ts]) *)

Module Api.

Record SimRequest : Type := mkRequest {
  req_bill : Bill;
  num_members : nat;
  req_rounds : nat;
  use_llm : bool;
  llm_model : string;
  req_seed : option Z
}.

Record SimResponse : Type := mkResponse {
  resp_members : nat;
  resp_bill : Bill;
  resp_rounds : list Engine.Round;
  resp_final_passed : bool;
  resp_notes : list string
}.

Record MakeSyntheticRequest : Type := mkSynthetic {
  multiplier : nat;
  jitter : Q;
  synth_seed : option Z
}.

(** [req.seed || null]: 0 is falsy. *)
Definition seedOrNull (s : option Z) : option Z :=
  match s with
  | Some 0%Z => None
  | _ => s
  end.

Section Api.

Variable boxMuller : Q -> Q -> Q.
Variable JSON_parse : string -> option JsVal.

Definition simulate (fuel : nat) (st : State.AppState) (req : SimRequest)
  : M SimResponse :=
  let districts := State.getActiveDistricts st in
  if List.length districts =? 0 then
    throw (Error "No active districts loaded. Please Load Districts first.")
  else
    result <- Engine.runSimulation boxMuller JSON_parse fuel districts
                (num_members req) (req_rounds req) (req_bill req) (use_llm req)
                (llm_model req) (seedOrNull (req_seed req)) ;;
    let notes :=
      [ if use_llm req
        then "Debate & Votes: AI Agents debating and voting based on bill text."
        else "Debate & Votes: Template fallback (fast mode).";
        "Detailed logs available in console.";
        "Ran entirely in your browser!" ] in
    ret (mkResponse (Engine.members result) (req_bill req) (Engine.rounds result)
           (Engine.final_passed result) notes).

Definition getDistrictSummary (st : State.AppState) : State.DistrictSummary :=
  State.getActiveSummary st.

Definition useMockDistricts (st : State.AppState)
  : State.DistrictSummary * State.AppState :=
  let st' := State.setActiveDistricts State.loadMockDistricts "mock" st in
  (State.getActiveSummary st', st').

(** [makeSyntheticDistricts]: the summary returned and the state left; a
    throw leaves the state as it was.  [now] is [Date.now()]. *)
Definition makeSyntheticDistricts (st : State.AppState) (req : MakeSyntheticRequest)
  (now : Z) : Result (State.DistrictSummary * State.AppState) :=
  let base := State.getActiveDistricts st in
  if List.length base =? 0 then Throw (Error "No active districts to split from.")
  else
    match Synthetic.splitDistricts boxMuller base (multiplier req) (jitter req)
            (synth_seed req) now with
    | Throw e => Throw e
    | Ok synthetic =>
        let st' := State.setActiveDistricts synthetic "synthetic" st in
        Ok (State.getActiveSummary st', st')
    end.

End Api.

End Api.

(** ** The later revision of the browser orchestrator

    A second revision of [simulation.ts] votes member by member instead of in
    batches of ten, draws the stance of a speaker without the engine at random
    and cleans the speeches up.  [sampleMembers], [generateAmendment], the
    engine's initialisation, the choice of the speakers and the reconciliation
    of the tally are unchanged and shared with [Client]. *)

Module ClientRev.

(** [SimOptions] with its new field [parallelLimit]. *)
Record SimOptions : Type := mkOptions {
  base : Client.SimOptions;
  parallelLimit : option nat
}.

(** *** [batchVote] *)

(** The vote read off one reply, already in lower case. *)
Definition classify (txt : string) : Ballot :=
  if includes "yes" txt || includes "aye" txt || includes "support" txt then yes
  else if includes "no" txt || includes "nay" txt || includes "oppose" txt then no
  else abstain.

(** The promise of one member: the call inside its [try]. *)
Definition memberVote (m : Member) : M (string * Ballot) :=
  catch
    (c <- createCompletion ;;
     let txt := match c with Some x => toLowerCase x | None => EmptyString end in
     ret (member_id m, classify txt))
    (fun _ => ret (member_id m, abstain)).

(** [await Promise.all(chunk.map(...))]: promise [idx] waits [idx * 50] ms
    before it calls the engine, so the calls are issued in chunk order; each
    promise reads only its own reply, and the results come back in chunk
    order. *)
Fixpoint chunkVotes (chunk : list Member) : M (list (string * Ballot)) :=
  match chunk with
  | [] => ret []
  | m :: rest =>
      r <- memberVote m ;;
      rs <- chunkVotes rest ;;
      ret (r :: rs)
  end.

(** [for (let i = 0; i < members.length; i += PARALLEL_LIMIT)]: [k]
    iterations are left. *)
Fixpoint batchLoop (limit : nat) (ms : list Member) (k i : nat)
  (results : Client.RollCall) : M Client.RollCall :=
  match k with
  | O => ret results
  | S k' =>
      rs <- chunkVotes (slice ms i (i + limit)) ;;
      batchLoop limit ms k' (i + limit) (Client.recordMatches rs results)
  end.

(** [batchVote] for a whole number [parallelLimit].  With a limit of 0 and at
    least one member the loop variable never advances and the loop never
    ends; the only caller passes [opts.parallelLimit || 5]. *)
Definition batchVote (b : Bill) (ms : list Member) (limit : nat) : M Client.RollCall :=
  match limit with
  | O => match ms with
         | [] => ret []
         | _ :: _ => throw OutOfFuel
         end
  | S _ => batchLoop limit ms ((List.length ms + (limit - 1)) / limit) 0 []
  end.

(** [opts.parallelLimit || 5] *)
Definition effectiveLimit (p : option nat) : nat :=
  match p with
  | Some (S n) => S n
  | _ => 5
  end.

(** *** The clean-up of a speech *)

(** One attempt of [/Here is the dialogue:|I cannot fulfill|M-\d+/i] at the
    start of [s]: the length of the match.  The three alternatives start with
    different letters, so at most one applies. *)
Definition boilerplateAt (s : string) : option nat :=
  if Client.prefixCI "HERE IS THE DIALOGUE:" s then Some 21
  else if Client.prefixCI "I CANNOT FULFILL" s then Some 16
  else
    match s with
    | String m (String dash r) =>
        if (Ascii.eqb (upperAscii m) "M"%char && Ascii.eqb dash "-"%char)%bool then
          let ds := takeWhile isDigit r in
          if String.length ds =? 0 then None else Some (2 + String.length ds)
        else None
    | _ => None
    end.

(** [raw.replace(/.../gi, "")]: [skip] counts the characters of a match that
    remain to be dropped. *)
Fixpoint removeBoilerplate (skip : nat) (s : string) : string :=
  match s with
  | EmptyString => EmptyString
  | String c r =>
      match skip with
      | S k => removeBoilerplate k r
      | O =>
          match boilerplateAt s with
          | Some n => removeBoilerplate (n - 1) r
          | None => String c (removeBoilerplate 0 r)
          end
      end
  end.

(** The double quote. *)
Definition dquoteChar : ascii := ascii_of_nat 34.

(** [raw.replace(/c/g, "")] for one character [c]. *)
Fixpoint removeChar (c : ascii) (s : string) : string :=
  match s with
  | EmptyString => EmptyString
  | String x r => if Ascii.eqb x c then removeChar c r else String x (removeChar c r)
  end.

Definition notDot (c : ascii) : bool := negb (Ascii.eqb c "."%char).

(** [if (raw.indexOf(".") > -1) raw = raw.split(".")[0] + "."] *)
Definition cutAtDot (raw : string) : string :=
  if includes "." raw then (takeWhile notDot raw ++ ".")%string else raw.

(** [raw.charAt(0).toLowerCase() + raw.slice(1)] on ASCII text: a first
    character outside ASCII, several bytes here, is left as it is, where the
    code maps it to lower case too. *)
Definition lowerFirst (raw : string) : string :=
  match raw with
  | EmptyString => EmptyString
  | String c r => String (lowerAscii c) r
  end.

Definition speechPrefix (st : Stance) : string :=
  match st with
  | support => "Mr. Speaker, I support this because"
  | _ => "Mr. Speaker, I oppose this because"
  end.

(** The post-processing of the engine's reply [content] into the speech.  On
    an ASCII reply this is the text the code produces.  On other replies the
    code differs in three places: [trim()] also strips white space outside
    ASCII, the first character is put in lower case whatever it is, and
    [slice(0, 300)] counts UTF-16 units where [substring 0 300] counts
    bytes. *)
Definition cleanSpeech (st : Stance) (content : option string) : string :=
  let raw0 := orElse content EmptyString in
  let raw1 := trim (removeChar dquoteChar (removeBoilerplate 0 raw0)) in
  let raw2 := cutAtDot raw1 in
  let raw3 :=
    if negb (startsWith "mr. speaker" (toLowerCase raw2))
    then (speechPrefix st ++ " " ++ lowerFirst raw2)%string
    else raw2 in
  substring 0 300 raw3.

(** *** [runSimulationClient] *)

(** The body of [for (const s of speakers)]. *)
Definition speak (llm : bool) (b : Bill) (r : nat) (sps : list Speech)
  (speaker : option Member) : M (list Speech) :=
  match speaker with
  | None => throw TypeError
  | Some s =>
      if llm then
        c <- createCompletion ;;
        let t := match c with Some x => toLowerCase x | None => EmptyString end in
        let st := if includes "yes" t then support
                  else if includes "no" t then oppose else amend in
        c2 <- createCompletion ;;
        ret (sps ++ [mkSpeech (member_id s) st (cleanSpeech st c2) []])
      else
        let prob := ((ideology s + 1) / 2)%Q in
        u <- random ;;
        let st := if Qltb u prob then support else oppose in
        ret (sps ++ [mkSpeech (member_id s) st "I have no brain (LLM disabled)." []])
  end.

Definition castVotes (llm : bool) (o : SimOptions) (b : Bill) (ms : list Member)
  (sps : list Speech) : M Client.Vote :=
  if llm then
    votes <- batchVote b ms (effectiveLimit (parallelLimit o)) ;;
    let '(y, n, a) := Client.countVotes votes in
    let '(y', n', a', votes') :=
      fold_left Client.forceConsistency sps (y, n, a, votes) in
    ret (Client.mkVote y' n' a' (Client.majority y' n') (1 # 2) votes')
  else
    ret (Client.mkVote (Z.of_nat (Client.numMembers (base o) / 2))
           (Z.of_nat (Client.numMembers (base o) / 2)) 0 false (1 # 2) []).

Fixpoint roundLoop (llm : bool) (o : SimOptions) (ms : list Member) (k r : nat)
  (currentBill : Bill) (allRounds : list Client.Round) (ns : list string)
  : M (list Client.Round * list string) :=
  match k with
  | O => ret (allRounds, ns)
  | S k' =>
      sps <- foldM (speak llm currentBill r) (Client.pickSpeakers ms) [] ;;
      voteRes <- castVotes llm o currentBill ms sps ;;
      if Client.passed voteRes then
        ret (allRounds ++ [Client.mkRound r sps voteRes None],
             ns ++ [("Passed in round " ++ natToString (r + 1) ++ ".")%string])
      else if (S r <? Client.optRounds (base o)) then
        if llm then
          amendText <- Client.generateAmendment currentBill sps true ;;
          roundLoop llm o ms k' (S r) (Client.amendSummary currentBill r amendText)
            (allRounds ++ [Client.mkRound r sps voteRes (Some amendText)])
            (ns ++ [("Amendment Proposed: " ++ amendText)%string])
        else
          roundLoop llm o ms k' (S r) currentBill
            (allRounds ++ [Client.mkRound r sps voteRes None]) ns
      else
        roundLoop llm o ms k' (S r) currentBill
          (allRounds ++ [Client.mkRound r sps voteRes None]) ns
  end.

Definition runSimulationClient (o : SimOptions) : M Client.SimResult :=
  _ <- Client.initEngine (base o) ;;
  match Client.sample (base o) with
  | [] => throw (Error "No districts")
  | d0 :: _ =>
      let filledDistricts :=
        map (fun i => nth (i mod List.length (Client.sample (base o)))
                        (Client.sample (base o)) d0)
          (seq 0 (Client.numMembers (base o))) in
      ms <- Client.sampleMembers filledDistricts (Client.numMembers (base o))
              (Client.optSeed (base o)) ;;
      llm <- Client.engineReady (base o) ;;
      '(allRounds, ns) <- roundLoop llm o ms (Client.optRounds (base o)) 0
                            (Client.bill (base o)) [] [] ;;
      let final :=
        match js_index allRounds (Z.of_nat (List.length allRounds) - 1) with
        | Some rd => Client.passed (Client.roundVote rd)
        | None => false
        end in
      ret (Client.mkResult ms allRounds final ns)
  end.

End ClientRev.

(** ** Notions used to state the properties of the later revision *)

(** The world after [k] further calls of the inference engine and nothing
    else. *)
Definition advanceCompletion (k : nat) (w : World) : World :=
  mkWorld (mathRandom w) (randomCalls w) (fetched w) (fetchCalls w)
          (completion w) (completionCalls w + k) (dateNow w) (reloadFails w)
          (loadedEngine w).

(** The vote [batchVote] records for one member, from the reply to its call. *)
Definition replyVote (r : Reply) : Ballot :=
  match r with
  | CreateFails => abstain
  | Content c =>
      ClientRev.classify (match c with Some x => toLowerCase x | None => EmptyString end)
  end.

(** The roll call of a population whose calls are answered by the replies
    numbered from [from]. *)
Fixpoint rollCallOf (w : World) (from : nat) (ms : list Member) : Client.RollCall :=
  match ms with
  | [] => []
  | m :: ms' =>
      (member_id m, replyVote (completion w from)) :: rollCallOf w (S from) ms'
  end.

(** The configuration of [tieRun] for the later revision, with the default
    limit. *)
Definition revTieRun : ClientRev.SimOptions := ClientRev.mkOptions tieRun None.



(** Text of ASCII characters only: one byte, one UTF-16 unit and one character
    each. *)
Fixpoint asciiOnly (s : string) : bool :=
  match s with
  | EmptyString => true
  | String c r => (nat_of_ascii c <? 128) && asciiOnly r
  end.
(** ** Properties of the random source *)

Section RngFacts.

Import Rng.

(** After a draw that returned 0 the state is 0, and the next state is the
    increment of the recurrence: the redraw loop of [gauss] runs at most twice. *)
Lemma next_zero_state g :
  Qeq_bool (fst (next g)) 0 = true -> seed (snd (next g)) = 0%Z.
Proof.
  unfold next; simpl. intro H. apply Qeq_bool_iff in H.
  unfold Qeq in H; simpl in H. lia.
Qed.

Lemma redraw_total g : exists u g', redraw 2 g = Some (u, g') /\ Qeq_bool u 0 = false.
Proof.
  simpl. destruct (Qeq_bool (fst (next g)) 0) eqn:E.
  - pose proof (next_zero_state g E) as Z0.
    unfold next in *; simpl in *. rewrite E. rewrite Z0. simpl.
    eexists; eexists; split; reflexivity.
  - unfold next in *; simpl in *. rewrite E.
    eexists; eexists; split; [reflexivity|exact E].
Qed.

Lemma gauss_total bm mu sigma g : exists x g', gauss bm mu sigma g = Ok (x, g').
Proof.
  unfold gauss.
  destruct (redraw_total g) as (u & g1 & -> & _).
  destruct (redraw_total g1) as (v & g2 & -> & _).
  eexists; eexists; reflexivity.
Qed.

Lemma Qsum_from_nonneg (ws : list Q) (a : Q) :
  (0 <= a)%Q -> (forall w, In w ws -> (0 <= w)%Q) ->
  (a <= fold_left Qplus ws a)%Q.
Proof.
  revert a. induction ws as [|w ws IH]; intros a Ha Hw; simpl.
  - apply Qle_refl.
  - assert (0 <= w)%Q as W by (apply Hw; left; reflexivity).
    apply Qle_trans with (a + w)%Q.
    + rewrite <- (Qplus_0_r a) at 1. apply Qplus_le_r. exact W.
    + apply IH.
      * rewrite <- (Qplus_0_r 0). apply Qplus_le_compat; assumption.
      * intros w' I. apply Hw. right. exact I.
Qed.

(** Non-negative weights that add up to zero are all zero, and so is every
    running sum. *)
Lemma scan_all_zero {T} (items : list T) :
  forall (ws : list Q) (r s : Q),
    (r == 0)%Q -> (s == 0)%Q ->
    (forall w, In w ws -> (0 <= w)%Q) ->
    (fold_left Qplus ws s == 0)%Q ->
    scan r (Some s) items ws = None.
Proof.
  induction items as [|x items IH]; intros ws r s Hr Hs Hw Hsum; simpl; [reflexivity|].
  destruct ws as [|w ws]; simpl.
  - clear. induction items as [|y items IH']; simpl; [reflexivity|exact IH'].
  - simpl in Hsum.
    assert (0 <= w)%Q as W by (apply Hw; left; reflexivity).
    assert (0 <= s + w)%Q as SW.
    { rewrite Hs. rewrite Qplus_0_l. exact W. }
    assert (s + w == 0)%Q as Z0.
    { apply Qle_antisym; [|exact SW].
      rewrite <- Hsum. apply Qsum_from_nonneg; [exact SW|].
      intros w' I. apply Hw. right. exact I. }
    rewrite (Qltb_irrefl_eq (x:=r) (y:=(s + w)%Q)).
    + apply IH; try assumption. intros w' I. apply Hw. right. exact I.
    + rewrite Hr, Z0. reflexivity.
Qed.

Lemma js_index_last {T} (x : T) (l : list T) (d : T) :
  js_index (x :: l) (Z.of_nat (List.length (x :: l)) - 1) = Some (last (x :: l) d).
Proof.
  unfold js_index.
  replace (Z.of_nat (List.length (x :: l)) - 1)%Z with (Z.of_nat (List.length l))
    by (simpl List.length; lia).
  destruct (Z.of_nat (List.length l) <? 0)%Z eqn:E; [apply Z.ltb_lt in E; lia|].
  rewrite Nat2Z.id. clear E. revert x.
  induction l as [|y l IH]; intro x; [reflexivity|].
  simpl List.length. simpl nth_error. rewrite IH. reflexivity.
Qed.

End RngFacts.

(** ** C6: the weighted choice *)

(** C6 (as stated, refuted): weights that add up to zero do not force the last
    item.  With items [a; b] and weights [1; -1] the total is 0, the threshold
    [r] is 0, and the first running sum 1 already exceeds it: [choice] returns
    the first item. *)
Lemma choice_zero_total_returns_first :
  (Qsum [1; -1] == 0)%Q /\
  Rng.choice ["a"; "b"] (Some [1; -1]%Q) (Rng.mkRandom 42)
    = Ok (Some "a", snd (Rng.next (Rng.mkRandom 42))) /\
  last ["a"; "b"] EmptyString = "b".
Proof. split; [reflexivity|]. split; reflexivity. Qed.

(** C6 (amended): [choice] throws [Error("Empty items")] on an empty array;
    without weights it returns [items[floor(next() * items.length)]]; and when
    the weights are non-negative and add up to zero it returns the last item. *)
Theorem choice_contract {T} (items : list T) (g : Rng.Random) (d : T) :
  (items = [] -> forall weights,
     Rng.choice items weights g = Throw (Error "Empty items")) /\
  (items <> [] ->
     Rng.choice items None g
     = Ok (js_index items
             (Qfloor (fst (Rng.next g) * inject_Z (Z.of_nat (List.length items)))),
           snd (Rng.next g))) /\
  (items <> [] -> forall ws,
     (forall w, In w ws -> (0 <= w)%Q) -> (Qsum ws == 0)%Q ->
     Rng.choice items (Some ws) g = Ok (Some (last items d), snd (Rng.next g))).
Proof.
  split; [|split].
  - intros -> weights. reflexivity.
  - intro NE. destruct items as [|x l]; [congruence|]. reflexivity.
  - intros NE ws Hw Hsum. destruct items as [|x l]; [congruence|].
    unfold Rng.choice. cbv zeta.
    change (Rng.next g) with
      (Z.rem (Rng.seed g * 1664525 + 1013904223) 4294967296 # 4294967296,
       Rng.mkRandom (Z.rem (Rng.seed g * 1664525 + 1013904223) 4294967296)).
    cbv iota beta.
    rewrite (@scan_all_zero T (x :: l) ws).
    + rewrite (js_index_last x l d). reflexivity.
    + unfold Qsum in Hsum. rewrite Hsum. apply Qmult_0_r.
    + reflexivity.
    + exact Hw.
    + exact Hsum.
Qed.

Lemma choice_contract_witness :
  Rng.choice (@nil string) None (Rng.mkRandom 7) = Throw (Error "Empty items") /\
  Rng.choice ["a"; "b"; "c"] None (Rng.mkRandom 7)
    = Ok (js_index ["a"; "b"; "c"]
            (Qfloor (fst (Rng.next (Rng.mkRandom 7)) * inject_Z 3)),
          snd (Rng.next (Rng.mkRandom 7))) /\
  Rng.choice ["a"; "b"; "c"] (Some [0; 0; 0]%Q) (Rng.mkRandom 7)
    = Ok (Some "c", snd (Rng.next (Rng.mkRandom 7))).
Proof.
  split; [|split].
  - apply (proj1 (choice_contract (@nil string) (Rng.mkRandom 7) EmptyString)).
    reflexivity.
  - apply (proj1 (proj2 (choice_contract ["a"; "b"; "c"] (Rng.mkRandom 7) EmptyString))).
    discriminate.
  - apply (proj2 (proj2 (choice_contract ["a"; "b"; "c"] (Rng.mkRandom 7) EmptyString))).
    + discriminate.
    + intros w [<-|[<-|[<-|[]]]]; discriminate.
    + reflexivity.
Defined.

(** ** Reasoning about computations *)

Lemma bind_Ok {A B} (m : M A) (k : A -> M B) w b w' :
  bind m k w = (Ok b, w') ->
  exists a w1, m w = (Ok a, w1) /\ k a w1 = (Ok b, w').
Proof.
  unfold bind. destruct (m w) as [[a|e] w1]; intro H.
  - exists a, w1. split; [reflexivity|exact H].
  - discriminate.
Qed.

Lemma bind_step {A B} (m : M A) (k : A -> M B) w a w1 :
  m w = (Ok a, w1) -> bind m k w = k a w1.
Proof. unfold bind. intros ->. reflexivity. Qed.

Lemma bind_throw {A B} (m : M A) (k : A -> M B) w e w1 :
  m w = (Throw e, w1) -> bind m k w = (Throw e, w1).
Proof. unfold bind. intros ->. reflexivity. Qed.

Lemma ret_Ok {A} (a b : A) w w' : ret a w = (Ok b, w') -> a = b /\ w = w'.
Proof. unfold ret. intro H. inversion H. split; reflexivity. Qed.

Lemma lift_Ok {A} (r : Result A) (b : A) w w' :
  lift r w = (Ok b, w') -> r = Ok b /\ w = w'.
Proof. unfold lift. intro H. inversion H. split; reflexivity. Qed.

Lemma throw_Ok {A} e (b : A) w w' : throw e w = (Ok b, w') -> False.
Proof. unfold throw. discriminate. Qed.

Ltac inv_bind H :=
  let a := fresh "a" in
  let w := fresh "w" in
  let H1 := fresh H "a" in
  apply bind_Ok in H; destruct H as (a & w & H1 & H).

Ltac inv_ret H :=
  let E := fresh "E" in
  apply ret_Ok in H; destruct H as [E ?];
  first [ injection E as ? ? | idtac ]; subst.

(** A loop whose body keeps an invariant keeps it. *)
Lemma foldM_invariant {A B} (P : B -> Prop) (f : B -> A -> M B) (xs : list A) :
  (forall acc x w acc' w',
     In x xs -> P acc -> f acc x w = (Ok acc', w') -> P acc') ->
  forall acc w acc' w',
    P acc -> foldM f xs acc w = (Ok acc', w') -> P acc'.
Proof.
  induction xs as [|x xs IH]; intros Hf acc w acc' w' Hacc H; simpl in H.
  - inv_ret H. exact Hacc.
  - inv_bind H. eapply IH; [| |exact H].
    + intros; eapply Hf; eauto. right; assumption.
    + eapply Hf; eauto. left; reflexivity.
Qed.

(** A loop whose body never throws never throws. *)
Lemma foldM_total {A B} (f : B -> A -> M B) (xs : list A) :
  (forall acc x w, In x xs -> exists acc' w', f acc x w = (Ok acc', w')) ->
  forall acc w, exists acc' w', foldM f xs acc w = (Ok acc', w').
Proof.
  induction xs as [|x xs IH]; intros Hf acc w; simpl.
  - eexists; eexists; reflexivity.
  - destruct (Hf acc x w (or_introl eq_refl)) as (acc1 & w1 & E).
    erewrite bind_step by exact E. apply IH.
    intros; apply Hf; right; assumption.
Qed.

(** ** Objects used as maps *)

Lemma lookup_assign_same {V} k (v : V) o : lookup k (assign k v o) = Some v.
Proof.
  induction o as [|[k' v'] o IH]; simpl.
  - rewrite String.eqb_refl. reflexivity.
  - destruct (String.eqb k k') eqn:E; simpl; rewrite E; [reflexivity|exact IH].
Qed.

Lemma lookup_assign_other {V} k k' (v : V) o :
  k <> k' -> lookup k (assign k' v o) = lookup k o.
Proof.
  intro NE. induction o as [|[k0 v0] o IH]; simpl.
  - destruct (String.eqb k k') eqn:E; [apply String.eqb_eq in E; congruence|reflexivity].
  - destruct (String.eqb k' k0) eqn:E0; simpl.
    + apply String.eqb_eq in E0; subst k0.
      destruct (String.eqb k k') eqn:E; [apply String.eqb_eq in E; congruence|reflexivity].
    + destruct (String.eqb k k0); [reflexivity|exact IH].
Qed.

Lemma lookup_In {V} k (o : list (string * V)) :
  In k (map fst o) <-> exists v, lookup k o = Some v.
Proof.
  induction o as [|[k' v'] o IH]; simpl.
  - split; [intros []|intros [v H]; discriminate].
  - destruct (String.eqb k k') eqn:E.
    + apply String.eqb_eq in E; subst. split; [eexists; reflexivity|left; reflexivity].
    + apply String.eqb_neq in E. rewrite <- IH. split.
      * intros [H|H]; [congruence|exact H].
      * intro H; right; exact H.
Qed.

Lemma keys_assign {V} k (v : V) o :
  map fst (assign k v o)
  = if existsb (String.eqb k) (map fst o) then map fst o else map fst o ++ [k].
Proof.
  induction o as [|[k' v'] o IH]; simpl; [reflexivity|].
  destruct (String.eqb k k') eqn:E; simpl; [reflexivity|].
  rewrite IH. destruct (existsb (String.eqb k) (map fst o)); reflexivity.
Qed.

Lemma existsb_eqb_In k (l : list string) : existsb (String.eqb k) l = true <-> In k l.
Proof.
  rewrite existsb_exists. split.
  - intros (x & I & E). apply String.eqb_eq in E. subst. exact I.
  - intro I. exists k. split; [exact I|apply String.eqb_refl].
Qed.

Lemma keys_assign_In {V} k k' (v : V) o :
  In k (map fst (assign k' v o)) <-> k = k' \/ In k (map fst o).
Proof.
  rewrite keys_assign. destruct (existsb (String.eqb k') (map fst o)) eqn:E.
  - apply existsb_eqb_In in E. split; [intro H; right; exact H|].
    intros [->|H]; assumption.
  - rewrite in_app_iff. simpl. split.
    + intros [H|[H|[]]]; [right; exact H|left; symmetry; exact H].
    + intros [->|H]; [right; left; reflexivity|left; exact H].
Qed.

Lemma keys_assign_NoDup {V} k (v : V) o :
  NoDup (map fst o) -> NoDup (map fst (assign k v o)).
Proof.
  intro ND. rewrite keys_assign.
  destruct (existsb (String.eqb k) (map fst o)) eqn:E; [exact ND|].
  assert (~ In k (map fst o)) as NI.
  { intro I. apply existsb_eqb_In in I. congruence. }
  clear E. induction (map fst o) as [|x l IH]; simpl.
  - constructor; [intros []|constructor].
  - inversion ND as [|? ? Hx Hl]; subst. constructor.
    + rewrite in_app_iff. simpl. intros [I|[I|[]]]; [exact (Hx I)|].
      apply NI. left. symmetry; exact I.
    + apply IH; [exact Hl|]. intro I. apply NI. right. exact I.
Qed.

(** ** The decision backend never throws *)

Lemma catch_total {A} (m : M A) (h : Exn -> M A) :
  (forall e w, exists a w', h e w = (Ok a, w')) ->
  forall w, exists a w', catch m h w = (Ok a, w').
Proof.
  intros Hh w. unfold catch. destruct (m w) as [[a|e] w1].
  - eexists; eexists; reflexivity.
  - apply Hh.
Qed.

Lemma decideVote_total jp m b useLlm model w :
  exists d w', Agents.decideVote jp m b useLlm model w = (Ok d, w').
Proof.
  unfold Agents.decideVote. destruct useLlm; simpl.
  - apply catch_total. intros e w0. eexists; eexists; reflexivity.
  - eexists; eexists; reflexivity.
Qed.

(** The three outcomes of the inference-backed call: a failed request gives
    "abstain" with the rationale of the outer [catch], a reply that cannot be
    decoded gives "abstain" with the rationale of the inner one, and a decoded
    reply is returned as it is. *)
Lemma decideVote_outcomes jp m b model w :
  match Agents.requestDecision model w with
  | (Throw _, w1) =>
      Agents.decideVote jp m b true model w
      = (Ok (Agents.mkDecision "abstain" (JStr "Error in decision process.")), w1)
  | (Ok v, w1) =>
      match Agents.parseDecision jp v with
      | Throw _ =>
          Agents.decideVote jp m b true model w
          = (Ok (Agents.mkDecision "abstain" (JStr "Failed to parse reasoning.")), w1)
      | Ok d => Agents.decideVote jp m b true model w = (Ok d, w1)
      end
  end.
Proof.
  unfold Agents.decideVote, catch, bind, lift, ret. cbn [negb].
  destruct (Agents.requestDecision model w) as [[v|e] w1]; [|reflexivity].
  destruct (Agents.parseDecision jp v); reflexivity.
Qed.

Lemma generateSpeech_total m s b useLlm model w :
  exists t w', Debate.generateSpeech m s b useLlm model w = (Ok t, w').
Proof.
  unfold Debate.generateSpeech. destruct useLlm; simpl.
  - destruct (Agents.isLocalModel model).
    + unfold bind, fetch. destruct (fetched w (fetchCalls w)) as [|[|] [data|]];
        try (eexists; eexists; reflexivity).
      destruct (Debate.responseText data); eexists; eexists; reflexivity.
    + eexists; eexists; reflexivity.
  - eexists; eexists; reflexivity.
Qed.

(** ** The engine's tally *)

Lemma tallyStep_counts jp bill useLlm model y n a m w y' n' a' w' :
  Engine.tallyStep jp bill useLlm model (y, n, a) m w = (Ok (y', n', a'), w') ->
  (y' + n' + a' = y + n + a + 1 /\ y <= y' /\ n <= n' /\ a <= a')%Z.
Proof.
  unfold Engine.tallyStep. intro H. inv_bind H.
  destruct (String.eqb (Agents.vote a0) "yes");
    [|destruct (String.eqb (Agents.vote a0) "no")];
    apply ret_Ok in H; destruct H as [H _]; inversion H; subst; lia.
Qed.

Lemma tallyStep_total jp bill useLlm model acc m w :
  exists acc' w', Engine.tallyStep jp bill useLlm model acc m w = (Ok acc', w').
Proof.
  destruct acc as [[y n] a]. unfold Engine.tallyStep.
  destruct (decideVote_total jp m bill useLlm model w) as (d & w1 & E).
  erewrite bind_step by exact E.
  destruct (String.eqb (Agents.vote d) "yes");
    [|destruct (String.eqb (Agents.vote d) "no")]; eexists; eexists; reflexivity.
Qed.

Lemma tally_counts jp bill useLlm model ms :
  forall y n a w y' n' a' w',
    foldM (Engine.tallyStep jp bill useLlm model) ms (y, n, a) w = (Ok (y', n', a'), w') ->
    (y' + n' + a' = y + n + a + Z.of_nat (List.length ms)
     /\ y <= y' /\ n <= n' /\ a <= a')%Z.
Proof.
  induction ms as [|m ms IH]; intros y n a w y' n' a' w' H; simpl in H.
  - apply ret_Ok in H. destruct H as [H _]. inversion H; subst. simpl. lia.
  - inv_bind H. destruct a0 as [[y1 n1] a1].
    apply tallyStep_counts in Ha. apply IH in H.
    simpl List.length. lia.
Qed.

Lemma asyncVote_spec jp ms bill useLlm model thr w v w' :
  Engine.asyncVote jp ms bill useLlm model thr w = (Ok v, w') ->
  (Engine.v_yes v + Engine.v_no v + Engine.v_abstain v
   = Z.of_nat (List.length ms))%Z /\
  (0 <= Engine.v_yes v)%Z /\ (0 <= Engine.v_no v)%Z /\
  Engine.passed v = Engine.tallyPassed (Engine.v_yes v) (Engine.v_no v) thr /\
  Engine.threshold v = thr.
Proof.
  unfold Engine.asyncVote. intro H. inv_bind H. destruct a as [[y n] a].
  apply ret_Ok in H. destruct H as [H _]. subst v. simpl.
  apply tally_counts in Ha. repeat split; try lia; reflexivity.
Qed.

Lemma asyncVote_total jp ms bill useLlm model thr w :
  exists v w', Engine.asyncVote jp ms bill useLlm model thr w = (Ok v, w').
Proof.
  unfold Engine.asyncVote.
  destruct (foldM_total (Engine.tallyStep jp bill useLlm model) ms
              (fun acc x w0 _ => tallyStep_total jp bill useLlm model acc x w0)
              (0, 0, 0)%Z w)
    as ([[y n] a] & w1 & E).
  erewrite bind_step by exact E. eexists; eexists; reflexivity.
Qed.

(** The formula of the engine's tally, read in the rationals. *)
Lemma tallyPassed_iff y n thr :
  Engine.tallyPassed y n thr = true <->
  (thr <= inject_Z y / Qmax 1 (inject_Z (y + n)))%Q.
Proof. unfold Engine.tallyPassed, Qgeb. apply Qle_bool_iff. Qed.

Lemma Qmax_one_pos x : (0 < Qmax 1 x)%Q.
Proof.
  unfold Qmax. destruct (Qle_bool 1 x) eqn:E.
  - apply Qle_bool_iff in E. apply Qlt_le_trans with 1%Q; [reflexivity|exact E].
  - reflexivity.
Qed.

Lemma tallyPassed_tie y :
  (0 < y)%Z -> Engine.tallyPassed y y (1 # 2) = true.
Proof.
  intro Hy. apply tallyPassed_iff.
  apply Qle_shift_div_l; [apply Qmax_one_pos|].
  unfold Qmax. destruct (Qle_bool 1 (inject_Z (y + y))) eqn:E.
  - unfold Qle, Qmult, inject_Z. cbn [Qnum Qden]. lia.
  - exfalso. assert (Qle_bool 1 (inject_Z (y + y)) = true) as T.
    { apply Qle_bool_iff. unfold Qle, inject_Z. cbn [Qnum Qden]. lia. }
    congruence.
Qed.

(** ** The engine's rounds *)

Lemma engine_sampleLoop_length bm ds probs k :
  forall i rng ms,
    Engine.sampleLoop bm ds probs k i rng = Ok ms -> List.length ms = k.
Proof.
  induction k as [|k IH]; intros i rng ms H; simpl in H.
  - inversion H. reflexivity.
  - destruct (Rng.choice ds (Some probs) rng) as [[[d|] rng1]|e]; try discriminate.
    destruct (Rng.gauss bm (lean d) (35 # 100) rng1) as [[x rng2]|e]; try discriminate.
    destruct (Engine.sampleLoop bm ds probs k (S i) rng2) as [ms'|e] eqn:E; try discriminate.
    inversion H; subst. simpl. f_equal. eapply IH. exact E.
Qed.

(** The loop of [runSimulation] leaves after its first iteration. *)
Lemma engine_roundLoop_inv jp fuel ms bill useLlm model k r acc w rs w' :
  Engine.roundLoop jp fuel ms bill useLlm model k r acc w = (Ok rs, w') ->
  (k = 0 /\ rs = acc) \/
  (0 < k /\ exists sps v w1 w2,
      Engine.asyncVote jp ms bill useLlm model (1 # 2) w1 = (Ok v, w2) /\
      rs = acc ++ [Engine.mkRound r sps v]).
Proof.
  destruct k as [|k]; simpl; intro H.
  - inv_ret H. left. split; reflexivity.
  - right. split; [lia|].
    inv_bind H. inv_bind H. inv_bind H.
    exists a0, a1, w1, w2. split; [exact Ha1|].
    destruct (Engine.passed a1); simpl in H; inv_ret H; reflexivity.
Qed.

(** ** Member identifiers are distinct *)

Lemma decimal_value_natToString n :
  option_map Nat.of_uint (NilEmpty.uint_of_string (natToString n)) = Some n.
Proof.
  unfold natToString, NilZero.string_of_uint.
  destruct (Nat.to_uint n) eqn:E;
    try (rewrite <- E, NilEmpty.usu; simpl; rewrite DecimalNat.Unsigned.of_to; reflexivity).
  simpl. f_equal. rewrite <- (DecimalNat.Unsigned.of_to n), E. reflexivity.
Qed.

Lemma decimal_value_padding k s :
  option_map Nat.of_uint (NilEmpty.uint_of_string (repeatChar "0"%char k ++ s))
  = option_map Nat.of_uint (NilEmpty.uint_of_string s).
Proof.
  induction k as [|k IH]; simpl; [reflexivity|].
  rewrite <- IH.
  destruct (NilEmpty.uint_of_string (repeatChar "0"%char k ++ s)); reflexivity.
Qed.

Lemma memberId_inj i j : memberId i = memberId j -> i = j.
Proof.
  unfold memberId, padStart0. simpl. intro H. injection H as H.
  apply (f_equal (fun s => option_map Nat.of_uint (NilEmpty.uint_of_string s))) in H.
  rewrite !decimal_value_padding, !decimal_value_natToString in H.
  injection H as H. lia.
Qed.

Lemma memberIds_NoDup i k : NoDup (map memberId (seq i k)).
Proof.
  revert i. induction k as [|k IH]; intro i; simpl; constructor.
  - rewrite in_map_iff. intros (j & E & I). apply memberId_inj in E.
    apply in_seq in I. lia.
  - apply IH.
Qed.

(** ** Sorting keeps the members *)

Lemma insertByIdeology_length m l :
  List.length (insertByIdeology m l) = S (List.length l).
Proof.
  induction l as [|x l IH]; simpl; [reflexivity|].
  destruct (Qle_bool (ideology m) (ideology x)); simpl; [reflexivity|].
  rewrite IH. reflexivity.
Qed.

Lemma sortByIdeology_length l : List.length (sortByIdeology l) = List.length l.
Proof.
  induction l as [|m l IH]; simpl; [reflexivity|].
  rewrite insertByIdeology_length, IH. reflexivity.
Qed.

Lemma insertByIdeology_In x m l :
  In x (insertByIdeology m l) <-> x = m \/ In x l.
Proof.
  induction l as [|y l IH]; simpl.
  - intuition.
  - destruct (Qle_bool (ideology m) (ideology y)); simpl; [intuition|].
    rewrite IH. intuition.
Qed.

Lemma sortByIdeology_In x l : In x (sortByIdeology l) <-> In x l.
Proof.
  induction l as [|m l IH]; simpl; [reflexivity|].
  rewrite insertByIdeology_In, IH. intuition.
Qed.

(** ** The client's population *)

Lemma client_sampleLoop_ids ds k :
  forall i w ms w',
    Client.sampleLoop ds k i w = (Ok ms, w') ->
    map member_id ms = map memberId (seq i k) /\ loadedEngine w' = loadedEngine w.
Proof.
  induction k as [|k IH]; intros i w ms w' H; simpl in H.
  - inv_ret H. split; reflexivity.
  - destruct (nth_error ds (i mod List.length ds)) as [d|]; [|apply throw_Ok in H; contradiction].
    inv_bind H. inv_bind H. inv_ret H.
    apply IH in Ha0. destruct Ha0 as [Ids L].
    unfold random in Ha. inversion Ha; subst. simpl in *.
    split; [f_equal; exact Ids|exact L].
Qed.

Lemma client_sampleLoop_total ds k :
  ds <> [] -> forall i w, exists ms w', Client.sampleLoop ds k i w = (Ok ms, w').
Proof.
  intro NE. induction k as [|k IH]; intros i w; simpl.
  - eexists; eexists; reflexivity.
  - destruct (nth_error ds (i mod List.length ds)) as [d|] eqn:E.
    + destruct (IH (S i) (snd (random w))) as (ms & w2 & E2).
      erewrite bind_step by reflexivity.
      erewrite bind_step by exact E2. eexists; eexists; reflexivity.
    + exfalso. apply nth_error_None in E.
      assert (List.length ds <> 0) as L by (destruct ds; [congruence|simpl; lia]).
      pose proof (Nat.mod_upper_bound i (List.length ds) L). lia.
Qed.

(** ** The speakers *)

Lemma js_index_nat {T} (l : list T) (i : nat) :
  js_index l (Z.of_nat i) = nth_error l i.
Proof.
  unfold js_index. destruct (Z.of_nat i <? 0)%Z eqn:E.
  - apply Z.ltb_lt in E. lia.
  - rewrite Nat2Z.id. reflexivity.
Qed.

Lemma js_index_In {T} (l : list T) i x : js_index l i = Some x -> In x l.
Proof.
  unfold js_index. destruct (i <? 0)%Z; [discriminate|]. apply nth_error_In.
Qed.

Lemma pickSpeakers_In ms sp m :
  In sp (Client.pickSpeakers ms) -> sp = Some m -> In m ms.
Proof.
  unfold Client.pickSpeakers. cbn [In].
  intros [H|[H|[H|[H|[H|[]]]]]] ->;
    apply sortByIdeology_In;
    first [apply nth_error_In in H; exact H | apply js_index_In in H; exact H].
Qed.

Lemma pickSpeakers_defined ms sp :
  ms <> [] -> In sp (Client.pickSpeakers ms) -> exists m, sp = Some m.
Proof.
  intros NE. unfold Client.pickSpeakers.
  assert (0 < List.length (sortByIdeology ms)) as L.
  { rewrite sortByIdeology_length. destruct ms; [congruence|simpl; lia]. }
  set (sorted := sortByIdeology ms) in *.
  set (len := List.length sorted) in *.
  assert (forall i, i < len -> exists m, nth_error sorted i = Some m) as N.
  { intros i Hi. destruct (nth_error sorted i) eqn:E; [eexists; reflexivity|].
    apply nth_error_None in E. unfold len in Hi. lia. }
  cbn [In]. intros [H|[H|[H|[H|[H|[]]]]]]; subst sp.
  - apply N. lia.
  - apply N. apply Nat.Div0.div_lt_upper_bound; lia.
  - apply N. apply Nat.Div0.div_lt_upper_bound; lia.
  - apply N. apply Nat.Div0.div_lt_upper_bound; lia.
  - replace (Z.of_nat len - 1)%Z with (Z.of_nat (len - 1)) by lia.
    rewrite js_index_nat. apply N. lia.
Qed.

Lemma speak_inv llm b r sps sp w sps' w' :
  Client.speak llm b r sps sp w = (Ok sps', w') ->
  exists m s, sp = Some m /\ sps' = sps ++ [s] /\ sp_member_id s = member_id m /\
              loadedEngine w' = loadedEngine w.
Proof.
  unfold Client.speak. destruct sp as [m|]; [|intro H; apply throw_Ok in H; contradiction].
  destruct llm.
  - intro H. inv_bind H. inv_bind H. inv_ret H.
    exists m. eexists. repeat split.
    unfold createCompletion in Ha, Ha0.
    destruct (completion w (completionCalls w)); [discriminate|].
    inversion Ha; subst. simpl in Ha0.
    match type of Ha0 with context [match ?c with _ => _ end] => destruct c end;
      [discriminate|]. inversion Ha0; subst. reflexivity.
  - intro H. inv_ret H. exists m. eexists. repeat split.
Qed.

Lemma speak_heuristic_total b r sps m w :
  exists sps', Client.speak false b r sps (Some m) w = (Ok sps', w).
Proof. unfold Client.speak. eexists. reflexivity. Qed.

(** The speeches of a round are given by members, and the loop over the
    speakers leaves the loaded engine alone. *)
Lemma speeches_by_members llm b r ms w sps w' :
  foldM (Client.speak llm b r) (Client.pickSpeakers ms) [] w = (Ok sps, w') ->
  Forall (fun s => In (sp_member_id s) (map member_id ms)) sps.
Proof.
  apply (foldM_invariant
           (fun acc => Forall (fun s => In (sp_member_id s) (map member_id ms)) acc)).
  - intros acc x w0 acc' w0' I P H.
    apply speak_inv in H. destruct H as (m & s & -> & -> & Id & _).
    apply Forall_app. split; [exact P|]. constructor; [|constructor].
    rewrite Id. apply in_map. eapply pickSpeakers_In; [exact I|reflexivity].
  - constructor.
Qed.

(** ** The engine completes on a small population *)

Lemma weighted_choice_defined {T} (items : list T) ws g :
  items <> [] -> exists x g', Rng.choice items (Some ws) g = Ok (Some x, g').
Proof.
  intro NE. destruct items as [|x0 l]; [congruence|].
  unfold Rng.choice. cbv zeta.
  destruct (Rng.next g) as [u g'].
  destruct (Rng.scan (u * Qsum ws) (Some 0%Q) (x0 :: l) ws) as [x|].
  - eexists; eexists; reflexivity.
  - rewrite (js_index_last x0 l x0). eexists; eexists; reflexivity.
Qed.

Lemma engine_sampleLoop_total bm ds probs k :
  ds <> [] -> forall i rng, exists ms, Engine.sampleLoop bm ds probs k i rng = Ok ms.
Proof.
  intro NE. induction k as [|k IH]; intros i rng; simpl.
  - eexists; reflexivity.
  - destruct (weighted_choice_defined probs rng NE) as (d & rng1 & ->).
    destruct (gauss_total bm (lean d) (35 # 100) rng1) as (x & rng2 & ->).
    destruct (IH (S i) rng2) as (ms & ->). eexists; reflexivity.
Qed.

Lemma engine_speak_total jp b useLlm model acc s w :
  exists acc' w', Engine.speak jp b useLlm model acc s w = (Ok acc', w').
Proof.
  unfold Engine.speak.
  destruct (decideVote_total jp s b useLlm model w) as (d & w1 & E).
  erewrite bind_step by exact E.
  match goal with |- context [Debate.generateSpeech s ?st b useLlm model] =>
    destruct (generateSpeech_total s st b useLlm model w1) as (t & w2 & E2)
  end.
  erewrite bind_step by exact E2. eexists; eexists; reflexivity.
Qed.

(** With at most seven members every member is a spokesperson, the back-fill
    loop is never entered, and the run returns whatever the fuel. *)
Lemma engine_small_run_completes bm jp fuel ds n R b useLlm model sd w :
  ds <> [] -> n <= 7 ->
  exists res w',
    Engine.runSimulation bm jp fuel ds n R b useLlm model sd w = (Ok res, w').
Proof.
  intros NE Small. unfold Engine.runSimulation.
  destruct ds as [|d0 ds']; [congruence|].
  unfold Engine.sampleMembers.
  match goal with |- context [Engine.sampleLoop bm ?l ?p n 0 ?g] =>
    destruct (@engine_sampleLoop_total bm l p n ltac:(discriminate) 0 g) as (ms & E);
    pose proof (engine_sampleLoop_length _ _ _ _ _ _ E) as Len
  end.
  unfold bind at 1. unfold lift at 1. rewrite E.
  assert (exists rs w', Engine.roundLoop jp fuel ms b useLlm model R 0 [] w = (Ok rs, w'))
    as (rs & w' & Loop).
  { destruct R as [|R]; simpl; [eexists; eexists; reflexivity|].
    unfold Engine.pickSpokespeople.
    rewrite sortByIdeology_length, Len.
    destruct (n <=? 7) eqn:B; [|apply Nat.leb_gt in B; lia].
    erewrite bind_step by reflexivity.
    destruct (foldM_total (Engine.speak jp b useLlm model) (sortByIdeology ms)
                (fun acc x w0 _ => engine_speak_total jp b useLlm model acc x w0) [] w)
      as (sps & w1 & Esp).
    erewrite bind_step by exact Esp.
    destruct (asyncVote_total jp ms b useLlm model (1 # 2) w1) as (v & w2 & Ev).
    erewrite bind_step by exact Ev.
    destruct (Engine.passed v); simpl; eexists; eexists; reflexivity. }
  erewrite bind_step by exact Loop. eexists; eexists; reflexivity.
Qed.

(** ** The roll call of [batchVote] *)

Lemma extends_refl o : extends o o.
Proof. split; auto. Qed.

Lemma extends_trans a b c : extends a b -> extends b c -> extends a c.
Proof. intros [N1 I1] [N2 I2]. split; auto. Qed.

Lemma extends_assign k v o : extends o (assign k v o).
Proof.
  split.
  - apply keys_assign_NoDup.
  - intros k' I. apply keys_assign_In. right. exact I.
Qed.

Lemma recordMatches_extends found : forall o, extends o (Client.recordMatches found o).
Proof.
  unfold Client.recordMatches.
  induction found as [|[id v] found IH]; intro o; simpl.
  - apply extends_refl.
  - eapply extends_trans; [apply extends_assign|apply IH].
Qed.

Lemma abstainAll_extends chunk : forall o,
  extends o (Client.abstainAll chunk o) /\
  (forall m, In m chunk -> In (member_id m) (map fst (Client.abstainAll chunk o))).
Proof.
  unfold Client.abstainAll.
  induction chunk as [|m chunk IH]; intro o; simpl.
  - split; [apply extends_refl|intros m []].
  - destruct (IH (assign (member_id m) abstain o)) as [E C]. split.
    + eapply extends_trans; [apply extends_assign|exact E].
    + intros m' [<-|I]; [|apply C; exact I].
      apply (proj2 E). apply keys_assign_In. left. reflexivity.
Qed.

Lemma fallbackVote_spec o m w o' w' :
  Client.fallbackVote o m w = (Ok o', w') ->
  extends o o' /\ In (member_id m) (map fst o') /\ loadedEngine w' = loadedEngine w.
Proof.
  unfold Client.fallbackVote. destruct (lookup (member_id m) o) as [v|] eqn:L; intro H.
  - inv_ret H. split; [apply extends_refl|]. split; [|reflexivity].
    apply lookup_In. exists v. exact L.
  - inv_bind H. inv_ret H. unfold random in Ha. inversion Ha; subst; simpl.
    split; [apply extends_assign|]. split; [|reflexivity].
    apply keys_assign_In. left. reflexivity.
Qed.

Lemma fallbackVote_total o m w : exists o' w', Client.fallbackVote o m w = (Ok o', w').
Proof.
  unfold Client.fallbackVote. destruct (lookup (member_id m) o);
    eexists; eexists; reflexivity.
Qed.

Lemma fallback_loop_spec chunk : forall o w o' w',
  foldM Client.fallbackVote chunk o w = (Ok o', w') ->
  extends o o' /\ (forall m, In m chunk -> In (member_id m) (map fst o')) /\
  loadedEngine w' = loadedEngine w.
Proof.
  induction chunk as [|m chunk IH]; intros o w o' w' H; simpl in H.
  - inv_ret H. split; [apply extends_refl|]. split; [intros m []|reflexivity].
  - inv_bind H. apply fallbackVote_spec in Ha. destruct Ha as (E1 & I1 & L1).
    apply IH in H. destruct H as (E2 & I2 & L2).
    split; [eapply extends_trans; eassumption|]. split; [|congruence].
    intros m' [<-|I]; [apply (proj2 E2); exact I1|apply I2; exact I].
Qed.

Lemma createCompletion_engine w c w' :
  createCompletion w = (c, w') -> loadedEngine w' = loadedEngine w.
Proof.
  unfold createCompletion. destruct (completion w (completionCalls w));
    intro H; inversion H; reflexivity.
Qed.

Lemma voteChunk_spec chunk o w o' w' :
  Client.voteChunk chunk o w = (Ok o', w') ->
  extends o o' /\ (forall m, In m chunk -> In (member_id m) (map fst o')) /\
  loadedEngine w' = loadedEngine w.
Proof.
  unfold Client.voteChunk, catch, bind.
  destruct (createCompletion w) as [[c|e] w1] eqn:C;
    apply createCompletion_engine in C.
  - destruct (foldM Client.fallbackVote chunk
                (Client.recordMatches (Client.scanVotes 0 (orElse c EmptyString)) o) w1)
      as [[o1|e] w2] eqn:F.
    + intro H. inversion H; subst. apply fallback_loop_spec in F.
      destruct F as (E & I & L). split; [|split; [exact I|congruence]].
      eapply extends_trans; [apply recordMatches_extends|exact E].
    + intro H. inv_ret H. destruct (abstainAll_extends chunk o) as [E I].
      exfalso.
      destruct (foldM_total Client.fallbackVote chunk
                  (fun acc x w0 _ => fallbackVote_total acc x w0)
                  (Client.recordMatches (Client.scanVotes 0 (orElse c EmptyString)) o) w1)
        as (o2 & w3 & T). congruence.
  - intro H. inv_ret H. destruct (abstainAll_extends chunk o) as [E I].
    split; [exact E|]. split; [exact I|exact C].
Qed.

Lemma voteChunk_total chunk o w : exists o' w', Client.voteChunk chunk o w = (Ok o', w').
Proof.
  unfold Client.voteChunk. apply catch_total.
  intros e w0. eexists; eexists; reflexivity.
Qed.

Lemma batchLoop_spec ms k : forall i o w o' w',
  Client.batchLoop ms k i o w = (Ok o', w') ->
  List.length ms <= i + k * Client.BATCH_SIZE ->
  extends o o' /\ (forall m, In m (skipn i ms) -> In (member_id m) (map fst o')) /\
  loadedEngine w' = loadedEngine w.
Proof.
  induction k as [|k IH]; intros i o w o' w' H Len; simpl in H.
  - inv_ret H. split; [apply extends_refl|]. split; [|reflexivity].
    rewrite skipn_all2 by lia. intros m [].
  - inv_bind H. apply voteChunk_spec in Ha. destruct Ha as (E1 & I1 & L1).
    apply IH in H; [|unfold Client.BATCH_SIZE in *; lia]. destruct H as (E2 & I2 & L2).
    split; [eapply extends_trans; eassumption|]. split; [|congruence].
    intros m I.
    rewrite <- (firstn_skipn Client.BATCH_SIZE (skipn i ms)) in I.
    apply in_app_iff in I. destruct I as [I|I].
    + apply (proj2 E2). apply I1. unfold slice.
      replace (i + Client.BATCH_SIZE - i) with Client.BATCH_SIZE by lia. exact I.
    + apply I2. rewrite skipn_skipn in I.
      replace (i + Client.BATCH_SIZE) with (Client.BATCH_SIZE + i) by lia. exact I.
Qed.

Lemma batchLoop_total ms k : forall i o w,
  exists o' w', Client.batchLoop ms k i o w = (Ok o', w').
Proof.
  induction k as [|k IH]; intros i o w; simpl.
  - eexists; eexists; reflexivity.
  - destruct (voteChunk_total (slice ms i (i + Client.BATCH_SIZE)) o w) as (o1 & w1 & E).
    erewrite bind_step by exact E. apply IH.
Qed.

Lemma batchVote_spec b ms w votes w' :
  Client.batchVote b ms w = (Ok votes, w') ->
  NoDup (map fst votes) /\
  (forall m, In m ms -> In (member_id m) (map fst votes)) /\
  loadedEngine w' = loadedEngine w.
Proof.
  unfold Client.batchVote. intro H. apply batchLoop_spec in H.
  - destruct H as ([N _] & I & L). split; [apply N; constructor|]. split; assumption.
  - unfold Client.BATCH_SIZE. change (10 - 1) with 9.
    pose proof (Nat.div_mod_eq (List.length ms + 9) 10).
    pose proof (Nat.mod_upper_bound (List.length ms + 9) 10 ltac:(lia)). lia.
Qed.

(** ** Counting and reconciling *)

Lemma countVotes_from votes : forall y n a y' n' a',
  fold_left Client.countStep votes (y, n, a) = (y', n', a') ->
  (y' + n' + a' = y + n + a + Z.of_nat (List.length votes))%Z.
Proof.
  induction votes as [|[k v] votes IH]; intros y n a y' n' a' H; simpl in H.
  - inversion H; subst. simpl. lia.
  - destruct v; apply IH in H; simpl List.length; lia.
Qed.

Lemma countVotes_sum votes y n a :
  Client.countVotes votes = (y, n, a) ->
  (y + n + a = Z.of_nat (List.length votes))%Z.
Proof. unfold Client.countVotes. intro H. apply countVotes_from in H. lia. Qed.

Lemma assign_length_present {V} k (v : V) o :
  In k (map fst o) -> List.length (assign k v o) = List.length o.
Proof.
  intro I. rewrite <- (length_map fst (assign k v o)), <- (length_map fst o).
  rewrite keys_assign.
  apply existsb_eqb_In in I. rewrite I. reflexivity.
Qed.

Lemma Ballot_eqb_eq a b : Ballot_eqb a b = true <-> a = b.
Proof. destruct a, b; simpl; split; intro H; try reflexivity; discriminate. Qed.

(** Forcing one speaker's vote moves one unit between the counters and
    rewrites one entry of the roll call. *)
Lemma forceConsistency_spec y n a votes s y' n' a' votes' :
  Client.forceConsistency (y, n, a, votes) s = (y', n', a', votes') ->
  lookup (sp_member_id s) votes' = Some (voteOfStance (stance s)) /\
  (forall k, k <> sp_member_id s -> lookup k votes' = lookup k votes) /\
  extends votes votes' /\
  (In (sp_member_id s) (map fst votes) ->
   (y' + n' + a' = y + n + a)%Z /\ List.length votes' = List.length votes).
Proof.
  unfold Client.forceConsistency.
  destruct (lookup (sp_member_id s) votes) as [v|] eqn:L.
  - destruct (Ballot_eqb v (voteOfStance (stance s))) eqn:E.
    + apply Ballot_eqb_eq in E. subst v. intro H. inversion H; subst.
      split; [exact L|]. split; [reflexivity|]. split; [apply extends_refl|].
      intros _. split; reflexivity.
    + intro H.
      assert (votes' = assign (sp_member_id s) (voteOfStance (stance s)) votes
              /\ (y' + n' + a' = y + n + a)%Z) as [-> S].
      { destruct v, (voteOfStance (stance s)); inversion H; subst; split;
          try reflexivity; lia. }
      split; [apply lookup_assign_same|].
      split; [intros k NE; apply lookup_assign_other; exact NE|].
      split; [apply extends_assign|].
      intro I. split; [exact S|apply assign_length_present; exact I].
  - intro H.
    assert (votes' = assign (sp_member_id s) (voteOfStance (stance s)) votes) as ->.
    { destruct (voteOfStance (stance s)); inversion H; subst; reflexivity. }
    split; [apply lookup_assign_same|].
    split; [intros k NE; apply lookup_assign_other; exact NE|].
    split; [apply extends_assign|].
    intro I. exfalso. apply lookup_In in I. destruct I as [v I]. congruence.
Qed.

Lemma forceConsistency_loop sps : forall y n a votes y' n' a' votes',
  fold_left Client.forceConsistency sps (y, n, a, votes) = (y', n', a', votes') ->
  extends votes votes' /\
  (Forall (fun s => In (sp_member_id s) (map fst votes)) sps ->
   (y' + n' + a' = y + n + a)%Z /\ List.length votes' = List.length votes) /\
  (forall k, ~ In k (map sp_member_id sps) -> lookup k votes' = lookup k votes).
Proof.
  induction sps as [|s sps IH]; intros y n a votes y' n' a' votes' H; cbn [fold_left] in H.
  - inversion H; subst. split; [apply extends_refl|].
    split; [intros _; split; reflexivity|reflexivity].
  - destruct (Client.forceConsistency (y, n, a, votes) s) as [[[y1 n1] a1] votes1] eqn:F.
    apply forceConsistency_spec in F. destruct F as (_ & Other & E1 & Sum1).
    apply IH in H. destruct H as (E2 & Sum2 & Other2).
    split; [eapply extends_trans; eassumption|]. split.
    + intro All. inversion All as [|? ? Hs Hsps]; subst.
      destruct (Sum1 Hs) as [S1 L1].
      destruct Sum2 as [S2 L2].
      { eapply Forall_impl; [|exact Hsps]. intros s' I. apply (proj2 E1). exact I. }
      split; lia.
    + intros k NI. simpl in NI. rewrite Other2 by tauto. apply Other. intro; subst; tauto.
Qed.

(** After the loop an entry agrees with the speaker's last speech. *)
Lemma forceConsistency_last sps1 s sps2 y n a votes y' n' a' votes' :
  fold_left Client.forceConsistency (sps1 ++ s :: sps2) (y, n, a, votes)
    = (y', n', a', votes') ->
  (forall s', In s' sps2 -> sp_member_id s' <> sp_member_id s) ->
  lookup (sp_member_id s) votes' = Some (voteOfStance (stance s)).
Proof.
  rewrite fold_left_app. cbn [fold_left].
  destruct (fold_left Client.forceConsistency sps1 (y, n, a, votes))
    as [[[y1 n1] a1] votes1].
  destruct (Client.forceConsistency (y1, n1, a1, votes1) s)
    as [[[y2 n2] a2] votes2] eqn:F.
  apply forceConsistency_spec in F. destruct F as (L & _).
  intros H Later. apply forceConsistency_loop in H. destruct H as (_ & _ & Other).
  rewrite Other; [exact L|].
  rewrite in_map_iff. intros (s' & E & I). exact (Later s' I E).
Qed.

(** ** One vote of the client *)

Lemma castVotes_heuristic o b ms sps w v w' :
  Client.castVotes false o b ms sps w = (Ok v, w') ->
  v = Client.mkVote (Z.of_nat (Client.numMembers o / 2))
        (Z.of_nat (Client.numMembers o / 2)) 0 false (1 # 2) [] /\ w' = w.
Proof. unfold Client.castVotes. intro H. inv_ret H. split; reflexivity. Qed.

Lemma castVotes_engine o b ms sps w v w' :
  Client.castVotes true o b ms sps w = (Ok v, w') ->
  Forall (fun s => In (sp_member_id s) (map member_id ms)) sps ->
  NoDup (map fst (Client.rollCall v)) /\
  (forall m, In m ms -> In (member_id m) (map fst (Client.rollCall v))) /\
  (Client.v_yes v + Client.v_no v + Client.v_abstain v
   = Z.of_nat (List.length (Client.rollCall v)))%Z /\
  Client.passed v = Client.majority (Client.v_yes v) (Client.v_no v) /\
  Client.threshold v = (1 # 2) /\
  (forall sps1 s sps2, sps = sps1 ++ s :: sps2 ->
     (forall s', In s' sps2 -> sp_member_id s' <> sp_member_id s) ->
     lookup (sp_member_id s) (Client.rollCall v) = Some (voteOfStance (stance s))) /\
  loadedEngine w' = loadedEngine w.
Proof.
  unfold Client.castVotes. intros H Sp. inv_bind H.
  apply batchVote_spec in Ha. destruct Ha as (ND & Cover & L).
  destruct (Client.countVotes a) as [[y n] a0] eqn:C.
  destruct (fold_left Client.forceConsistency sps (y, n, a0, a))
    as [[[y' n'] a'] votes'] eqn:F.
  inv_ret H. simpl.
  pose proof (forceConsistency_loop _ _ _ _ _ F) as (E & Sum & _).
  destruct Sum as [S Len].
  { eapply Forall_impl; [|exact Sp]. intros s I. simpl in I.
    apply in_map_iff in I. destruct I as (m & Em & Im). rewrite <- Em.
    apply Cover. exact Im. }
  apply countVotes_sum in C.
  split; [apply (proj1 E); exact ND|].
  split; [intros m I; apply (proj2 E); apply Cover; exact I|].
  split; [lia|]. split; [reflexivity|]. split; [reflexivity|].
  split; [|exact L].
  intros sps1 s sps2 -> Later. eapply forceConsistency_last; eassumption.
Qed.

Lemma castVotes_total llm o b ms sps w :
  exists v w', Client.castVotes llm o b ms sps w = (Ok v, w').
Proof.
  unfold Client.castVotes. destruct llm.
  - unfold Client.batchVote.
    destruct (batchLoop_total ms
                ((List.length ms + (Client.BATCH_SIZE - 1)) / Client.BATCH_SIZE) 0 [] w)
      as (votes & w1 & E).
    erewrite bind_step by exact E.
    destruct (Client.countVotes votes) as [[y n] a].
    destruct (fold_left Client.forceConsistency sps (y, n, a, votes)) as [[[y' n'] a'] votes'].
    eexists; eexists; reflexivity.
  - eexists; eexists; reflexivity.
Qed.

(** The strict majority of the client, read in the integers. *)
Lemma majority_iff y n : Client.majority y n = true <-> (n < y)%Z.
Proof.
  unfold Client.majority, Qgtb. rewrite Qltb_lt.
  unfold Qlt, Qmult, inject_Z. cbn [Qnum Qden]. lia.
Qed.

(** ** The rounds of the client *)

Lemma speakers_engine llm b r ms w sps w' :
  foldM (Client.speak llm b r) (Client.pickSpeakers ms) [] w = (Ok sps, w') ->
  loadedEngine w' = loadedEngine w.
Proof.
  generalize (@nil Speech) as acc. revert w.
  induction (Client.pickSpeakers ms) as [|sp l IH]; intros w acc H; simpl in H.
  - inv_ret H. reflexivity.
  - inv_bind H. apply speak_inv in Ha. destruct Ha as (_ & _ & _ & _ & _ & L).
    apply IH in H. congruence.
Qed.

(** Every round of the result holds the speeches and the tally of one pass
    through the loop body. *)
Lemma client_roundLoop_origin llm o ms k :
  forall r b acc ns w rs ns' w',
    Client.roundLoop llm o ms k r b acc ns w = (Ok (rs, ns'), w') ->
    exists new, rs = acc ++ new /\
      Forall (fun rd =>
                exists b0 w0 w1 w2,
                  foldM (Client.speak llm b0 (Client.round_index rd))
                    (Client.pickSpeakers ms) [] w0 = (Ok (Client.speeches rd), w1) /\
                  Client.castVotes llm o b0 ms (Client.speeches rd) w1
                  = (Ok (Client.roundVote rd), w2)) new.
Proof.
  induction k as [|k IH]; intros r b acc ns w rs ns' w' H; simpl in H.
  - inv_ret H. exists []. rewrite app_nil_r. split; constructor.
  - inv_bind H. inv_bind H.
    assert (forall am,
      exists b0 w0 w1 w2,
        foldM (Client.speak llm b0 (Client.round_index (Client.mkRound r a a0 am)))
          (Client.pickSpeakers ms) [] w0
        = (Ok (Client.speeches (Client.mkRound r a a0 am)), w1) /\
        Client.castVotes llm o b0 ms (Client.speeches (Client.mkRound r a a0 am)) w1
        = (Ok (Client.roundVote (Client.mkRound r a a0 am)), w2)) as Here.
    { intro am. exists b, w, w0, w1. split; assumption. }
    destruct (Client.passed a0).
    + inv_ret H. eexists. split; [reflexivity|].
      constructor; [apply Here|constructor].
    + destruct (S r <? Client.optRounds o); [destruct llm|].
      * inv_bind H. apply IH in H. destruct H as (new & -> & F).
        eexists. rewrite <- app_assoc. split; [reflexivity|].
        constructor; [apply Here|exact F].
      * apply IH in H. destruct H as (new & -> & F).
        eexists. rewrite <- app_assoc. split; [reflexivity|].
        constructor; [apply Here|exact F].
      * apply IH in H. destruct H as (new & -> & F).
        eexists. rewrite <- app_assoc. split; [reflexivity|].
        constructor; [apply Here|exact F].
Qed.

(** The shape of the result: consecutive indices from [r], at most [k] rounds,
    every round but the last failed and (with the engine) carries its
    amendment, the last round carries none and either passed or used up the
    budget. *)
Lemma client_roundLoop_shape llm o ms k :
  forall r b acc ns w rs ns' w',
    k + r = Client.optRounds o ->
    Client.roundLoop llm o ms k r b acc ns w = (Ok (rs, ns'), w') ->
    (k = 0 /\ rs = acc) \/
    (exists init final,
       rs = acc ++ init ++ [final] /\
       List.length (init ++ [final]) <= k /\
       map Client.round_index (init ++ [final])
       = seq r (List.length (init ++ [final])) /\
       Forall (fun rd =>
                 Client.passed (Client.roundVote rd) = false /\
                 if llm then exists t, Client.amendment rd = Some t
                 else Client.amendment rd = None) init /\
       Client.amendment final = None /\
       (Client.passed (Client.roundVote final) = true \/
        List.length (init ++ [final]) = k)).
Proof.
  induction k as [|k IH]; intros r b acc ns w rs ns' w' Inv H; simpl in H.
  - inv_ret H. left. split; reflexivity.
  - right. inv_bind H. inv_bind H.
    destruct (Client.passed a0) eqn:P.
    + inv_ret H.
      exists [], (Client.mkRound r a a0 None). simpl.
      split; [reflexivity|]. split; [lia|]. split; [reflexivity|].
      split; [constructor|]. split; [reflexivity|left; exact P].
    + assert (forall am b1 acc1 ns1 w2,
                ((exists t, am = Some t) -> llm = true /\ k <> 0) ->
                (am = None -> llm = false \/ k = 0) ->
                acc1 = acc ++ [Client.mkRound r a a0 am] ->
                Client.roundLoop llm o ms k (S r) b1 acc1 ns1 w2 = (Ok (rs, ns'), w') ->
                exists init final,
                  rs = acc ++ init ++ [final] /\
                  List.length (init ++ [final]) <= S k /\
                  map Client.round_index (init ++ [final])
                  = seq r (List.length (init ++ [final])) /\
                  Forall (fun rd =>
                            Client.passed (Client.roundVote rd) = false /\
                            if llm then exists t, Client.amendment rd = Some t
                            else Client.amendment rd = None) init /\
                  Client.amendment final = None /\
                  (Client.passed (Client.roundVote final) = true \/
                   List.length (init ++ [final]) = S k)) as Step.
      { intros am b1 acc1 ns1 w2 Hsome Hnone -> K.
        apply IH in K; [|lia].
        destruct K as [[K0 ->]|(init & final & -> & Len & Idx & F & AmF & Last)].
        - exists [], (Client.mkRound r a a0 am). simpl.
          assert (am = None) as ->.
          { destruct am as [t|]; [|reflexivity].
            destruct Hsome as [_ NZ]; [eexists; reflexivity|contradiction]. }
          split; [reflexivity|]. split; [lia|]. split; [reflexivity|].
          split; [constructor|]. split; [reflexivity|right; lia].
        - exists (Client.mkRound r a a0 am :: init), final.
          rewrite <- app_assoc. simpl.
          rewrite length_app in *. simpl in *.
          split; [reflexivity|]. split; [lia|]. split; [f_equal; exact Idx|].
          split; [|split; [exact AmF|]].
          + constructor; [|exact F]. simpl. split; [exact P|].
            destruct am as [t|].
            * destruct Hsome as [-> _]; [eexists; reflexivity|].
              eexists; reflexivity.
            * destruct (Hnone eq_refl) as [->|K0]; [reflexivity|lia].
          + destruct Last as [Pf|Lf]; [left; exact Pf|right; lia]. }
      destruct (S r <? Client.optRounds o) eqn:B; [destruct llm|].
      * apply Nat.ltb_lt in B. inv_bind H. eapply Step; [| | |exact H]; try reflexivity.
        -- intros _. split; [reflexivity|lia].
        -- discriminate.
      * eapply Step; [| | |exact H]; try reflexivity.
        -- intros [t E]; discriminate.
        -- intros _. left; reflexivity.
      * apply Nat.ltb_ge in B.
        eapply Step; [| | |exact H]; try reflexivity.
        -- intros [t E]; discriminate.
        -- intros _. right. lia.
Qed.

(** ** Whole runs *)

Lemma initEngine_spec o w u w0 :
  Client.initEngine o w = (Ok u, w0) ->
  (Client.useLlm o = true ->
   Client.llmConfig o <> None \/ loadedEngine w <> None ->
   loadedEngine w0 <> None) /\
  (Client.useLlm o = false -> w0 = w).
Proof.
  unfold Client.initEngine.
  destruct (Client.useLlm o); [destruct (Client.llmConfig o) as [model|]|].
  - destruct (loadedEngine w) as [current|] eqn:L.
    + destruct (negb (String.eqb current model)).
      * destruct (reloadFails w); [discriminate|].
        intro H. inversion H; subst. simpl. split; [discriminate|discriminate].
      * intro H. inversion H; subst. split; [|discriminate]. intros _ _. congruence.
    + destruct (reloadFails w); [discriminate|].
      intro H. inversion H; subst. simpl. split; discriminate.
  - intro H. inversion H; subst. split; [|discriminate].
    intros _ [N|N]; [congruence|exact N].
  - intro H. inversion H; subst. split; [discriminate|reflexivity].
Qed.

Lemma last_round {R} (init : list R) (final : R) :
  js_index (init ++ [final]) (Z.of_nat (List.length (init ++ [final])) - 1) = Some final.
Proof.
  rewrite length_app. simpl.
  replace (Z.of_nat (List.length init + 1) - 1)%Z with (Z.of_nat (List.length init)) by lia.
  rewrite js_index_nat. rewrite nth_error_app2 by lia.
  rewrite Nat.sub_diag. reflexivity.
Qed.

Lemma runSimulationClient_inv o w res w' :
  Client.runSimulationClient o w = (Ok res, w') ->
  exists w0 w1 llm,
    Client.initEngine o w = (Ok tt, w0) /\
    Client.sample o <> [] /\
    map member_id (Client.members res) = map memberId (seq 0 (Client.numMembers o)) /\
    llm = (Client.useLlm o
           && match loadedEngine w0 with Some _ => true | None => false end)%bool /\
    Client.roundLoop llm o (Client.members res) (Client.optRounds o) 0
      (Client.bill o) [] [] w1 = (Ok (Client.rounds res, Client.notes res), w') /\
    Client.final_passed res
    = match js_index (Client.rounds res)
              (Z.of_nat (List.length (Client.rounds res)) - 1) with
      | Some rd => Client.passed (Client.roundVote rd)
      | None => false
      end.
Proof.
  unfold Client.runSimulationClient. intro H. inv_bind H. destruct a.
  destruct (Client.sample o) as [|d0 ds] eqn:S; [apply throw_Ok in H; contradiction|].
  inv_bind H. inv_bind H. inv_bind H. destruct a1 as [allRounds ns]. inv_ret H.
  unfold Client.sampleMembers in Ha0. apply client_sampleLoop_ids in Ha0.
  destruct Ha0 as [Ids L].
  unfold Client.engineReady in Ha1. inversion Ha1; subst. rewrite L in *.
  exists w0, w2. eexists. simpl.
  split; [exact Ha|]. split; [discriminate|]. split; [exact Ids|].
  split; [reflexivity|]. split; [exact Ha2|reflexivity].
Qed.

Lemma runSimulation_inv bm jp fuel ds n R b useLlm model sd w res w' :
  Engine.runSimulation bm jp fuel ds n R b useLlm model sd w = (Ok res, w') ->
  exists ms,
    ds <> [] /\ List.length ms = n /\ Engine.members res = n /\
    Engine.roundLoop jp fuel ms b useLlm model R 0 [] w = (Ok (Engine.rounds res), w') /\
    Engine.final_passed res
    = match nth_error (Engine.rounds res) (List.length (Engine.rounds res) - 1) with
      | Some rd => Engine.passed (Engine.roundVote rd)
      | None => false
      end.
Proof.
  unfold Engine.runSimulation. destruct ds as [|d ds]; [discriminate|].
  intro H. inv_bind H. inv_bind H. inv_ret H.
  apply lift_Ok in Ha. destruct Ha as [Ha ->].
  unfold Engine.sampleMembers in Ha. apply engine_sampleLoop_length in Ha.
  exists a. simpl. split; [discriminate|]. split; [exact Ha|]. split; [reflexivity|].
  split; [exact Ha0|]. destruct a0; reflexivity.
Qed.

(** Without the engine every speaker that exists speaks, every vote is cast,
    and no amendment is asked for: the loop runs to its end. *)
Lemma client_roundLoop_heuristic_total o ms k :
  ms <> [] ->
  forall r b acc ns w,
    exists rs ns', Client.roundLoop false o ms k r b acc ns w = (Ok (rs, ns'), w).
Proof.
  intro NE. induction k as [|k IH]; intros r b acc ns w; simpl.
  - eexists; eexists; reflexivity.
  - assert (forall xs sps, (forall sp, In sp xs -> exists m, sp = Some m) ->
              exists sps', foldM (Client.speak false b r) xs sps w = (Ok sps', w)) as Sp.
    { induction xs as [|sp xs IHx]; intros sps All; simpl.
      - eexists; reflexivity.
      - destruct (All sp (or_introl eq_refl)) as [m ->].
        destruct (speak_heuristic_total b r sps m w) as [sps1 E1].
        erewrite bind_step by exact E1. apply IHx.
        intros sp' I. apply All. right. exact I. }
    destruct (Sp (Client.pickSpeakers ms) []) as [sps E].
    { intros sp I. eapply pickSpeakers_defined; eassumption. }
    erewrite bind_step by exact E.
    erewrite bind_step by reflexivity. simpl.
    destruct (S r <? Client.optRounds o); apply IH.
Qed.

(** * The claims *)

(** ** C9: the shape of the result *)

(** C9 (as stated, refuted): a completed run can have an empty round list.
    With a budget of zero rounds the loop body never runs, the run completes,
    and both orchestrators guard the empty list when they read the final
    tally. *)
Lemma zero_rounds_run_is_empty :
  match fst (Client.runSimulationClient zeroRoundsRun quietWorld) with
  | Ok res => Client.rounds res = [] /\ Client.final_passed res = false
  | Throw _ => False
  end.
Proof. vm_compute. split; reflexivity. Qed.

(** C9 (amended): for every completed run of either orchestrator whose budget
    is at least one round, the round list is non-empty, no longer than the
    budget, its indices are 0, 1, 2, ... without gaps, and [final_passed] is
    the [passed] of the last round's tally; with a budget of zero rounds the
    list is empty and [final_passed] is false. *)
Theorem rounds_of_a_completed_run :
  (forall o w res w',
      Client.runSimulationClient o w = (Ok res, w') ->
      (Client.optRounds o = 0 ->
       Client.rounds res = [] /\ Client.final_passed res = false) /\
      (1 <= Client.optRounds o ->
       exists init final,
         Client.rounds res = init ++ [final] /\
         List.length (Client.rounds res) <= Client.optRounds o /\
         map Client.round_index (Client.rounds res)
         = seq 0 (List.length (Client.rounds res)) /\
         Client.final_passed res = Client.passed (Client.roundVote final))) /\
  (forall bm jp fuel ds n R b useLlm model sd w res w',
      Engine.runSimulation bm jp fuel ds n R b useLlm model sd w = (Ok res, w') ->
      (R = 0 -> Engine.rounds res = [] /\ Engine.final_passed res = false) /\
      (1 <= R ->
       exists init final,
         Engine.rounds res = init ++ [final] /\
         List.length (Engine.rounds res) <= R /\
         map Engine.round_index (Engine.rounds res)
         = seq 0 (List.length (Engine.rounds res)) /\
         Engine.final_passed res = Engine.passed (Engine.roundVote final))).
Proof.
  split.
  - intros o w res w' H.
    apply runSimulationClient_inv in H.
    destruct H as (w0 & w1 & llm & _ & _ & _ & _ & Loop & Final).
    apply client_roundLoop_shape in Loop; [|lia].
    destruct Loop as [[K0 E]|(init & final & E & Len & Idx & _ & _ & _)];
      simpl in E; rewrite E in *.
    + split; [intros _; split; [reflexivity|exact Final]|lia].
    + split.
      * intro Z0. rewrite Z0 in Len. rewrite length_app in Len. simpl in Len. lia.
      * intros _. exists init, final. rewrite last_round in Final.
        split; [reflexivity|]. split; [exact Len|]. split; [exact Idx|exact Final].
  - intros bm jp fuel ds n R b useLlm model sd w res w' H.
    apply runSimulation_inv in H.
    destruct H as (ms & _ & _ & _ & Loop & Final).
    apply engine_roundLoop_inv in Loop.
    destruct Loop as [[R0 E]|(Pos & sps & v & w1 & w2 & _ & E)];
      simpl in E; rewrite E in *.
    + split; [intros _; split; [reflexivity|exact Final]|lia].
    + split; [lia|]. intros _. exists [], (Engine.mkRound 0 sps v). simpl.
      split; [reflexivity|]. split; [lia|]. split; [reflexivity|exact Final].
Qed.

Lemma rounds_of_a_completed_run_witness :
  match Client.runSimulationClient heuristicRun quietWorld with
  | (Ok res, _) =>
      exists init final,
        Client.rounds res = init ++ [final] /\
        List.length (Client.rounds res) <= 2 /\
        map Client.round_index (Client.rounds res)
        = seq 0 (List.length (Client.rounds res)) /\
        Client.final_passed res = Client.passed (Client.roundVote final)
  | (Throw _, _) => False
  end.
Proof.
  destruct (Client.runSimulationClient heuristicRun quietWorld) as [[res|e] w'] eqn:E.
  - apply (proj2 (proj1 rounds_of_a_completed_run heuristicRun quietWorld res w' E)).
    vm_compute. lia.
  - vm_compute in E. discriminate.
Defined.

(** ** C10: the tally without the engine *)

(** The first revision: the tally of every round, the number of rounds and the
    result of a completed run without the engine, and that the run completes. *)
Lemma client_heuristic_tally o w :
  Client.useLlm o = false ->
  (forall res w',
      Client.runSimulationClient o w = (Ok res, w') ->
      Forall (fun rd =>
                Client.roundVote rd
                = Client.mkVote (Z.of_nat (Client.numMembers o / 2))
                    (Z.of_nat (Client.numMembers o / 2)) 0 false (1 # 2) [])
        (Client.rounds res) /\
      List.length (Client.rounds res) = Client.optRounds o /\
      Client.final_passed res = false) /\
  (Client.sample o <> [] -> 1 <= Client.numMembers o ->
   exists res w', Client.runSimulationClient o w = (Ok res, w')).
Proof.
  intro Off. split.
  - intros res w' H. apply runSimulationClient_inv in H.
    destruct H as (w0 & w1 & llm & _ & _ & _ & Llm & Loop & Final).
    rewrite Off in Llm. simpl in Llm. subst llm.
    pose proof Loop as Loop'. apply client_roundLoop_origin in Loop'.
    destruct Loop' as (new & E & Origin).
    simpl in E. subst new.
    assert (Forall (fun rd =>
                      Client.roundVote rd
                      = Client.mkVote (Z.of_nat (Client.numMembers o / 2))
                          (Z.of_nat (Client.numMembers o / 2)) 0 false (1 # 2) [])
              (Client.rounds res)) as Tally.
    { eapply Forall_impl; [|exact Origin]. intros rd (b0 & v0 & v1 & v2 & _ & C).
      apply castVotes_heuristic in C. exact (proj1 C). }
    split; [exact Tally|].
    apply client_roundLoop_shape in Loop; [|lia].
    destruct Loop as [[K0 E]|(init & final & E & Len & _ & _ & _ & Last)];
      simpl in E; rewrite E in *.
    + split; [simpl; lia|exact Final].
    + rewrite last_round in Final.
      assert (Client.passed (Client.roundVote final) = false) as P.
      { apply Forall_app in Tally. destruct Tally as [_ T].
        inversion T as [|? ? Hf _]; subst. rewrite Hf. reflexivity. }
      split; [|congruence].
      destruct Last as [Pt|L]; [congruence|exact L].
  - intros NE Pos. unfold Client.runSimulationClient.
    assert (Client.initEngine o w = (Ok tt, w)) as I.
    { unfold Client.initEngine. rewrite Off. reflexivity. }
    erewrite bind_step by exact I.
    destruct (Client.sample o) as [|d0 ds] eqn:S; [congruence|].
    unfold Client.sampleMembers.
    match goal with |- context [Client.sampleLoop ?f ?n 0] =>
      destruct (@client_sampleLoop_total f n) with (i := 0) (w := w) as (ms & w1 & E)
    end.
    { destruct (Client.numMembers o); [lia|]. simpl. discriminate. }
    erewrite bind_step by exact E.
    pose proof E as E'. apply client_sampleLoop_ids in E'. destruct E' as [Ids _].
    assert (ms <> []) as MNE.
    { intro Z0. subst ms. destruct (Client.numMembers o); [lia|]. simpl in Ids. discriminate. }
    unfold Client.engineReady. unfold bind at 1. rewrite Off. simpl.
    destruct (client_roundLoop_heuristic_total o (Client.optRounds o) MNE 0
                (Client.bill o) [] [] w1) as (rs & ns & R).
    erewrite bind_step by exact R. eexists; eexists; reflexivity.
Qed.

(** The later revision: its loop without the engine holds every round asked
    for, each with the same tally, and records no note. *)
Lemma rev_roundLoop_heuristic o ms k :
  forall r b acc ns w rs ns' w',
    ClientRev.roundLoop false o ms k r b acc ns w = (Ok (rs, ns'), w') ->
    exists new,
      rs = acc ++ new /\ List.length new = k /\ ns' = ns /\
      Forall (fun rd =>
                Client.roundVote rd
                = Client.mkVote (Z.of_nat (Client.numMembers (ClientRev.base o) / 2))
                    (Z.of_nat (Client.numMembers (ClientRev.base o) / 2))
                    0 false (1 # 2) []) new.
Proof.
  induction k as [|k IH]; intros r b acc ns w rs ns' w' H; cbn [ClientRev.roundLoop] in H.
  - inv_ret H. exists []. rewrite app_nil_r. repeat split. constructor.
  - inv_bind H. inv_bind H.
    unfold ClientRev.castVotes in Ha0. apply ret_Ok in Ha0. destruct Ha0 as [<- <-].
    cbn [Client.passed] in H.
    assert (ClientRev.roundLoop false o ms k (S r) b
              (acc ++ [Client.mkRound r a
                         (Client.mkVote
                            (Z.of_nat (Client.numMembers (ClientRev.base o) / 2))
                            (Z.of_nat (Client.numMembers (ClientRev.base o) / 2))
                            0 false (1 # 2) []) None]) ns w0
            = (Ok (rs, ns'), w')) as H'.
    { destruct (S r <? Client.optRounds (ClientRev.base o)); exact H. }
    apply IH in H'. destruct H' as (new & -> & Len & -> & All).
    eexists. rewrite <- app_assoc. split; [reflexivity|].
    split; [cbn [List.length app]; rewrite Len; reflexivity|].
    split; [reflexivity|]. constructor; [reflexivity|exact All].
Qed.

Lemma rev_roundLoop_heuristic_total o ms k :
  ms <> [] ->
  forall r b acc ns w,
    exists rs ns' w', ClientRev.roundLoop false o ms k r b acc ns w = (Ok (rs, ns'), w').
Proof.
  intro NE. induction k as [|k IH]; intros r b acc ns w; cbn [ClientRev.roundLoop].
  - eexists; eexists; eexists; reflexivity.
  - destruct (@foldM_total _ _ (ClientRev.speak false b r) (Client.pickSpeakers ms))
      with (acc := @nil Speech) (w := w) as (sps & w1 & E).
    { intros acc0 sp w0 I.
      destruct (pickSpeakers_defined NE I) as [m ->].
      unfold ClientRev.speak. eexists; eexists. reflexivity. }
    erewrite bind_step by exact E.
    erewrite bind_step by reflexivity. cbn [Client.passed].
    destruct (S r <? Client.optRounds (ClientRev.base o)); apply IH.
Qed.

Lemma rev_heuristic_tally o w :
  Client.useLlm (ClientRev.base o) = false ->
  (forall res w',
      ClientRev.runSimulationClient o w = (Ok res, w') ->
      Forall (fun rd =>
                Client.roundVote rd
                = Client.mkVote (Z.of_nat (Client.numMembers (ClientRev.base o) / 2))
                    (Z.of_nat (Client.numMembers (ClientRev.base o) / 2))
                    0 false (1 # 2) [])
        (Client.rounds res) /\
      List.length (Client.rounds res) = Client.optRounds (ClientRev.base o) /\
      Client.final_passed res = false) /\
  (Client.sample (ClientRev.base o) <> [] -> 1 <= Client.numMembers (ClientRev.base o) ->
   exists res w', ClientRev.runSimulationClient o w = (Ok res, w')).
Proof.
  intro Off.
  assert (Client.initEngine (ClientRev.base o) w = (Ok tt, w)) as I.
  { unfold Client.initEngine. rewrite Off. reflexivity. }
  split.
  - intros res w' H. unfold ClientRev.runSimulationClient in H.
    erewrite bind_step in H by exact I.
    destruct (Client.sample (ClientRev.base o)) as [|d0 ds] eqn:S;
      [exfalso; exact (throw_Ok H)|].
    inv_bind H. inv_bind H.
    unfold Client.engineReady in Ha0. rewrite Off in Ha0. injection Ha0 as <- <-.
    inv_bind H. destruct a0 as [allRounds ns].
    apply ret_Ok in H. destruct H as [<- _].
    cbn [Client.rounds Client.final_passed].
    apply rev_roundLoop_heuristic in Ha0.
    destruct Ha0 as (new & -> & Len & _ & All). cbn [app].
    split; [exact All|]. split; [exact Len|].
    destruct new as [|rd0 rest]; [reflexivity|].
    destruct (@exists_last _ (rd0 :: rest)) as (init & final & EQ); [discriminate|].
    rewrite EQ in *. clear EQ rd0 rest.
    rewrite last_round.
    apply Forall_app in All. destruct All as [_ T].
    inversion T as [|? ? Hf _]; subst. rewrite Hf. reflexivity.
  - intros NE Pos. unfold ClientRev.runSimulationClient.
    erewrite bind_step by exact I.
    destruct (Client.sample (ClientRev.base o)) as [|d0 ds] eqn:S; [congruence|].
    unfold Client.sampleMembers.
    match goal with |- context [Client.sampleLoop ?f ?n 0] =>
      destruct (@client_sampleLoop_total f n) with (i := 0) (w := w) as (ms & w1 & E)
    end.
    { destruct (Client.numMembers (ClientRev.base o)); [lia|]. simpl. discriminate. }
    erewrite bind_step by exact E.
    pose proof E as E'. apply client_sampleLoop_ids in E'. destruct E' as [Ids _].
    assert (ms <> []) as MNE.
    { intro Z0. subst ms.
      destruct (Client.numMembers (ClientRev.base o)); [lia|]. simpl in Ids. discriminate. }
    unfold Client.engineReady. unfold bind at 1. rewrite Off. cbn [andb].
    destruct (rev_roundLoop_heuristic_total o (Client.optRounds (ClientRev.base o)) MNE 0
                (Client.bill (ClientRev.base o)) [] [] w1) as (rs & ns & w2 & R).
    erewrite bind_step by exact R. eexists; eexists; reflexivity.
Qed.

(** C10: with [useLlm = false], in both revisions of the browser orchestrator
    ([simulation.ts] and its later revision with [onVoteUpdate] and
    [parallelLimit]), every round of a completed run has the tally
    yes = no = floor(numMembers / 2), abstain = 0, passed = false and an empty
    roll call; the loop runs all the configured rounds and [final_passed] is
    false.  A run of either revision over a non-empty district sample with at
    least one member does complete. *)
Theorem heuristic_tally_never_passes o w :
  Client.useLlm (ClientRev.base o) = false ->
  (forall res w',
      Client.runSimulationClient (ClientRev.base o) w = (Ok res, w') \/
      ClientRev.runSimulationClient o w = (Ok res, w') ->
      Forall (fun rd =>
                Client.roundVote rd
                = Client.mkVote (Z.of_nat (Client.numMembers (ClientRev.base o) / 2))
                    (Z.of_nat (Client.numMembers (ClientRev.base o) / 2))
                    0 false (1 # 2) [])
        (Client.rounds res) /\
      List.length (Client.rounds res) = Client.optRounds (ClientRev.base o) /\
      Client.final_passed res = false) /\
  (Client.sample (ClientRev.base o) <> [] -> 1 <= Client.numMembers (ClientRev.base o) ->
   (exists res w', Client.runSimulationClient (ClientRev.base o) w = (Ok res, w')) /\
   (exists res w', ClientRev.runSimulationClient o w = (Ok res, w'))).
Proof.
  intro Off.
  destruct (client_heuristic_tally (ClientRev.base o) w Off) as (A1 & T1).
  destruct (rev_heuristic_tally o w Off) as (A2 & T2).
  split.
  - intros res w' [H|H]; [exact (A1 res w' H)|exact (A2 res w' H)].
  - intros NE Pos. split; [exact (T1 NE Pos)|exact (T2 NE Pos)].
Qed.

Lemma heuristic_tally_never_passes_witness :
  match Client.runSimulationClient heuristicRun quietWorld,
        ClientRev.runSimulationClient (ClientRev.mkOptions heuristicRun None) quietWorld
  with
  | (Ok res, _), (Ok res', _) =>
      (Forall (fun rd =>
                 Client.roundVote rd = Client.mkVote 1 1 0 false (1 # 2) [])
         (Client.rounds res) /\
       List.length (Client.rounds res) = 2 /\
       Client.final_passed res = false) /\
      (Forall (fun rd =>
                 Client.roundVote rd = Client.mkVote 1 1 0 false (1 # 2) [])
         (Client.rounds res') /\
       List.length (Client.rounds res') = 2 /\
       Client.final_passed res' = false)
  | _, _ => False
  end.
Proof.
  pose proof (@heuristic_tally_never_passes (ClientRev.mkOptions heuristicRun None)
                quietWorld eq_refl) as [A T].
  destruct T as [(r1 & w1 & R1) (r2 & w2 & R2)].
  - vm_compute. discriminate.
  - vm_compute. lia.
  - cbn [ClientRev.base] in *. rewrite R1, R2.
    split.
    + exact (A r1 w1 (or_introl R1)).
    + exact (A r2 w2 (or_intror R2)).
Defined.

(** ** Where the rounds of a client run come from *)

Lemma client_rounds_origin o w res w' :
  Client.runSimulationClient o w = (Ok res, w') ->
  exists llm,
    (Client.useLlm o = false -> llm = false) /\
    (Client.useLlm o = true ->
     Client.llmConfig o <> None \/ loadedEngine w <> None -> llm = true) /\
    Forall (fun rd =>
              exists b0 w0 w1 w2,
                foldM (Client.speak llm b0 (Client.round_index rd))
                  (Client.pickSpeakers (Client.members res)) [] w0
                = (Ok (Client.speeches rd), w1) /\
                Client.castVotes llm o b0 (Client.members res) (Client.speeches rd) w1
                = (Ok (Client.roundVote rd), w2))
      (Client.rounds res).
Proof.
  intro H. apply runSimulationClient_inv in H.
  destruct H as (w0 & w1 & llm & Init & _ & _ & Llm & Loop & _).
  apply initEngine_spec in Init. destruct Init as [On Off].
  apply client_roundLoop_origin in Loop. destruct Loop as (new & E & Origin).
  simpl in E. subst new. exists llm. split; [|split; [|exact Origin]].
  - intros U. rewrite U in Llm. exact Llm.
  - intros U C. rewrite U in Llm. specialize (On U C).
    destruct (loadedEngine w0); [exact Llm|congruence].
Qed.

(** ** C4: when a tally passes *)

(** C4 (as stated, refuted): in the client a tie does not pass.  One member
    votes yes and one no; the tally records threshold 0.5 and
    yes / max(1, yes + no) = 0.5 reaches it, yet [passed] is false, because the
    client compares [yes > (yes + no) * 0.5]. *)
Lemma client_tie_does_not_pass :
  match fst (Client.runSimulationClient tieRun tieWorld) with
  | Ok res =>
      exists rd,
        Client.rounds res = [rd] /\
        Client.v_yes (Client.roundVote rd) = 1%Z /\
        Client.v_no (Client.roundVote rd) = 1%Z /\
        Client.passed (Client.roundVote rd) = false /\
        Qle_bool (Client.threshold (Client.roundVote rd))
          (inject_Z (Client.v_yes (Client.roundVote rd))
           / Qmax 1 (inject_Z (Client.v_yes (Client.roundVote rd)
                               + Client.v_no (Client.roundVote rd)))) = true
  | Throw _ => False
  end.
Proof. vm_compute. eexists. repeat split. Qed.

(** C4 (amended): in the engine every round's [passed] is
    [(yes / max(1, yes + no)) >= threshold] with threshold 0.5, a function of
    the yes and no counts alone, and a tie of non-zero counts passes.  In the
    client the threshold recorded is 0.5 as well; with the inference engine
    [passed] is [yes > (yes + no) * 0.5], again a function of yes and no alone,
    under which a tie does not pass; without it [passed] is false. *)
Theorem tally_pass_rule :
  (forall bm jp fuel ds n R b useLlm model sd w res w',
      Engine.runSimulation bm jp fuel ds n R b useLlm model sd w = (Ok res, w') ->
      Forall (fun rd =>
                let v := Engine.roundVote rd in
                Engine.threshold v = (1 # 2) /\
                Engine.passed v = Engine.tallyPassed (Engine.v_yes v) (Engine.v_no v) (1 # 2) /\
                (Engine.passed v = true <->
                 ((1 # 2) <= inject_Z (Engine.v_yes v)
                             / Qmax 1 (inject_Z (Engine.v_yes v + Engine.v_no v)))%Q) /\
                (Engine.v_yes v = Engine.v_no v -> (0 < Engine.v_yes v)%Z ->
                 Engine.passed v = true))
        (Engine.rounds res)) /\
  (forall o w res w',
      Client.runSimulationClient o w = (Ok res, w') ->
      Forall (fun rd =>
                let v := Client.roundVote rd in
                Client.threshold v = (1 # 2) /\
                (Client.useLlm o = false -> Client.passed v = false) /\
                (Client.useLlm o = true ->
                 Client.llmConfig o <> None \/ loadedEngine w <> None ->
                 Client.passed v = Client.majority (Client.v_yes v) (Client.v_no v) /\
                 (Client.passed v = true <->
                  (inject_Z (Client.v_yes v + Client.v_no v) * (1 # 2)
                   < inject_Z (Client.v_yes v))%Q) /\
                 (Client.v_yes v = Client.v_no v -> Client.passed v = false)))
        (Client.rounds res)).
Proof.
  split.
  - intros bm jp fuel ds n R b useLlm model sd w res w' H.
    apply runSimulation_inv in H. destruct H as (ms & _ & _ & _ & Loop & _).
    apply engine_roundLoop_inv in Loop.
    destruct Loop as [[_ ->]|(_ & sps & v & w1 & w2 & V & ->)]; [constructor|].
    simpl. constructor; [|constructor]. simpl.
    apply asyncVote_spec in V. destruct V as (_ & _ & _ & P & T).
    split; [exact T|]. split; [exact P|]. split.
    + rewrite P. apply tallyPassed_iff.
    + intros E Pos. rewrite P, <- E. apply tallyPassed_tie. exact Pos.
  - intros o w res w' H. apply client_rounds_origin in H.
    destruct H as (llm & Off & On & Origin).
    eapply Forall_impl; [|exact Origin].
    intros rd (b0 & w0 & w1 & w2 & Sp & C). cbv zeta.
    destruct llm.
    + apply speeches_by_members in Sp.
      apply castVotes_engine in C; [|exact Sp].
      destruct C as (_ & _ & _ & P & T & _).
      split; [exact T|]. split.
      * intro U. specialize (Off U). discriminate.
      * intros _ _. split; [exact P|]. split.
        -- rewrite P. unfold Client.majority, Qgtb. apply Qltb_lt.
        -- intro E. rewrite P. destruct (Client.majority _ _) eqn:M; [|reflexivity].
           apply majority_iff in M. lia.
    + apply castVotes_heuristic in C. destruct C as [-> _]. simpl.
      split; [reflexivity|]. split; [reflexivity|].
      intros U Cfg. specialize (On U Cfg). discriminate.
Qed.

Lemma tally_pass_rule_witness :
  match Client.runSimulationClient tieRun tieWorld with
  | (Ok res, _) =>
      Forall (fun rd =>
                let v := Client.roundVote rd in
                Client.passed v = Client.majority (Client.v_yes v) (Client.v_no v) /\
                (Client.passed v = true <->
                 (inject_Z (Client.v_yes v + Client.v_no v) * (1 # 2)
                  < inject_Z (Client.v_yes v))%Q) /\
                (Client.v_yes v = Client.v_no v -> Client.passed v = false))
        (Client.rounds res)
  | (Throw _, _) => False
  end.
Proof.
  destruct (Client.runSimulationClient tieRun tieWorld) as [[res|e] w'] eqn:E.
  - eapply Forall_impl;
      [|exact (proj2 tally_pass_rule tieRun tieWorld res w' E)].
    intros rd (_ & _ & On). apply On.
    + reflexivity.
    + left. discriminate.
  - vm_compute in E. discriminate.
Defined.

(** ** C5: the tally and the population *)

(** C5 (as stated, refuted): without the engine the client's tally of three
    members counts two votes and its roll call is empty. *)
Lemma heuristic_tally_misses_a_member :
  match fst (Client.runSimulationClient heuristicRun quietWorld) with
  | Ok res =>
      List.length (Client.members res) = 3 /\
      Client.rounds res <> [] /\
      Forall (fun rd =>
                (Client.v_yes (Client.roundVote rd) + Client.v_no (Client.roundVote rd)
                 + Client.v_abstain (Client.roundVote rd) = 2)%Z /\
                Client.rollCall (Client.roundVote rd) = [])
        (Client.rounds res)
  | Throw _ => False
  end.
Proof.
  vm_compute. split; [reflexivity|]. split; [discriminate|].
  repeat constructor.
Qed.

(** C5 (amended): in the engine, yes + no + abstain is the population size in
    every round (that tally keeps no roll call).  In the client with the
    inference engine, every round's roll call holds each key once and holds
    every member's id, yes + no + abstain is the number of its entries, and
    that number is the population size whenever the roll call names nobody
    outside the population. *)
Theorem tally_counts_the_population :
  (forall bm jp fuel ds n R b useLlm model sd w res w',
      Engine.runSimulation bm jp fuel ds n R b useLlm model sd w = (Ok res, w') ->
      Engine.members res = n /\
      Forall (fun rd =>
                let v := Engine.roundVote rd in
                (Engine.v_yes v + Engine.v_no v + Engine.v_abstain v = Z.of_nat n)%Z)
        (Engine.rounds res)) /\
  (forall o w res w',
      Client.runSimulationClient o w = (Ok res, w') ->
      Client.useLlm o = true ->
      Client.llmConfig o <> None \/ loadedEngine w <> None ->
      List.length (Client.members res) = Client.numMembers o /\
      NoDup (map member_id (Client.members res)) /\
      Forall (fun rd =>
                let v := Client.roundVote rd in
                NoDup (map fst (Client.rollCall v)) /\
                (forall m, In m (Client.members res) ->
                           exists b, lookup (member_id m) (Client.rollCall v) = Some b) /\
                (Client.v_yes v + Client.v_no v + Client.v_abstain v
                 = Z.of_nat (List.length (Client.rollCall v)))%Z /\
                ((forall k, In k (map fst (Client.rollCall v)) ->
                            In k (map member_id (Client.members res))) ->
                 (Client.v_yes v + Client.v_no v + Client.v_abstain v
                  = Z.of_nat (Client.numMembers o))%Z))
        (Client.rounds res)).
Proof.
  split.
  - intros bm jp fuel ds n R b useLlm model sd w res w' H.
    apply runSimulation_inv in H. destruct H as (ms & _ & Len & Mem & Loop & _).
    split; [exact Mem|].
    apply engine_roundLoop_inv in Loop.
    destruct Loop as [[_ ->]|(_ & sps & v & w1 & w2 & V & ->)]; [constructor|].
    simpl. constructor; [|constructor]. simpl.
    apply asyncVote_spec in V. destruct V as (S & _). rewrite Len in S. exact S.
  - intros o w res w' H U Cfg.
    pose proof H as H'. apply runSimulationClient_inv in H'.
    destruct H' as (w0 & w1 & llm0 & _ & _ & Ids & _).
    assert (List.length (Client.members res) = Client.numMembers o) as Len.
    { rewrite <- (length_map member_id), Ids, length_map, length_seq. reflexivity. }
    assert (NoDup (map member_id (Client.members res))) as ND.
    { rewrite Ids. apply memberIds_NoDup. }
    split; [exact Len|]. split; [exact ND|].
    apply client_rounds_origin in H. destruct H as (llm & _ & On & Origin).
    rewrite (On U Cfg) in Origin.
    eapply Forall_impl; [|exact Origin].
    intros rd (b0 & v0 & v1 & v2 & Sp & C). cbv zeta.
    apply speeches_by_members in Sp.
    apply castVotes_engine in C; [|exact Sp].
    destruct C as (NDk & Cover & Sum & _).
    split; [exact NDk|]. split; [|split; [exact Sum|]].
    + intros m I. apply lookup_In. apply Cover. exact I.
    + intro Sub. rewrite Sum. f_equal.
      rewrite <- Len, <- (length_map member_id), <- (length_map fst).
      apply Nat.le_antisymm; apply NoDup_incl_length; try assumption.
      intros k I. apply in_map_iff in I. destruct I as (m & <- & I).
      apply Cover. exact I.
Qed.

Lemma tally_counts_the_population_witness :
  match Client.runSimulationClient tieRun tieWorld with
  | (Ok res, _) =>
      List.length (Client.members res) = 2 /\
      Forall (fun rd =>
                let v := Client.roundVote rd in
                NoDup (map fst (Client.rollCall v)) /\
                (forall m, In m (Client.members res) ->
                           exists b, lookup (member_id m) (Client.rollCall v) = Some b) /\
                (Client.v_yes v + Client.v_no v + Client.v_abstain v = 2)%Z)
        (Client.rounds res)
  | (Throw _, _) => False
  end.
Proof.
  destruct (Client.runSimulationClient tieRun tieWorld) as [[res|e] w'] eqn:E.
  - pose proof (proj2 tally_counts_the_population tieRun tieWorld res w' E eq_refl
                  ltac:(left; discriminate)) as (Len & _ & Rounds).
    split; [exact Len|].
    rewrite Forall_forall in *. intros rd Ird. specialize (Rounds rd Ird).
    cbv zeta in *. destruct Rounds as (ND & Cover & Sum & Pop).
    split; [exact ND|]. split; [exact Cover|].
    apply Pop.
    vm_compute in E. inversion E; subst res w'. clear E.
    simpl in Ird. destruct Ird as [<-|[]]. simpl.
    intros k [<-|[<-|[]]]; tauto.
  - vm_compute in E. discriminate.
Defined.

(** Why the last part of the statement is conditional: [batchVote] records
    every identifier the reply names, and the tally counts every entry. *)
Lemma stray_identifier_is_counted :
  match fst (Client.runSimulationClient strayIdRun strayIdWorld) with
  | Ok res =>
      List.length (Client.members res) = 1 /\
      map (fun rd => Client.rollCall (Client.roundVote rd)) (Client.rounds res)
      = [[("M-0001", yes); ("M-9999", yes)]] /\
      map (fun rd => Client.v_yes (Client.roundVote rd)) (Client.rounds res) = [2%Z]
  | Throw _ => False
  end.
Proof. vm_compute. repeat split. Qed.

(** ** With five members or more the five speakers are distinct *)

Lemma insertByIdeology_perm m l : Permutation (m :: l) (insertByIdeology m l).
Proof.
  induction l as [|x l IH]; simpl; [apply Permutation_refl|].
  destruct (Qle_bool (ideology m) (ideology x)); [apply Permutation_refl|].
  eapply Permutation_trans; [apply perm_swap|]. apply perm_skip. exact IH.
Qed.

Lemma sortByIdeology_perm l : Permutation l (sortByIdeology l).
Proof.
  induction l as [|m l IH]; simpl; [apply Permutation_refl|].
  eapply Permutation_trans; [apply perm_skip; exact IH|apply insertByIdeology_perm].
Qed.

Lemma picks_NoDup {T} (l : list T) (d : T) (idxs : list nat) :
  NoDup l -> NoDup idxs -> (forall i, In i idxs -> i < List.length l) ->
  NoDup (map (fun i => nth i l d) idxs).
Proof.
  intros NDl NDi Bound. induction idxs as [|i idxs IH]; simpl; constructor.
  - rewrite in_map_iff. intros (j & E & I).
    inversion NDi as [|? ? NI _]; subst. apply NI.
    replace i with j; [exact I|].
    apply (proj1 (NoDup_nth l d) NDl); [| |exact E];
      apply Bound; [right; exact I|left; reflexivity].
  - inversion NDi; subst. apply IH; [assumption|].
    intros j I. apply Bound. right. exact I.
Qed.

Lemma speakers_distinct ms :
  5 <= List.length ms -> NoDup (map member_id ms) ->
  exists picked,
    Client.pickSpeakers ms = map Some picked /\ NoDup (map member_id picked).
Proof.
  intros Len ND.
  assert (NoDup (map member_id (sortByIdeology ms))) as NDs.
  { eapply Permutation_NoDup; [|exact ND].
    apply Permutation_map. apply sortByIdeology_perm. }
  assert (exists d : Member, In d ms) as [d _].
  { destruct ms; [simpl in Len; lia|eexists; left; reflexivity]. }
  unfold Client.pickSpeakers.
  rewrite <- sortByIdeology_length in Len.
  remember (sortByIdeology ms) as sorted eqn:S.
  remember (List.length sorted) as len eqn:L.
  set (idxs := [0; len / 4; len / 2; (3 * len) / 4; len - 1]).
  assert (forall i, In i idxs -> i < len) as Bound.
  { unfold idxs. cbn [In]. intros i [<-|[<-|[<-|[<-|[<-|[]]]]]];
      try (apply Nat.Div0.div_lt_upper_bound); lia. }
  assert (NoDup idxs) as NDi.
  { unfold idxs.
    pose proof (Nat.div_mod_eq len 4). pose proof (Nat.mod_upper_bound len 4 ltac:(lia)).
    pose proof (Nat.div_mod_eq len 2). pose proof (Nat.mod_upper_bound len 2 ltac:(lia)).
    pose proof (Nat.div_mod_eq (3 * len) 4).
    pose proof (Nat.mod_upper_bound (3 * len) 4 ltac:(lia)).
    repeat constructor; cbn [In]; intuition lia. }
  exists (map (fun i => nth i sorted d) idxs). split.
  - replace (Z.of_nat len - 1)%Z with (Z.of_nat (len - 1)) by lia.
    rewrite js_index_nat. unfold idxs. simpl map.
    rewrite !(nth_error_nth' sorted d) by (rewrite <- L; apply Bound; unfold idxs; cbn [In]; tauto).
    reflexivity.
  - rewrite map_map.
    rewrite (map_ext _ (fun i => nth i (map member_id sorted) (member_id d)))
      by (intro i; symmetry; apply map_nth).
    apply picks_NoDup; [exact NDs|exact NDi|].
    rewrite length_map, <- L. exact Bound.
Qed.

Lemma speech_ids llm b r xs :
  forall acc w sps w',
    foldM (Client.speak llm b r) xs acc w = (Ok sps, w') ->
    exists picked,
      xs = map Some picked /\
      map sp_member_id sps = map sp_member_id acc ++ map member_id picked.
Proof.
  induction xs as [|x xs IH]; intros acc w sps w' H; simpl in H.
  - inv_ret H. exists []. rewrite app_nil_r. split; reflexivity.
  - inv_bind H. apply speak_inv in Ha. destruct Ha as (m & s & -> & -> & Id & _).
    apply IH in H. destruct H as (picked & -> & E).
    exists (m :: picked). split; [reflexivity|].
    rewrite E, map_app, <- app_assoc. simpl. rewrite Id. reflexivity.
Qed.

Lemma map_Some_inj {T} (a b : list T) : map Some a = map Some b -> a = b.
Proof.
  revert b. induction a as [|x a IH]; intros [|y b] H; simpl in H;
    try discriminate; [reflexivity|].
  injection H as -> H. f_equal. apply IH. exact H.
Qed.

(** ** C3: a speaker's vote follows the stance it spoke *)

(** C3 (as stated, refuted): without the engine the speakers give speeches
    with a stance while the roll call of the round is empty; a speaker has no
    roll-call entry at all. *)
Lemma heuristic_speaker_has_no_entry :
  match fst (Client.runSimulationClient heuristicRun quietWorld) with
  | Ok res =>
      exists rd s,
        In rd (Client.rounds res) /\ In s (Client.speeches rd) /\
        lookup (sp_member_id s) (Client.rollCall (Client.roundVote rd)) = None
  | Throw _ => False
  end.
Proof.
  vm_compute. eexists. eexists. split; [left; reflexivity|].
  split; [left; reflexivity|reflexivity].
Qed.

(** C3 (amended): in the client with the inference engine, in every round
    the roll-call entry of a speaker is the vote implied by the stance of that
    speaker's last speech of the round; a population of five members or more
    gives five distinct speakers, and then every speech of the round agrees
    with its speaker's entry. *)
Theorem speaker_vote_follows_stance o w res w' :
  Client.runSimulationClient o w = (Ok res, w') ->
  Client.useLlm o = true ->
  Client.llmConfig o <> None \/ loadedEngine w <> None ->
  Forall (fun rd =>
            (forall sps1 s sps2,
                Client.speeches rd = sps1 ++ s :: sps2 ->
                (forall s', In s' sps2 -> sp_member_id s' <> sp_member_id s) ->
                lookup (sp_member_id s) (Client.rollCall (Client.roundVote rd))
                = Some (voteOfStance (stance s))) /\
            (5 <= Client.numMembers o ->
             forall s, In s (Client.speeches rd) ->
                       lookup (sp_member_id s) (Client.rollCall (Client.roundVote rd))
                       = Some (voteOfStance (stance s))))
    (Client.rounds res).
Proof.
  intros H U Cfg.
  pose proof H as H'. apply runSimulationClient_inv in H'.
  destruct H' as (w0 & w1 & llm0 & _ & _ & Ids & _).
  assert (List.length (Client.members res) = Client.numMembers o) as Len.
  { rewrite <- (length_map member_id), Ids, length_map, length_seq. reflexivity. }
  assert (NoDup (map member_id (Client.members res))) as ND.
  { rewrite Ids. apply memberIds_NoDup. }
  apply client_rounds_origin in H. destruct H as (llm & _ & On & Origin).
  rewrite (On U Cfg) in Origin.
  eapply Forall_impl; [|exact Origin].
  intros rd (b0 & v0 & v1 & v2 & Sp & C).
  pose proof Sp as Sp'. apply speeches_by_members in Sp'.
  apply castVotes_engine in C; [|exact Sp'].
  destruct C as (_ & _ & _ & _ & _ & Last & _).
  split; [exact Last|].
  intros Five s I.
  destruct (speakers_distinct (Client.members res)) as (picked & Pick & NDp);
    [lia|exact ND|].
  apply speech_ids in Sp. destruct Sp as (picked' & Pick' & IdsS).
  rewrite Pick in Pick'. apply map_Some_inj in Pick'. subst picked'.
  simpl in IdsS. rewrite <- IdsS in NDp.
  apply in_split in I. destruct I as (sps1 & sps2 & E).
  apply (Last sps1 s sps2 E).
  intros s' I' Same. rewrite E, map_app in NDp. simpl in NDp.
  apply NoDup_remove_2 in NDp. apply NDp.
  apply in_or_app. right. rewrite <- Same. apply in_map. exact I'.
Qed.

(** Why the statement speaks of the last speech: a population below five
    members repeats speakers, each speech comes from a call of its own, and
    the entry follows the last one. *)
Lemma repeated_speaker_follows_last_speech :
  match fst (Client.runSimulationClient strayIdRun waveringWorld) with
  | Ok res =>
      map (fun rd => map stance (Client.speeches rd)) (Client.rounds res)
      = [[support; oppose; support; oppose; oppose]] /\
      map (fun rd => Client.rollCall (Client.roundVote rd)) (Client.rounds res)
      = [[("M-0001", no)]]
  | Throw _ => False
  end.
Proof. vm_compute. split; reflexivity. Qed.

Lemma speaker_vote_follows_stance_witness :
  match Client.runSimulationClient tieRun tieWorld with
  | (Ok res, _) =>
      Forall (fun rd =>
                forall sps1 s sps2,
                  Client.speeches rd = sps1 ++ s :: sps2 ->
                  (forall s', In s' sps2 -> sp_member_id s' <> sp_member_id s) ->
                  lookup (sp_member_id s) (Client.rollCall (Client.roundVote rd))
                  = Some (voteOfStance (stance s)))
        (Client.rounds res)
  | (Throw _, _) => False
  end.
Proof.
  destruct (Client.runSimulationClient tieRun tieWorld) as [[res|e] w'] eqn:E.
  - eapply Forall_impl;
      [|exact (speaker_vote_follows_stance tieRun tieWorld E eq_refl
                 ltac:(left; discriminate))].
    intros rd [Last _]. exact Last.
  - vm_compute in E. discriminate.
Defined.

(** ** C2: amendments between rounds *)

Lemma client_run_shape o w res w' :
  Client.runSimulationClient o w = (Ok res, w') ->
  exists llm,
    (Client.useLlm o = false -> llm = false) /\
    (Client.useLlm o = true ->
     Client.llmConfig o <> None \/ loadedEngine w <> None -> llm = true) /\
    ((Client.optRounds o = 0 /\ Client.rounds res = []) \/
     (exists init final,
         Client.rounds res = init ++ [final] /\
         List.length (init ++ [final]) <= Client.optRounds o /\
         map Client.round_index (init ++ [final])
         = seq 0 (List.length (init ++ [final])) /\
         Forall (fun rd =>
                   Client.passed (Client.roundVote rd) = false /\
                   if llm then exists t, Client.amendment rd = Some t
                   else Client.amendment rd = None) init /\
         Client.amendment final = None /\
         (Client.passed (Client.roundVote final) = true \/
          List.length (init ++ [final]) = Client.optRounds o) /\
         Client.final_passed res = Client.passed (Client.roundVote final))).
Proof.
  intro H. apply runSimulationClient_inv in H.
  destruct H as (w0 & w1 & llm & Init & _ & _ & Llm & Loop & Final).
  apply initEngine_spec in Init. destruct Init as [On Off].
  exists llm. split; [|split].
  - intros U. rewrite U in Llm. exact Llm.
  - intros U C. rewrite U in Llm. specialize (On U C).
    destruct (loadedEngine w0); [exact Llm|congruence].
  - apply client_roundLoop_shape in Loop; [|lia].
    destruct Loop as [[K0 E]|(init & final & E & Len & Idx & F & Am & Last)];
      simpl in E.
    + left. split; assumption.
    + right. exists init, final. rewrite E, last_round in Final.
      repeat (split; [assumption|]). exact Final.
Qed.

Lemma last_index {R} (f : R -> nat) (init : list R) (final : R) :
  map f (init ++ [final]) = seq 0 (List.length (init ++ [final])) ->
  f final = List.length init.
Proof.
  rewrite map_app, length_app. simpl. rewrite seq_app. simpl.
  intro H. apply app_inj_tail in H. destruct H as [_ H]. exact H.
Qed.

(** C2 (as stated, refuted): without the engine a failed round that is not
    the last is followed by the next round, but no amendment is generated or
    recorded. *)
Lemma heuristic_round_fails_without_amendment :
  match fst (Client.runSimulationClient heuristicRun quietWorld) with
  | Ok res =>
      exists rd0 rd1,
        Client.rounds res = [rd0; rd1] /\
        Client.passed (Client.roundVote rd0) = false /\
        Client.amendment rd0 = None
  | Throw _ => False
  end.
Proof. vm_compute. eexists. eexists. repeat split. Qed.

(** C2 (amended): in the client with the inference engine, when round [r]
    fails, is not the last allowed round and the amendment call returns, the
    loop goes on to round [r + 1] with the text appended to the bill's summary
    under the tag of round [r + 1] and recorded on round [r]; in a completed
    run every round but the last has failed and carries its amendment, the
    last carries none.  With a budget of three rounds of which the first two
    fail and the third passes, the result has exactly three rounds, amendments
    on the first two, and [final_passed] is true.  Without the inference
    engine no round carries an amendment, and the engine's [runSimulation]
    leaves its loop after the first round whatever the tally. *)
Theorem amendment_between_rounds :
  (forall o ms k r b acc ns w sps w1 v w2 t w3,
      foldM (Client.speak true b r) (Client.pickSpeakers ms) [] w = (Ok sps, w1) ->
      Client.castVotes true o b ms sps w1 = (Ok v, w2) ->
      Client.passed v = false ->
      S r < Client.optRounds o ->
      Client.generateAmendment b sps true w2 = (Ok t, w3) ->
      Client.roundLoop true o ms (S k) r b acc ns w
      = Client.roundLoop true o ms k (S r) (Client.amendSummary b r t)
          (acc ++ [Client.mkRound r sps v (Some t)])
          (ns ++ [("Amendment Proposed: " ++ t)%string]) w3 /\
      summary (Client.amendSummary b r t)
      = (summary b ++ newline ++ newline ++ "AMENDMENT (Round "
         ++ natToString (r + 1) ++ "): " ++ t)%string) /\
  (forall o w res w',
      Client.runSimulationClient o w = (Ok res, w') ->
      Client.useLlm o = true ->
      Client.llmConfig o <> None \/ loadedEngine w <> None ->
      (Client.rounds res = [] \/
       exists init final,
         Client.rounds res = init ++ [final] /\
         Forall (fun rd => Client.passed (Client.roundVote rd) = false /\
                           exists t, Client.amendment rd = Some t) init /\
         Client.amendment final = None) /\
      (Client.optRounds o = 3 ->
       (forall rd, In rd (Client.rounds res) -> Client.round_index rd < 2 ->
                   Client.passed (Client.roundVote rd) = false) ->
       (forall rd, In rd (Client.rounds res) -> Client.round_index rd = 2 ->
                   Client.passed (Client.roundVote rd) = true) ->
       exists rd1 rd2 rd3 t1 t2,
         Client.rounds res = [rd1; rd2; rd3] /\
         Client.amendment rd1 = Some t1 /\ Client.amendment rd2 = Some t2 /\
         Client.final_passed res = true)) /\
  (forall o w res w',
      Client.runSimulationClient o w = (Ok res, w') ->
      Client.useLlm o = false ->
      Forall (fun rd => Client.amendment rd = None) (Client.rounds res)) /\
  (forall bm jp fuel ds n R b useLlm model sd w res w',
      Engine.runSimulation bm jp fuel ds n R b useLlm model sd w = (Ok res, w') ->
      List.length (Engine.rounds res) <= 1).
Proof.
  split; [|split; [|split]].
  - intros o ms k r b acc ns w sps w1 v w2 t w3 Sp V P Lt Am.
    split; [|reflexivity].
    simpl. erewrite bind_step by exact Sp. erewrite bind_step by exact V.
    rewrite P. apply Nat.ltb_lt in Lt. rewrite Lt.
    erewrite bind_step by exact Am. reflexivity.
  - intros o w res w' H U Cfg.
    apply client_run_shape in H. destruct H as (llm & _ & On & Shape).
    rewrite (On U Cfg) in Shape.
    destruct Shape as [[R0 E]|(init & final & E & Len & Idx & F & Am & Last & Final)].
    + split; [left; exact E|]. intros R3. lia.
    + split; [right; exists init, final; repeat split; assumption|].
      intros R3 Fail Pass. rewrite R3 in *.
      pose proof (last_index _ _ _ Idx) as IdxF.
      rewrite length_app in *. simpl in Len, Last.
      assert (List.length init = 2) as L2.
      { destruct Last as [Pt|L]; [|lia].
        destruct (Nat.lt_ge_cases (Client.round_index final) 2) as [Lt|Ge]; [|lia].
        rewrite Fail in Pt; [discriminate| |exact Lt].
        rewrite E. apply in_or_app. right. left. reflexivity. }
      destruct init as [|rd1 [|rd2 [|rd3 init]]]; simpl in L2; try lia.
      inversion F as [|? ? [_ [t1 A1]] F']; subst.
      inversion F' as [|? ? [_ [t2 A2]] _]; subst.
      exists rd1, rd2, final, t1, t2. simpl in E.
      split; [exact E|]. split; [exact A1|]. split; [exact A2|].
      rewrite Final. apply Pass; [|exact IdxF].
      rewrite E. right. right. left. reflexivity.
  - intros o w res w' H U.
    apply client_run_shape in H. destruct H as (llm & Off & _ & Shape).
    rewrite (Off U) in Shape.
    destruct Shape as [[_ E]|(init & final & E & _ & _ & F & Am & _)]; rewrite E.
    + constructor.
    + apply Forall_app. split; [|constructor; [exact Am|constructor]].
      eapply Forall_impl; [|exact F]. intros rd [_ N]. exact N.
  - intros bm jp fuel ds n R b useLlm model sd w res w' H.
    apply runSimulation_inv in H. destruct H as (ms & _ & _ & _ & Loop & _).
    apply engine_roundLoop_inv in Loop.
    destruct Loop as [[_ ->]|(_ & sps & v & w1 & w2 & _ & ->)]; simpl; lia.
Qed.

Lemma amendment_between_rounds_witness :
  match Client.runSimulationClient threeRoundsRun threeRoundsWorld with
  | (Ok res, _) =>
      exists rd1 rd2 rd3 t1 t2,
        Client.rounds res = [rd1; rd2; rd3] /\
        Client.amendment rd1 = Some t1 /\ Client.amendment rd2 = Some t2 /\
        Client.final_passed res = true
  | (Throw _, _) => False
  end.
Proof.
  destruct (Client.runSimulationClient threeRoundsRun threeRoundsWorld)
    as [[res|e] w'] eqn:E.
  - apply (proj2 (proj1 (proj2 amendment_between_rounds)
                    threeRoundsRun threeRoundsWorld res w' E eq_refl
                    ltac:(left; discriminate))).
    + reflexivity.
    + vm_compute in E. inversion E; subst res w'. clear E.
      intros rd I Lt. simpl in I.
      destruct I as [<-|[<-|[<-|[]]]]; simpl in *; try reflexivity; lia.
    + vm_compute in E. inversion E; subst res w'. clear E.
      intros rd I Eq. simpl in I.
      destruct I as [<-|[<-|[<-|[]]]]; simpl in *; try reflexivity; discriminate.
  - vm_compute in E. discriminate.
Defined.

(** ** C1: what the seed determines *)

(** C1 (the code at a failing input): with the same seed, districts and
    configuration and no inference, two runs differ as soon as
    [Math.random()] differs: the engine's [decideVote] draws its vote from it
    (one run passes the bill, the other rejects it), and the client's
    [sampleMembers] draws the ideologies from it and never reads its seed (the
    single speaker supports in one run and opposes in the other). *)
Theorem seed_does_not_fix_the_result bm jp fuel :
  match fst (Engine.runSimulation bm jp fuel [mockDistrict "d1" 0] 1 1 mockBill
               false modelName (Some 42%Z) highDraws),
        fst (Engine.runSimulation bm jp fuel [mockDistrict "d1" 0] 1 1 mockBill
               false modelName (Some 42%Z) lowDraws) with
  | Ok r1, Ok r2 =>
      Engine.final_passed r1 = true /\ Engine.final_passed r2 = false
  | _, _ => False
  end /\
  match fst (Client.runSimulationClient seededRun highDraws),
        fst (Client.runSimulationClient seededRun lowDraws) with
  | Ok r1, Ok r2 =>
      map (fun rd => map stance (Client.speeches rd)) (Client.rounds r1)
      = [[support; support; support; support; support]] /\
      map (fun rd => map stance (Client.speeches rd)) (Client.rounds r2)
      = [[oppose; oppose; oppose; oppose; oppose]]
  | _, _ => False
  end.
Proof.
  split.
  - vm_compute. split; reflexivity.
  - vm_compute. repeat split.
Qed.

(** ** C7: what the decision backend returns *)

(** C7 (the code at a failing input): the endpoint answers with well-formed
    JSON whose vote is "Maybe"; [decideVote] returns the vote "maybe", which
    is none of "yes", "no" and "abstain". *)
Theorem decideVote_returns_unknown_vote jp :
  jp undecidedReply = Some undecidedJson ->
  fst (Agents.decideVote jp mockMember mockBill true "llama3.2" undecidedWorld)
  = Ok (Agents.mkDecision "maybe" (JStr "Unsure.")).
Proof.
  intro P. unfold Agents.decideVote, catch, bind. simpl.
  unfold Agents.parseDecision.
  replace (trim (removeAll "```" (removeAll "```json" undecidedReply)))
    with undecidedReply by (vm_compute; reflexivity).
  rewrite P. reflexivity.
Qed.

Lemma decideVote_returns_unknown_vote_witness :
  fst (Agents.decideVote (parseOnly undecidedReply undecidedJson) mockMember mockBill
         true "llama3.2" undecidedWorld)
  = Ok (Agents.mkDecision "maybe" (JStr "Unsure.")).
Proof.
  apply decideVote_returns_unknown_vote. vm_compute. reflexivity.
Defined.

(** ** C8: a failing amendment call *)

(** The fallback of [generateAmendment]: an empty or missing content is
    replaced by the generic amendment. *)
Lemma generateAmendment_fallback b sps w c :
  completion w (completionCalls w) = Content c ->
  c = None \/ c = Some EmptyString ->
  fst (Client.generateAmendment b sps true w)
  = Ok "Add a budgetary oversight committee to monitor spending.".
Proof.
  intros C E. unfold Client.generateAmendment, bind, createCompletion.
  rewrite C. destruct E as [-> | ->]; reflexivity.
Qed.

(** C8 (the code at a failing input): the first round fails, a round is left,
    and the engine rejects the call that asks for the amendment; the run
    ends with that rejection instead of a result. *)
Theorem rejected_amendment_aborts_the_run :
  fst (Client.runSimulationClient threeRoundsRun rejectedAmendmentWorld)
  = Throw Rejected.
Proof. vm_compute. reflexivity. Qed.

(** * Further properties of the embedded code *)

(** ** The random source ([rng.ts]) *)

Lemma next_bounds g :
  (0 <= Rng.seed g)%Z ->
  (0 <= fst (Rng.next g))%Q /\ (fst (Rng.next g) < 1)%Q /\
  (0 <= Rng.seed (snd (Rng.next g)) < 4294967296)%Z.
Proof.
  intro H. unfold Rng.next; cbn [fst snd Rng.seed].
  assert (0 <= Z.rem (Rng.seed g * 1664525 + 1013904223) 4294967296 < 4294967296)%Z
    as B by (apply Z.rem_bound_pos; lia).
  split; [|split].
  - unfold Qle; cbn [Qnum Qden]. lia.
  - unfold Qlt; cbn [Qnum Qden]. lia.
  - exact B.
Qed.

Lemma next_exact g :
  Rng.exactState g ->
  Rng.exactState (snd (Rng.next g)) /\
  (0 <= fst (Rng.next g))%Q /\ (fst (Rng.next g) < 1)%Q.
Proof.
  intros [H _]. destruct (next_bounds g H) as (U0 & U1 & St).
  split; [exact St|]. split; assumption.
Qed.

Lemma afterDraws_exact k : forall g, Rng.exactState g -> Rng.exactState (afterDraws k g).
Proof.
  induction k as [|k IH]; intros g H; cbn [afterDraws]; [exact H|].
  apply IH. exact (proj1 (next_exact H)).
Qed.

(** X1: [next]: from a state in [0, 2^32), where the arithmetic of the code is
    exact, the state stays in [0, 2^32) after any number of draws, every draw
    lies in [0, 1), and each draw is the new state divided by 2^32. *)
Theorem draws_stay_in_range (g : Rng.Random) (k : nat) :
  Rng.exactState g ->
  Rng.exactState (afterDraws k g) /\
  (0 <= fst (Rng.next (afterDraws k g)) < 1)%Q /\
  fst (Rng.next (afterDraws k g)) = (Rng.seed (afterDraws (S k) g) # 4294967296).
Proof.
  intro H. pose proof (afterDraws_exact k H) as E.
  split; [exact E|].
  destruct (next_exact E) as (_ & U0 & U1).
  split; [split; assumption|].
  clear. revert g. induction k as [|k IH]; intro g; [reflexivity|].
  exact (IH (snd (Rng.next g))).
Qed.

Lemma draws_stay_in_range_witness :
  Rng.exactState (afterDraws 3 (Rng.mkRandom 42)) /\
  (0 <= fst (Rng.next (afterDraws 3 (Rng.mkRandom 42))) < 1)%Q /\
  fst (Rng.next (afterDraws 3 (Rng.mkRandom 42)))
  = (Rng.seed (afterDraws 4 (Rng.mkRandom 42)) # 4294967296).
Proof.
  apply (@draws_stay_in_range (Rng.mkRandom 42) 3).
  unfold Rng.exactState. cbn. lia.
Defined.

Lemma redraw_more_fuel n :
  forall g r, Rng.redraw n g = Some r -> forall m, Rng.redraw (n + m) g = Some r.
Proof.
  induction n as [|n IH]; intros g r H m; [discriminate|].
  cbn [Rng.redraw Nat.add] in *.
  destruct (Rng.next g) as [u g'].
  destruct (Qeq_bool u 0); [apply IH; exact H|exact H].
Qed.

(** X2: [gauss]: each loop [while (u === 0) u = this.next()] ends after at most two
    draws, from every state: a larger bound on the iterations changes nothing,
    the value kept is not 0, and [gauss] returns. *)
Theorem gauss_redraws_at_most_twice (bm : Q -> Q -> Q) (mu sigma : Q)
  (g : Rng.Random) (n : nat) :
  (exists u g', Rng.redraw (2 + n) g = Some (u, g') /\
                Rng.redraw 2 g = Some (u, g') /\ ~ (u == 0)%Q /\
                (g' = snd (Rng.next g) \/ g' = snd (Rng.next (snd (Rng.next g))))) /\
  (exists x g', Rng.gauss bm mu sigma g = Ok (x, g')).
Proof.
  split; [|apply gauss_total].
  destruct (redraw_total g) as (u & g' & R & NZ).
  exists u, g'. split; [apply redraw_more_fuel; exact R|].
  split; [exact R|]. split.
  - intro Z0. apply Qeq_bool_iff in Z0. congruence.
  - cbn [Rng.redraw] in R.
    destruct (Rng.next g) as [u1 g1]; cbn [snd].
    destruct (Qeq_bool u1 0).
    + destruct (Rng.next g1) as [u2 g2]; cbn [snd].
      destruct (Qeq_bool u2 0); [discriminate|].
      right. congruence.
    + left. congruence.
Qed.



(** The loop of [choice] over weights that cover the items. *)
Lemma scan_found {T} (items : list T) :
  forall (ws : list Q) (r s : Q) (x : T),
    List.length ws = List.length items ->
    Rng.scan r (Some s) items ws = Some x ->
    exists i w,
      nth_error items i = Some x /\ nth_error ws i = Some w /\
      (r < fold_left Qplus (firstn i ws) s + w)%Q /\
      (i = 0%nat \/ (fold_left Qplus (firstn i ws) s <= r)%Q).
Proof.
  induction items as [|y items IH]; intros ws r s x L H; [discriminate|].
  destruct ws as [|w ws]; [discriminate|].
  cbn [Rng.scan tl] in H.
  destruct (Qltb r (s + w)) eqn:E.
  - injection H as <-. exists 0, w. cbn.
    split; [reflexivity|]. split; [reflexivity|].
    split; [apply Qltb_lt; exact E|left; reflexivity].
  - cbn [List.length] in L. injection L as L.
    destruct (IH ws r (s + w)%Q x L H) as (i & w' & Hi & Hw & Up & Lo).
    exists (S i), w'. cbn [nth_error firstn fold_left].
    split; [exact Hi|]. split; [exact Hw|]. split; [exact Up|].
    right. destruct Lo as [->|Lo]; [|exact Lo].
    cbn [firstn fold_left].
    apply Qnot_lt_le. intro C. apply Qltb_lt in C. congruence.
Qed.

Lemma scan_missed {T} (items : list T) :
  forall (ws : list Q) (r s : Q),
    List.length ws = List.length items ->
    Rng.scan r (Some s) items ws = None ->
    items = [] \/ (fold_left Qplus ws s <= r)%Q.
Proof.
  induction items as [|y items IH]; intros ws r s L H; [left; reflexivity|].
  right. destruct ws as [|w ws]; [discriminate|].
  cbn [Rng.scan tl] in H.
  destruct (Qltb r (s + w)) eqn:E; [discriminate|].
  cbn [List.length] in L. injection L as L.
  cbn [fold_left].
  destruct (IH ws r (s + w)%Q L H) as [->|Le]; [|exact Le].
  destruct ws; [|discriminate]. cbn [fold_left].
  apply Qnot_lt_le. intro C. apply Qltb_lt in C. congruence.
Qed.

Lemma scan_In {T} (items : list T) :
  forall ws r s x, Rng.scan r s items ws = Some x -> In x items.
Proof.
  induction items as [|y items IH]; intros ws r s x H; [discriminate|].
  cbn [Rng.scan] in H.
  destruct (match
               match s with
               | Some s0 => match ws with
                            | [] => None
                            | w :: _ => Some (s0 + w)%Q
                            end
               | None => None
               end
             with Some s0 => Qltb r s0 | None => false end).
  - injection H as <-. left; reflexivity.
  - right. exact (IH _ _ _ _ H).
Qed.

Lemma weighted_choice_In {T} (items : list T) (g : Rng.Random) (ws : list Q) :
  items <> [] ->
  exists x,
    Rng.choice items (Some ws) g = Ok (Some x, snd (Rng.next g)) /\ In x items.
Proof.
  intro NE. destruct items as [|y items]; [congruence|].
  unfold Rng.choice.
  destruct (Rng.next g) as [u g'] eqn:E. cbn [snd].
  destruct (Rng.scan (u * Qsum ws) (Some 0%Q) (y :: items) ws) as [x|] eqn:S.
  - exists x. split; [reflexivity|]. exact (scan_In _ _ _ _ S).
  - rewrite (js_index_last y items y).
    exists (last (y :: items) y). split; [reflexivity|].
    destruct (exists_last (l:=y :: items)) as (l' & a & EQ); [discriminate|].
    rewrite EQ. rewrite last_last. apply in_or_app. right. left. reflexivity.
Qed.

(** X3: [choice]: on a non-empty array the weighted form returns one of the items
    whatever the weights and the state are (too few weights, negative ones, a
    zero total); the form without weights does so from a state in [0, 2^32),
    where the draw lies in [0, 1) and the index inside the array. *)
Theorem choice_returns_an_item {T} (items : list T) (g : Rng.Random) :
  items <> [] ->
  (forall ws, exists x,
      Rng.choice items (Some ws) g = Ok (Some x, snd (Rng.next g)) /\ In x items) /\
  (Rng.exactState g ->
   exists x, Rng.choice items None g = Ok (Some x, snd (Rng.next g)) /\ In x items).
Proof.
  intro NE. split.
  - intro ws. apply weighted_choice_In. exact NE.
  - destruct items as [|y items]; [congruence|].
    intros [Hs _]. unfold Rng.choice.
    destruct (next_bounds g Hs) as (U0 & U1 & _).
    destruct (Rng.next g) as [u g'] eqn:E. cbn [fst snd] in *.
    set (n := List.length (y :: items)).
    assert (0 < Z.of_nat n)%Z as Npos by (subst n; cbn [List.length]; lia).
    assert (0 <= Qfloor (u * inject_Z (Z.of_nat n)))%Z as F0.
    { change 0%Z with (Qfloor 0). apply Qfloor_resp_le.
      apply Qmult_le_0_compat; [exact U0|].
      unfold Qle; cbn [Qnum Qden inject_Z]. lia. }
    assert (Qfloor (u * inject_Z (Z.of_nat n)) < Z.of_nat n)%Z as F1.
    {
      destruct (Z_lt_le_dec (Qfloor (u * inject_Z (Z.of_nat n))) (Z.of_nat n))
        as [L|L]; [exact L|exfalso].
      assert (inject_Z (Z.of_nat n) <= u * inject_Z (Z.of_nat n))%Q as C.
      { apply Qle_trans with (inject_Z (Qfloor (u * inject_Z (Z.of_nat n)))).
        - rewrite <- Zle_Qle. exact L.
        - apply Qfloor_le. }
      assert (u * inject_Z (Z.of_nat n) < 1 * inject_Z (Z.of_nat n))%Q as D.
      { apply Qmult_lt_r; [|exact U1].
        unfold Qlt; cbn [Qnum Qden inject_Z]. lia. }
      rewrite Qmult_1_l in D. exact (Qlt_not_le _ _ D C). }
    unfold js_index.
    destruct (Qfloor (u * inject_Z (Z.of_nat n)) <? 0)%Z eqn:Neg;
      [apply Z.ltb_lt in Neg; lia|].
    destruct (nth_error (y :: items) (Z.to_nat (Qfloor (u * inject_Z (Z.of_nat n)))))
      as [x|] eqn:N.
    + exists x. split; [reflexivity|]. exact (nth_error_In _ _ N).
    + apply nth_error_None in N. fold n in N. lia.
Qed.

Lemma choice_returns_an_item_witness :
  (forall ws, exists x,
      Rng.choice ["a"; "b"; "c"] (Some ws) (Rng.mkRandom 7)
      = Ok (Some x, snd (Rng.next (Rng.mkRandom 7))) /\ In x ["a"; "b"; "c"]) /\
  (exists x, Rng.choice ["a"; "b"; "c"] None (Rng.mkRandom 7)
             = Ok (Some x, snd (Rng.next (Rng.mkRandom 7))) /\ In x ["a"; "b"; "c"]).
Proof.
  destruct (@choice_returns_an_item string ["a"; "b"; "c"] (Rng.mkRandom 7)) as [A B].
  - discriminate.
  - split; [exact A|]. apply B. unfold Rng.exactState. cbn. lia.
Defined.

(** The weighted [choice] over exact numbers: the item returned is the first
    whose cumulative weight exceeds the threshold. *)
Lemma weighted_choice_cdf {T} (items : list T) (ws : list Q) (g : Rng.Random) :
  List.length ws = List.length items ->
  (0 < Qsum ws)%Q ->
  (0 <= Rng.seed g)%Z ->
  exists i x w,
    Rng.choice items (Some ws) g = Ok (Some x, snd (Rng.next g)) /\
    nth_error items i = Some x /\ nth_error ws i = Some w /\
    (Qsum (firstn i ws) <= fst (Rng.next g) * Qsum ws)%Q /\
    (fst (Rng.next g) * Qsum ws < Qsum (firstn i ws) + w)%Q /\
    (0 < w)%Q.
Proof.
  intros L Tpos Hs.
  destruct (next_bounds g Hs) as (U0 & U1 & _).
  assert (items <> []) as NE.
  { intro E. subst items. destruct ws; [|discriminate].
    exact (Qlt_irrefl _ Tpos). }
  destruct items as [|y items]; [congruence|].
  unfold Rng.choice.
  destruct (Rng.next g) as [u g'] eqn:E. cbn [fst snd] in *.
  assert (0 <= u * Qsum ws)%Q as R0.
  { apply Qmult_le_0_compat; [exact U0|apply Qlt_le_weak; exact Tpos]. }
  assert (u * Qsum ws < Qsum ws)%Q as R1.
  { rewrite <- (Qmult_1_l (Qsum ws)) at 2. apply Qmult_lt_r; assumption. }
  destruct (Rng.scan (u * Qsum ws) (Some 0%Q) (y :: items) ws) as [x|] eqn:S.
  - destruct (@scan_found T _ _ _ _ _ L S) as (i & w & Hi & Hw & Up & Lo).
    assert (Qsum (firstn i ws) <= u * Qsum ws)%Q as Lo'.
    { destruct Lo as [->|Lo]; [exact R0|exact Lo]. }
    exists i, x, w. split; [reflexivity|].
    split; [exact Hi|]. split; [exact Hw|]. split; [exact Lo'|].
    split; [exact Up|].
    apply Qplus_lt_r with (Qsum (firstn i ws)).
    rewrite Qplus_0_r.
    apply Qle_lt_trans with (u * Qsum ws)%Q; [exact Lo'|exact Up].
  - exfalso. destruct (@scan_missed T _ _ _ _ L S) as [C|C]; [discriminate|].
    exact (Qlt_not_le _ _ R1 C).
Qed.

(** X4: [choice] with one weight per item is the inverse of the cumulative
    weights, where the arithmetic of the code is exact: for whole, non-negative
    weights with a positive total below 2^21 and a state in [0, 2^32) (every
    product and sum is then a multiple of 2^-32 below 2^53), the item returned
    is the first whose cumulative weight exceeds [next() * total].  Its own
    weight is therefore positive: an item of weight zero is never returned. *)
Theorem weighted_choice_is_inverse_cdf {T} (items : list T) (zs : list Z)
  (g : Rng.Random) :
  List.length zs = List.length items ->
  Forall (fun z => 0 <= z)%Z zs ->
  (0 < Qsum (map inject_Z zs))%Q ->
  (Qsum (map inject_Z zs) < inject_Z 2097152)%Q ->
  Rng.exactState g ->
  exists i x z,
    Rng.choice items (Some (map inject_Z zs)) g = Ok (Some x, snd (Rng.next g)) /\
    nth_error items i = Some x /\ nth_error zs i = Some z /\
    (Qsum (firstn i (map inject_Z zs))
     <= fst (Rng.next g) * Qsum (map inject_Z zs))%Q /\
    (fst (Rng.next g) * Qsum (map inject_Z zs)
     < Qsum (firstn i (map inject_Z zs)) + inject_Z z)%Q /\
    (0 < z)%Z.
Proof.
  intros L _ Tpos _ [Hs _].
  destruct (@weighted_choice_cdf T items (map inject_Z zs) g) as
    (i & x & w & C & Hi & Hw & Lo & Up & Pos);
    [rewrite length_map; exact L|exact Tpos|exact Hs|].
  rewrite nth_error_map in Hw.
  destruct (nth_error zs i) as [z|] eqn:Hz; [|discriminate].
  cbn [option_map] in Hw. injection Hw as <-.
  exists i, x, z. split; [exact C|]. split; [exact Hi|]. split; [exact Hz|].
  split; [exact Lo|]. split; [exact Up|].
  rewrite Zlt_Qlt. exact Pos.
Qed.

Lemma weighted_choice_is_inverse_cdf_witness :
  exists i x z,
    Rng.choice ["a"; "b"; "c"] (Some (map inject_Z [0; 1; 3]%Z)) (Rng.mkRandom 7)
    = Ok (Some x, snd (Rng.next (Rng.mkRandom 7))) /\
    nth_error ["a"; "b"; "c"] i = Some x /\ nth_error [0; 1; 3]%Z i = Some z /\
    (Qsum (firstn i (map inject_Z [0; 1; 3]%Z))
     <= fst (Rng.next (Rng.mkRandom 7)) * Qsum (map inject_Z [0; 1; 3]%Z))%Q /\
    (fst (Rng.next (Rng.mkRandom 7)) * Qsum (map inject_Z [0; 1; 3]%Z)
     < Qsum (firstn i (map inject_Z [0; 1; 3]%Z)) + inject_Z z)%Q /\
    (0 < z)%Z.
Proof.
  apply (@weighted_choice_is_inverse_cdf string ["a"; "b"; "c"] [0; 1; 3]%Z
           (Rng.mkRandom 7)).
  - reflexivity.
  - repeat constructor; lia.
  - reflexivity.
  - reflexivity.
  - unfold Rng.exactState. cbn. lia.
Defined.

(** X5: [choices]: on a non-empty array it returns exactly [k] items of the array;
    on an empty one it throws as soon as it draws, so only [k = 0] returns. *)
Theorem choices_returns_k_items {T} (items : list T) (ws : list Q) (k : nat) :
  forall g,
    (items <> [] ->
     exists xs g', Rng.choices items ws k g = Ok (map Some xs, g') /\
                   List.length xs = k /\ Forall (fun x => In x items) xs) /\
    (items = [] ->
     Rng.choices items ws k g
     = match k with
       | O => Ok ([], g)
       | S _ => Throw (Error "Empty items")
       end).
Proof.
  induction k as [|k IH]; intro g.
  - split.
    + intros _. exists [], g. repeat split; constructor.
    + intros _. reflexivity.
  - split.
    + intro NE.
      destruct (@weighted_choice_In T items g ws NE) as (x & C & I).
      destruct (proj1 (IH (snd (Rng.next g))) NE) as (xs & g' & R & Len & All).
      exists (x :: xs), g'. cbn [Rng.choices]. rewrite C, R.
      split; [reflexivity|]. split; [cbn; congruence|].
      constructor; assumption.
    + intros ->. reflexivity.
Qed.

Lemma choices_returns_k_items_witness :
  (["a"; "b"] <> [] ->
   exists xs g', Rng.choices ["a"; "b"] [1; 1]%Q 3 (Rng.mkRandom 7) = Ok (map Some xs, g') /\
                 List.length xs = 3 /\ Forall (fun x => In x ["a"; "b"]) xs) /\
  (@nil string = [] ->
   Rng.choices (@nil string) [1; 1]%Q 3 (Rng.mkRandom 7) = Throw (Error "Empty items")).
Proof.
  split.
  - exact (proj1 (@choices_returns_k_items string ["a"; "b"] [1; 1]%Q 3 (Rng.mkRandom 7))).
  - exact (proj2 (@choices_returns_k_items string [] [1; 1]%Q 3 (Rng.mkRandom 7))).
Defined.

(** ** The decision backend and the speeches ([agents.ts], [debate.ts]) *)

(** X6: [decideVote] never throws, whatever the model name and the endpoint do.
    Without the LLM it votes yes or no after exactly one [Math.random()]; with
    it, it makes exactly one request for a local model and none for any other
    model name. *)
Theorem decideVote_always_decides jp m b useLlm model w :
  exists d,
    Agents.decideVote jp m b useLlm model w
    = (Ok d,
       if useLlm then (if Agents.isLocalModel model then snd (fetch w) else w)
       else snd (random w)) /\
    (if useLlm then True
     else Agents.vote d = "yes" \/ Agents.vote d = "no").
Proof.
  unfold Agents.decideVote. destruct useLlm; cbn [negb].
  - unfold catch, bind, Agents.requestDecision.
    destruct (Agents.isLocalModel model).
    + unfold bind, fetch; cbn [snd].
      destruct (fetched w (fetchCalls w)) as [|ok [data|]]; cbn;
        try (eexists; split; [reflexivity|exact I]).
      unfold lift. destruct (getProp data "response") as [v|e];
        [|eexists; split; [reflexivity|exact I]].
      destruct (Agents.parseDecision jp v); cbn;
        eexists; (split; [reflexivity|exact I]).
    + cbn. eexists; split; [reflexivity|exact I].
  - unfold bind, random, ret; cbn [snd].
    eexists; split; [reflexivity|]. cbn [Agents.vote].
    destruct (Qgtb _ _); [left|right]; reflexivity.
Qed.

(** X7: The two error paths of [decideVote]: whatever fails before the reply text
    is in hand (a model name that is not a local one, a rejected request, a
    body that is not JSON, a [null] body) gives an abstention with the
    rationale "Error in decision process."; whatever fails while the text is
    decoded gives one with "Failed to parse reasoning.".  A decoded reply is
    returned as it is. *)
Theorem decideVote_abstains_on_failure jp m b model w :
  let result := fst (Agents.decideVote jp m b true model w) in
  let abstainWith r := Ok (Agents.mkDecision "abstain" (JStr r)) in
  if Agents.isLocalModel model then
    match fetched w (fetchCalls w) with
    | NetworkError | Response _ None =>
        result = abstainWith "Error in decision process."
    | Response _ (Some data) =>
        match getProp data "response" with
        | Throw _ => result = abstainWith "Error in decision process."
        | Ok v =>
            match Agents.parseDecision jp v with
            | Throw _ => result = abstainWith "Failed to parse reasoning."
            | Ok d => result = Ok d
            end
        end
    end
  else
    Agents.decideVote jp m b true model w
    = (abstainWith "Error in decision process.", w).
Proof.
  cbv zeta.
  pose proof (decideVote_outcomes jp m b model w) as O.
  unfold Agents.requestDecision in O.
  destruct (Agents.isLocalModel model).
  - unfold bind, fetch, throw, lift in O.
    destruct (fetched w (fetchCalls w)) as [|ok [data|]]; cbv beta iota in O.
    + rewrite O. reflexivity.
    + destruct (getProp data "response") as [v|e]; [|rewrite O; reflexivity].
      destruct (Agents.parseDecision jp v); rewrite O; reflexivity.
    + rewrite O. reflexivity.
  - unfold throw in O. cbv beta iota in O. exact O.
Qed.

(** X8: [generateSpeech] never throws and falls back to the template: its text is
    the trimmed [response] of a successful reply of the local endpoint, and the
    template speech in every other case (LLM off, another model name, a
    rejected request, a status that is not ok, a body without a string
    [response]).  It makes a request only with the LLM on and a local model. *)
Theorem generateSpeech_falls_back_to_template m s b useLlm model w :
  exists t,
    Debate.generateSpeech m s b useLlm model w
    = (Ok t, if (useLlm && Agents.isLocalModel model)%bool then snd (fetch w) else w) /\
    (t = Debate.templateSpeech m s b \/
     (useLlm = true /\ Agents.isLocalModel model = true /\
      exists data raw,
        fetched w (fetchCalls w) = Response true (Some data) /\
        getProp data "response" = Ok (JStr raw) /\ t = trim raw)).
Proof.
  unfold Debate.generateSpeech. destruct useLlm; cbn [negb andb].
  - destruct (Agents.isLocalModel model).
    + unfold bind, fetch; cbn [snd].
      destruct (fetched w (fetchCalls w)) as [|[|] [data|]] eqn:F;
        try (eexists; split; [reflexivity|left; reflexivity]).
      unfold Debate.responseText.
      destruct (getProp data "response") as [[| | | |raw| |]|e] eqn:G;
        try (eexists; split; [reflexivity|left; reflexivity]).
      exists (trim raw). split; [reflexivity|].
      right. split; [reflexivity|]. split; [reflexivity|].
      exists data, raw. repeat split; assumption.
    + eexists; split; [reflexivity|left; reflexivity].
  - eexists; split; [reflexivity|left; reflexivity].
Qed.

(** ** The engine's population ([engine.ts]) *)

Lemma Qle_bool_false x y : Qle_bool x y = false -> (y < x)%Q.
Proof.
  intro H. apply Qnot_le_lt. intro L. apply Qle_bool_iff in L. congruence.
Qed.

Lemma clamp_range x : (-1 <= clamp x)%Q /\ (clamp x <= 1)%Q.
Proof.
  unfold clamp, Qmax, Qmin.
  destruct (Qle_bool 1 x) eqn:A.
  - destruct (Qle_bool (-1) 1) eqn:B; [|discriminate].
    split; [discriminate|apply Qle_refl].
  - apply Qle_bool_false in A.
    destruct (Qle_bool (-1) x) eqn:B.
    + apply Qle_bool_iff in B. split; [exact B|apply Qlt_le_weak; exact A].
    + split; [apply Qle_refl|discriminate].
Qed.





(** ** The spokespeople *)

Lemma insertByIdeology_sorted m l :
  Sorted byIdeology l -> Sorted byIdeology (insertByIdeology m l).
Proof.
  induction l as [|x l IH]; intro S; cbn [insertByIdeology].
  - constructor; constructor.
  - destruct (Qle_bool (ideology m) (ideology x)) eqn:E.
    + constructor; [exact S|]. constructor. apply Qle_bool_iff in E. exact E.
    + apply Qle_bool_false in E. inversion S as [|? ? S' Hd]; subst.
      constructor; [apply IH; exact S'|].
      destruct l as [|y l]; cbn [insertByIdeology].
      * constructor. apply Qlt_le_weak; exact E.
      * destruct (Qle_bool (ideology m) (ideology y)); constructor.
        -- apply Qlt_le_weak; exact E.
        -- inversion Hd; assumption.
Qed.

Lemma sortByIdeology_sorted l : StronglySorted byIdeology (sortByIdeology l).
Proof.
  apply Sorted_StronglySorted.
  - intros a b c. unfold byIdeology. apply Qle_trans.
  - induction l as [|m l IH]; cbn [sortByIdeology]; [constructor|].
    apply insertByIdeology_sorted. exact IH.
Qed.

Lemma sortByIdeology_ids_NoDup l :
  NoDup (map member_id l) -> NoDup (map member_id (sortByIdeology l)).
Proof.
  apply Permutation_NoDup. apply Permutation_map. apply sortByIdeology_perm.
Qed.

Lemma seenHas_In seen id : Engine.seenHas seen id = true <-> In id seen.
Proof. unfold Engine.seenHas. apply existsb_eqb_In. Qed.

Lemma pickFixed_inv sortedM idxs :
  forall chosen seen c s,
    Engine.pickFixed sortedM idxs chosen seen = Ok (c, s) ->
    seen = map member_id chosen -> NoDup seen -> incl chosen sortedM ->
    s = map member_id c /\ NoDup s /\ incl c sortedM /\
    List.length c <= List.length chosen + List.length idxs /\
    (forall id, In id seen -> In id s) /\
    (forall i m, In i idxs -> nth_error sortedM i = Some m -> In (member_id m) s).
Proof.
  induction idxs as [|i idxs IH]; intros chosen seen c s H Hs Hn Hi;
    cbn [Engine.pickFixed] in H.
  - injection H as <- <-.
    refine (conj Hs (conj Hn (conj Hi (conj _ (conj (fun _ I => I) _))))).
    + cbn [List.length]. lia.
    + intros i m [].
  - destruct (nth_error sortedM i) as [m|] eqn:N; [|discriminate].
    destruct (Engine.seenHas seen (member_id m)) eqn:Seen.
    + destruct (IH _ _ _ _ H Hs Hn Hi) as (A & B & C & D & E & F).
      refine (conj A (conj B (conj C (conj _ (conj E _))))).
      * cbn [List.length]. lia.
      * intros j m' [<-|J] Nj; [|exact (F _ _ J Nj)].
        rewrite N in Nj. injection Nj as <-.
        apply E. apply seenHas_In. exact Seen.
    + assert (~ In (member_id m) seen) as Fresh.
      { intro I. apply seenHas_In in I. congruence. }
      assert (seen ++ [member_id m] = map member_id (chosen ++ [m])) as Hs'.
      { rewrite map_app. rewrite Hs. reflexivity. }
      assert (NoDup (seen ++ [member_id m])) as Hn'.
      { apply NoDup_app; [exact Hn|repeat constructor; intros []|].
        intros x Ix [<-|[]]. exact (Fresh Ix). }
      assert (incl (chosen ++ [m]) sortedM) as Hi'.
      { intros x Ix. apply in_app_or in Ix. destruct Ix as [Ix|[<-|[]]];
          [exact (Hi _ Ix)|exact (nth_error_In _ _ N)]. }
      destruct (IH _ _ _ _ H Hs' Hn' Hi') as (A & B & C & D & E & F).
      refine (conj A (conj B (conj C (conj _ (conj _ _))))).
      * rewrite length_app in D. cbn [List.length] in *. lia.
      * intros id I. apply E. apply in_or_app. left. exact I.
      * intros j m' [<-|J] Nj; [|exact (F _ _ J Nj)].
        rewrite N in Nj. injection Nj as <-.
        apply E. apply in_or_app. right. left. reflexivity.
Qed.

Lemma pickFixed_total sortedM idxs :
  (forall i, In i idxs -> i < List.length sortedM) ->
  forall chosen seen, exists c s, Engine.pickFixed sortedM idxs chosen seen = Ok (c, s).
Proof.
  induction idxs as [|i idxs IH]; intros B chosen seen; cbn [Engine.pickFixed].
  - eexists; eexists; reflexivity.
  - destruct (nth_error sortedM i) as [m|] eqn:N.
    + destruct (Engine.seenHas seen (member_id m)); apply IH;
        intros j J; apply B; right; exact J.
    + apply nth_error_None in N. specialize (B i (or_introl eq_refl)). lia.
Qed.

Lemma slice_length {T} (l : list T) a b :
  List.length (slice l a b) = Nat.min (b - a) (List.length l - a).
Proof. unfold slice. rewrite length_firstn, length_skipn. reflexivity. Qed.

Lemma slice_incl {T} (l : list T) a b : incl (slice l a b) l.
Proof.
  unfold slice. intros x I.
  rewrite <- (firstn_skipn a l). apply in_or_app. right.
  rewrite <- (firstn_skipn (b - a) (skipn a l)). apply in_or_app. left. exact I.
Qed.

Lemma fillFromMiddle_inv k total mid sortedM :
  incl mid sortedM -> mid <> [] -> k < total ->
  forall fuel chosen seen w c w',
    Engine.fillFromMiddle fuel k total mid chosen seen w = (Ok c, w') ->
    seen = map member_id chosen -> NoDup seen -> incl chosen sortedM ->
    List.length chosen <= k ->
    NoDup (map member_id c) /\ incl c sortedM /\ List.length c = k /\
    fetchCalls w' = fetchCalls w.
Proof.
  intros Hmid NE Hk.
  assert ((0 <? List.length mid) = true) as Mpos.
  { apply Nat.ltb_lt. destruct mid; [congruence|cbn; lia]. }
  induction fuel as [|fuel IH]; intros chosen seen w c w' H Hs Hn Hi Hl.
  - cbn [Engine.fillFromMiddle] in H. rewrite Mpos, andb_true_r in H.
    destruct (List.length chosen <? k) eqn:L.
    + exfalso. exact (throw_Ok H).
    + inv_ret H. apply Nat.ltb_ge in L.
      refine (conj _ (conj Hi (conj _ eq_refl))); [exact Hn|lia].
  - cbn [Engine.fillFromMiddle] in H. rewrite Mpos, andb_true_r in H.
    destruct (List.length chosen <? k) eqn:L.
    + apply Nat.ltb_lt in L.
      inv_bind H. unfold random in Ha. injection Ha as <- <-.
      match type of H with
      | context [js_index mid ?i] => destruct (js_index mid i) as [m|] eqn:J
      end; [|exfalso; exact (throw_Ok H)].
      pose proof (js_index_In _ _ J) as Im.
      destruct (negb (Engine.seenHas seen (member_id m))) eqn:Fresh.
      * apply negb_true_iff in Fresh.
        assert (~ In (member_id m) seen) as NI.
        { intro I. apply seenHas_In in I. congruence. }
        assert (List.length (seen ++ [member_id m]) = S (List.length chosen)) as Ls.
        { rewrite length_app, Hs, length_map. cbn. lia. }
        assert (List.length (chosen ++ [m]) = S (List.length chosen)) as Lc.
        { rewrite length_app. cbn. lia. }
        rewrite Ls, Lc in H.
        destruct ((S (List.length chosen) <? k) && (total <=? S (List.length chosen)))
          eqn:Brk.
        { apply andb_true_iff in Brk. destruct Brk as [B1 B2].
          apply Nat.ltb_lt in B1. apply Nat.leb_le in B2. lia. }
        destruct (IH _ _ _ _ _ H) as (A & B & C & D).
        -- rewrite map_app, Hs. reflexivity.
        -- apply NoDup_app; [exact Hn|repeat constructor; intros []|].
           intros x Ix [<-|[]]. exact (NI Ix).
        -- intros x Ix. apply in_app_or in Ix.
           destruct Ix as [Ix|[<-|[]]]; [exact (Hi _ Ix)|exact (Hmid _ Im)].
        -- lia.
        -- exact (conj A (conj B (conj C D))).
      * assert (List.length seen = List.length chosen) as Ls.
        { rewrite Hs, length_map. reflexivity. }
        rewrite Ls in H.
        destruct ((List.length chosen <? k) && (total <=? List.length chosen)) eqn:Brk.
        { apply andb_true_iff in Brk. destruct Brk as [B1 B2].
          apply Nat.ltb_lt in B1. apply Nat.leb_le in B2. lia. }
        exact (IH _ _ _ _ _ H Hs Hn Hi Hl).
    + inv_ret H. apply Nat.ltb_ge in L.
      refine (conj _ (conj Hi (conj _ eq_refl))); [exact Hn|lia].
Qed.

Lemma quartiles_in_range len :
  0 < len ->
  forall i, In i [0; len / 4; len / 2; (3 * len) / 4; len - 1] -> i < len.
Proof.
  intros P i I.
  assert (len / 4 <= len / 2) by (apply Nat.div_le_compat_l; lia).
  assert (len / 2 < len) by (apply Nat.div_lt; lia).
  assert ((3 * len) / 4 < len) by (apply Nat.Div0.div_lt_upper_bound; lia).
  cbn [In] in I. destruct I as [<-|[<-|[<-|[<-|[<-|[]]]]]]; lia.
Qed.

Lemma pickSpokespeople_inv fuel ms k w sp w' :
  Engine.pickSpokespeople fuel ms k w = (Ok sp, w') ->
  StronglySorted byIdeology sp /\
  incl sp ms /\
  fetchCalls w' = fetchCalls w /\
  (List.length ms <= k -> sp = sortByIdeology ms /\ w' = w) /\
  (k < List.length ms -> 5 <= k ->
   List.length sp = k /\ NoDup (map member_id sp)).
Proof.
  unfold Engine.pickSpokespeople. rewrite sortByIdeology_length.
  destruct (List.length ms <=? k) eqn:Small; intro H.
  - inv_ret H. apply Nat.leb_le in Small.
    split; [apply sortByIdeology_sorted|].
    split; [intros x I; exact (proj1 (sortByIdeology_In _ _) I)|].
    split; [reflexivity|]. split; [intros _; split; reflexivity|]. lia.
  - apply Nat.leb_gt in Small.
    inv_bind H. destruct a as [chosen seen].
    apply lift_Ok in Ha. destruct Ha as [Fixed <-].
    inv_bind H. inv_ret H. rename a into filled, Ha into Fill.
    split; [apply sortByIdeology_sorted|].
    destruct (@pickFixed_inv _ _ [] [] _ _ Fixed eq_refl (NoDup_nil _)
                (fun x (I : In x []) => match I with end))
      as (Hs & Hn & Hi & Hl & _ & _).
    cbn [List.length] in Hl.
    set (len := List.length ms) in *.
    set (mid := slice (sortByIdeology ms) (len / 4) ((3 * len) / 4)) in *.
    assert (incl filled (sortByIdeology ms) /\ fetchCalls w' = fetchCalls w /\
            (5 <= k -> List.length filled = k /\ NoDup (map member_id filled)))
      as (Inc & Fr & Exact).
    { destruct (le_lt_dec 5 k) as [K5|K5].
      - assert (mid <> []) as NE.
        { intro E. apply (f_equal (@List.length Member)) in E.
          unfold mid in E. rewrite slice_length, sortByIdeology_length in E.
          fold len in E. cbn [List.length] in E.
          assert (len / 4 <= len / 2) by (apply Nat.div_le_compat_l; lia).
          assert (len / 2 < len) by (apply Nat.div_lt; lia).
          assert (len / 4 + 3 <= (3 * len) / 4).
          { pose proof (Nat.div_mod_eq len 4).
            pose proof (Nat.mod_upper_bound len 4 ltac:(lia)).
            pose proof (Nat.div_mod_eq (3 * len) 4).
            pose proof (Nat.mod_upper_bound (3 * len) 4 ltac:(lia)). lia. }
          lia. }
        destruct (@fillFromMiddle_inv k len mid (sortByIdeology ms)
                    (slice_incl _ _ _) NE Small fuel _ _ _ _ _ Fill Hs Hn Hi
                    ltac:(lia)) as (A & B & C & D).
        split; [exact B|]. split; [exact D|]. intros _. split; assumption.
      - split; [|split; [|lia]].
        + clear - Fill Hi. revert chosen seen w filled w' Fill Hi.
          induction fuel as [|fuel IH]; intros chosen seen w filled w' H Hi;
            cbn [Engine.fillFromMiddle] in H.
          * destruct (_ && _); [exfalso; exact (throw_Ok H)|].
            inv_ret H. exact Hi.
          * destruct ((List.length chosen <? k) && (0 <? List.length mid));
              [|inv_ret H; exact Hi].
            inv_bind H.
            match type of H with
            | context [js_index mid ?i] => destruct (js_index mid i) as [m|] eqn:J
            end; [|exfalso; exact (throw_Ok H)].
            assert (incl (if negb (Engine.seenHas seen (member_id m))
                          then chosen ++ [m] else chosen) (sortByIdeology ms)) as Hi'.
            { destruct (negb _); [|exact Hi].
              intros x Ix. apply in_app_or in Ix.
              destruct Ix as [Ix|[<-|[]]]; [exact (Hi _ Ix)|].
              exact (slice_incl _ _ _ _ (js_index_In _ _ J)). }
            destruct (_ && _); [inv_ret H; exact Hi'|].
            exact (IH _ _ _ _ _ H Hi').
        + clear - Fill. revert chosen seen w filled w' Fill.
          induction fuel as [|fuel IH]; intros chosen seen w filled w' H;
            cbn [Engine.fillFromMiddle] in H.
          * destruct (_ && _); [exfalso; exact (throw_Ok H)|].
            inv_ret H. reflexivity.
          * destruct ((List.length chosen <? k) && (0 <? List.length mid));
              [|inv_ret H; reflexivity].
            inv_bind H. unfold random in Ha. injection Ha as <- <-.
            match type of H with
            | context [js_index mid ?i] => destruct (js_index mid i) as [m|] eqn:J
            end; [|exfalso; exact (throw_Ok H)].
            destruct (_ && _); [inv_ret H; reflexivity|].
            exact (IH _ _ _ _ _ H). }
    split; [intros x I; apply (proj1 (sortByIdeology_In _ _)) in I;
            apply Inc in I; exact (proj1 (sortByIdeology_In _ _) I)|].
    split; [exact Fr|]. split; [lia|].
    intros _ K5. destruct (Exact K5) as (L & N).
    split; [rewrite sortByIdeology_length; exact L|].
    apply sortByIdeology_ids_NoDup. exact N.
Qed.

(** X10: [pickSpokespeople]: a call that returns gives members of the population
    sorted by ideology, lowest first.  With at most [k] members these are all
    of them and no random number is drawn; with more than [k] (and [k >= 5])
    they are exactly [k] members with distinct identifiers.  The call makes no
    request. *)
Theorem pickSpokespeople_picks fuel ms k w sp w' :
  Engine.pickSpokespeople fuel ms k w = (Ok sp, w') ->
  StronglySorted byIdeology sp /\
  incl sp ms /\
  fetchCalls w' = fetchCalls w /\
  (List.length ms <= k -> sp = sortByIdeology ms /\ w' = w) /\
  (k < List.length ms -> 5 <= k ->
   List.length sp = k /\ NoDup (map member_id sp)).
Proof. apply pickSpokespeople_inv. Qed.

Lemma pickSpokespeople_picks_witness :
  match Engine.pickSpokespeople 5 nineMembers 7
          (worldOf [3 # 10; 8 # 10] [] [] None) with
  | (Ok sp, w') =>
      StronglySorted byIdeology sp /\ incl sp nineMembers /\
      List.length sp = 7 /\ NoDup (map member_id sp)
  | (Throw _, _) => False
  end.
Proof.
  destruct (Engine.pickSpokespeople 5 nineMembers 7
              (worldOf [3 # 10; 8 # 10] [] [] None)) as [[sp|e] w'] eqn:E.
  - destruct (pickSpokespeople_picks _ _ _ _ E) as (A & B & _ & _ & C).
    destruct C as (C1 & C2); [vm_compute; lia|lia|].
    exact (conj A (conj B (conj C1 C2))).
  - vm_compute in E. discriminate.
Defined.

Lemma Qfloor_unit x : (0 <= x)%Q -> (x < 1)%Q -> Qfloor x = 0%Z.
Proof.
  intros L U.
  assert (0 <= Qfloor x)%Z by (change 0%Z with (Qfloor 0); apply Qfloor_resp_le; exact L).
  assert (Qfloor x < 1)%Z.
  { rewrite Zlt_Qlt. apply Qle_lt_trans with x; [apply Qfloor_le|exact U]. }
  lia.
Qed.

Lemma small_draw_floor u n k :
  (0 <= u)%Q -> (u * inject_Z (Z.of_nat n) < 1)%Q -> k <= n ->
  Qfloor (u * inject_Z (Z.of_nat k)) = 0%Z.
Proof.
  intros L U K. apply Qfloor_unit.
  - apply Qmult_le_0_compat; [exact L|].
    unfold Qle; cbn [Qnum Qden inject_Z]. lia.
  - apply Qle_lt_trans with (u * inject_Z (Z.of_nat n))%Q; [|exact U].
    rewrite (Qmult_comm u), (Qmult_comm u).
    apply Qmult_le_compat_r; [|exact L].
    rewrite <- Zle_Qle. lia.
Qed.

Lemma fillFromMiddle_spins k total n m0 mid :
  forall fuel chosen seen w,
    List.length chosen < k -> List.length seen < total ->
    Engine.seenHas seen (member_id m0) = true ->
    List.length (m0 :: mid) <= n ->
    (forall i, (0 <= mathRandom w i)%Q /\
               (mathRandom w i * inject_Z (Z.of_nat n) < 1)%Q) ->
    fst (Engine.fillFromMiddle fuel k total (m0 :: mid) chosen seen w) = Throw OutOfFuel.
Proof.
  induction fuel as [|fuel IH]; intros chosen seen w Lc Ls Seen Ln Draws;
    cbn [Engine.fillFromMiddle].
  - apply Nat.ltb_lt in Lc. rewrite Lc. reflexivity.
  - pose proof Lc as Lc'. apply Nat.ltb_lt in Lc'. rewrite Lc'.
    change (0 <? List.length (m0 :: mid)) with true. cbn [andb].
    unfold bind at 1. unfold random at 1.
    destruct (Draws (randomCalls w)) as (D0 & D1).
    rewrite (small_draw_floor D0 D1 Ln).
    cbn [js_index Z.ltb Z.compare Z.to_nat nth_error]. rewrite Seen.
    cbn [negb]. rewrite Lc'.
    assert ((total <=? List.length seen) = false) as NB by (apply Nat.leb_gt; exact Ls).
    rewrite NB. cbn [andb].
    apply IH; try assumption.
Qed.

Lemma pickSpokespeople_spins fuel ms k w :
  5 < k -> k < List.length ms ->
  (forall i, (0 <= mathRandom w i)%Q /\
             (mathRandom w i * inject_Z (Z.of_nat (List.length ms)) < 1)%Q) ->
  fst (Engine.pickSpokespeople fuel ms k w) = Throw OutOfFuel.
Proof.
  intros K5 Kn Draws. unfold Engine.pickSpokespeople.
  rewrite sortByIdeology_length.
  destruct (List.length ms <=? k) eqn:Small; [apply Nat.leb_le in Small; lia|].
  set (len := List.length ms) in *.
  destruct (@pickFixed_total (sortByIdeology ms)
              [0; len / 4; len / 2; (3 * len) / 4; len - 1]) with (chosen := @nil Member)
              (seen := @nil string) as (chosen & seen & Fixed).
  { rewrite sortByIdeology_length. apply quartiles_in_range. fold len. lia. }
  unfold bind at 1. unfold lift at 1. rewrite Fixed.
  destruct (@pickFixed_inv _ _ [] [] _ _ Fixed eq_refl (NoDup_nil _)
              (fun x (I : In x []) => match I with end))
    as (Hs & Hn & Hi & Hl & _ & Hq).
  cbn [List.length] in Hl.
  assert (len / 4 + 3 <= (3 * len) / 4) as Q.
  { pose proof (Nat.div_mod_eq len 4).
    pose proof (Nat.mod_upper_bound len 4 ltac:(lia)).
    pose proof (Nat.div_mod_eq (3 * len) 4).
    pose proof (Nat.mod_upper_bound (3 * len) 4 ltac:(lia)). lia. }
  assert ((3 * len) / 4 < len) as Q3 by (apply Nat.Div0.div_lt_upper_bound; lia).
  destruct (slice (sortByIdeology ms) (len / 4) ((3 * len) / 4)) as [|m0 mid] eqn:Mid.
  { apply (f_equal (@List.length Member)) in Mid.
    rewrite slice_length, sortByIdeology_length in Mid. fold len in Mid.
    cbn [List.length] in Mid. lia. }
  assert (nth_error (sortByIdeology ms) (len / 4) = Some m0) as N0.
  { unfold slice in Mid.
    destruct (skipn (len / 4) (sortByIdeology ms)) as [|x rest] eqn:Sk.
    - rewrite firstn_nil in Mid. discriminate.
    - destruct ((3 * len) / 4 - len / 4) as [|d] eqn:D; [lia|].
      cbn [firstn] in Mid. injection Mid as -> _.
      rewrite <- (firstn_skipn (len / 4) (sortByIdeology ms)), Sk.
      rewrite nth_error_app2; rewrite length_firstn, sortByIdeology_length;
        fold len; [|lia].
      replace (len / 4 - Nat.min (len / 4) len) with 0 by lia. reflexivity. }
  assert (List.length (m0 :: mid) <= len) as Lm.
  { rewrite <- Mid, slice_length, sortByIdeology_length. fold len. lia. }
  unfold bind.
  pose proof (@fillFromMiddle_spins k len len m0 mid fuel chosen seen w) as Spin.
  destruct (Engine.fillFromMiddle fuel k len (m0 :: mid) chosen seen w) as [[c|e] w1].
  - exfalso. cbn [fst] in Spin. discriminate Spin; try assumption.
    + lia.
    + rewrite Hs, length_map. lia.
    + apply seenHas_In. apply (Hq (len / 4) m0); [right; left; reflexivity|exact N0].
  - cbn [fst] in *. apply Spin; try assumption.
    + lia.
    + rewrite Hs, length_map. lia.
    + apply seenHas_In. apply (Hq (len / 4) m0); [right; left; reflexivity|exact N0].
Qed.

(** X11: The back-fill loop of [pickSpokespeople] has no bound of its own: with more
    than seven members and at least one round, if every [Math.random()] is
    below [1 / numMembers] the loop draws the member at the first quartile
    again and again, who is already chosen, and the run never returns (the
    model runs out of fuel whatever the fuel). *)
Theorem engine_run_spins_on_small_draws bm jp fuel ds n R b useLlm model sd w :
  ds <> [] -> 7 < n -> 0 < R ->
  (forall i, (0 <= mathRandom w i)%Q /\
             (mathRandom w i * inject_Z (Z.of_nat n) < 1)%Q) ->
  fst (Engine.runSimulation bm jp fuel ds n R b useLlm model sd w) = Throw OutOfFuel.
Proof.
  intros NE N7 R0 Draws. unfold Engine.runSimulation.
  destruct ds as [|d0 ds']; [congruence|].
  unfold Engine.sampleMembers.
  match goal with |- context [Engine.sampleLoop bm ?l ?p n 0 ?g] =>
    destruct (@engine_sampleLoop_total bm l p n ltac:(discriminate) 0 g) as (ms & E);
    pose proof (engine_sampleLoop_length _ _ _ _ _ _ E) as Len
  end.
  unfold bind at 1. unfold lift at 1. rewrite E.
  destruct R as [|R]; [lia|]. cbn [Engine.roundLoop].
  unfold bind at 1. unfold bind at 1.
  pose proof (@pickSpokespeople_spins fuel ms 7 w ltac:(lia) ltac:(lia)) as Spin.
  rewrite Len in Spin. specialize (Spin Draws).
  destruct (Engine.pickSpokespeople fuel ms 7 w) as [[sp|e] w1]; cbn [fst] in *.
  - discriminate.
  - injection Spin as ->. reflexivity.
Qed.

Lemma engine_run_spins_on_small_draws_witness :
  fst (Engine.runSimulation (fun _ _ => 0%Q) (fun _ => None) 50
         [mockDistrict "d1" 0] 8 1 mockBill false "local" (Some 42%Z)
         zeroDrawsWorld)
  = Throw OutOfFuel.
Proof.
  apply (@engine_run_spins_on_small_draws (fun _ _ => 0%Q) (fun _ => None) 50
           [mockDistrict "d1" 0] 8 1 mockBill false "local" (Some 42%Z)
           zeroDrawsWorld).
  - discriminate.
  - lia.
  - lia.
  - intro i. split; [discriminate|reflexivity].
Defined.



(** ** Runs of the engine *)

Lemma engine_roundLoop_unfold jp fuel ms bill useLlm model k r acc w rs w' :
  Engine.roundLoop jp fuel ms bill useLlm model (S k) r acc w = (Ok rs, w') ->
  exists spokes sps v w1 w2,
    Engine.pickSpokespeople fuel ms 7 w = (Ok spokes, w1) /\
    foldM (Engine.speak jp bill useLlm model) spokes [] w1 = (Ok sps, w2) /\
    Engine.asyncVote jp ms bill useLlm model (1 # 2) w2 = (Ok v, w') /\
    rs = acc ++ [Engine.mkRound r sps v].
Proof.
  cbn [Engine.roundLoop]. intro H.
  inv_bind H. inv_bind H. inv_bind H.
  exists a, a0, a1, w0, w1.
  destruct (Engine.passed a1); cbn [negb] in H; inv_ret H;
    repeat split; assumption.
Qed.

Lemma runSimulation_unfold bm jp fuel ds n R b useLlm model sd w res w' :
  Engine.runSimulation bm jp fuel ds n R b useLlm model sd w = (Ok res, w') ->
  exists ms,
    ds <> [] /\
    Engine.sampleMembers bm ds n (Rng.create sd (dateNow w)) = Ok ms /\
    List.length ms = n /\
    Engine.members res = n /\
    Engine.roundLoop jp fuel ms b useLlm model R 0 [] w = (Ok (Engine.rounds res), w') /\
    Engine.final_passed res
    = match nth_error (Engine.rounds res) (List.length (Engine.rounds res) - 1) with
      | Some rd => Engine.passed (Engine.roundVote rd)
      | None => false
      end.
Proof.
  unfold Engine.runSimulation. destruct ds as [|d ds]; [discriminate|].
  intro H. inv_bind H. inv_bind H. inv_ret H.
  apply lift_Ok in Ha. destruct Ha as [Ha ->].
  exists a. cbn [Engine.members Engine.rounds Engine.final_passed].
  split; [discriminate|]. split; [exact Ha|].
  split; [unfold Engine.sampleMembers in Ha;
          exact (engine_sampleLoop_length _ _ _ _ _ _ Ha)|].
  split; [reflexivity|]. split; [exact Ha0|]. destruct a0; reflexivity.
Qed.

(** *** A model name that is not a local one *)

Lemma decideVote_unsupported jp m b model w :
  Agents.isLocalModel model = false ->
  Agents.decideVote jp m b true model w
  = (Ok (Agents.mkDecision "abstain" (JStr "Error in decision process.")), w).
Proof.
  intro U. pose proof (decideVote_outcomes jp m b model w) as O.
  unfold Agents.requestDecision in O. rewrite U in O. exact O.
Qed.

Lemma engine_speak_unsupported jp b model acc s w :
  Agents.isLocalModel model = false ->
  Engine.speak jp b true model acc s w
  = (Ok (acc ++ [mkSpeech (member_id s) amend (Debate.templateSpeech s amend b) []]), w).
Proof.
  intro U. unfold Engine.speak.
  erewrite bind_step by (apply decideVote_unsupported; exact U).
  cbn [Agents.vote]. unfold Debate.generateSpeech. cbn [negb]. rewrite U.
  reflexivity.
Qed.

Lemma engine_speeches_unsupported jp b model xs :
  Agents.isLocalModel model = false ->
  forall acc w,
    foldM (Engine.speak jp b true model) xs acc w
    = (Ok (acc ++ map (fun s => mkSpeech (member_id s) amend
                                  (Debate.templateSpeech s amend b) []) xs), w).
Proof.
  intro U. induction xs as [|s xs IH]; intros acc w; cbn [foldM map].
  - rewrite app_nil_r. reflexivity.
  - erewrite bind_step by (apply engine_speak_unsupported; exact U).
    rewrite IH. rewrite <- app_assoc. reflexivity.
Qed.

Lemma engine_tally_unsupported jp b model ms :
  Agents.isLocalModel model = false ->
  forall y n a w,
    foldM (Engine.tallyStep jp b true model) ms (y, n, a) w
    = (Ok (y, n, (a + Z.of_nat (List.length ms))%Z), w).
Proof.
  intro U. induction ms as [|m ms IH]; intros y n a w; cbn [foldM List.length].
  - rewrite Z.add_0_r. reflexivity.
  - unfold Engine.tallyStep at 1.
    erewrite bind_step.
    2:{ erewrite bind_step by (apply decideVote_unsupported; exact U).
        cbn [Agents.vote]. reflexivity. }
    rewrite IH.
    replace (a + 1 + Z.of_nat (List.length ms))%Z
      with (a + Z.of_nat (S (List.length ms)))%Z by lia.
    reflexivity.
Qed.

(** X12: With the LLM on and a model name that is not a local one, no request is
    ever made: every spokesperson gets the stance "amend" and the "concerns"
    template, every member abstains, and the bill fails. *)
Theorem engine_unsupported_model_run bm jp fuel ds n R b model sd w res w' :
  Engine.runSimulation bm jp fuel ds n R b true model sd w = (Ok res, w') ->
  Agents.isLocalModel model = false ->
  fetchCalls w' = fetchCalls w /\
  Engine.final_passed res = false /\
  Forall (fun rd =>
            Engine.roundVote rd = Engine.mkVote 0 0 (Z.of_nat n) false (1 # 2) /\
            Forall (fun s =>
                      stance s = amend /\
                      exists m, sp_member_id s = member_id m /\
                                text s = Debate.templateSpeech m amend b)
              (Engine.speeches rd))
    (Engine.rounds res).
Proof.
  intros H U.
  destruct (runSimulation_unfold _ _ _ _ _ _ _ _ _ _ _ H)
    as (ms & NE & _ & Len & _ & Loop & Fin).
  destruct R as [|R].
  - cbn [Engine.roundLoop] in Loop. apply ret_Ok in Loop. destruct Loop as [Rs <-].
    rewrite Fin. rewrite <- Rs. split; [reflexivity|]. split; [reflexivity|constructor].
  - destruct (engine_roundLoop_unfold _ _ _ _ _ _ _ _ _ _ Loop)
      as (spokes & sps & v & w1 & w2 & Pick & Speak & Vote & Rs).
    rewrite (@engine_speeches_unsupported jp b model spokes U) in Speak.
    inv_ret Speak.
    unfold Engine.asyncVote in Vote.
    erewrite bind_step in Vote by (apply engine_tally_unsupported; exact U).
    inv_ret Vote.
    destruct (pickSpokespeople_inv _ _ _ _ Pick) as (_ & _ & Fr & _).
    rewrite Fin, Rs. cbn [app List.length Nat.sub nth_error Engine.roundVote Engine.passed].
    split; [exact Fr|]. split; [reflexivity|].
    constructor; [|constructor].
    cbn [Engine.roundVote Engine.speeches]. split.
    + reflexivity.
    + apply Forall_forall. intros s I. apply in_map_iff in I.
      destruct I as (m & <- & _). split; [reflexivity|].
      exists m. split; reflexivity.
Qed.

Lemma engine_unsupported_model_run_witness :
  match Engine.runSimulation (fun _ _ => 0%Q) (fun _ => None) 0
          [mockDistrict "d1" 0] 3 2 mockBill true "gemini-pro" (Some 42%Z)
          quietWorld with
  | (Ok res, w') =>
      fetchCalls w' = fetchCalls quietWorld /\
      Engine.final_passed res = false /\
      Forall (fun rd =>
                Engine.roundVote rd = Engine.mkVote 0 0 (Z.of_nat 3) false (1 # 2) /\
                Forall (fun s =>
                          stance s = amend /\
                          exists m, sp_member_id s = member_id m /\
                                    text s = Debate.templateSpeech m amend mockBill)
                  (Engine.speeches rd))
        (Engine.rounds res)
  | (Throw _, _) => False
  end.
Proof.
  destruct (Engine.runSimulation (fun _ _ => 0%Q) (fun _ => None) 0
              [mockDistrict "d1" 0] 3 2 mockBill true "gemini-pro" (Some 42%Z)
              quietWorld) as [[res|e] w'] eqn:E.
  - eapply engine_unsupported_model_run; [exact E|reflexivity].
  - vm_compute in E. discriminate.
Defined.

(** *** Without the LLM *)

Lemma engine_speak_heuristic jp b model acc s w :
  exists st,
    Engine.speak jp b false model acc s w
    = (Ok (acc ++ [mkSpeech (member_id s) st (Debate.templateSpeech s st b) []]),
       snd (random w)) /\
    (st = support \/ st = oppose).
Proof.
  unfold Engine.speak, Agents.decideVote, Debate.generateSpeech, bind, random, ret.
  cbn [negb snd Agents.vote].
  destruct (Qgtb (mathRandom w (randomCalls w)) (1 # 2));
    [exists support|exists oppose]; (split; [reflexivity|]); [left|right]; reflexivity.
Qed.

Lemma engine_speeches_heuristic jp b model xs :
  forall acc w sps w',
    foldM (Engine.speak jp b false model) xs acc w = (Ok sps, w') ->
    fetchCalls w' = fetchCalls w /\
    exists new,
      sps = acc ++ new /\
      Forall (fun s =>
                (stance s = support \/ stance s = oppose) /\
                exists m, sp_member_id s = member_id m /\
                          text s = Debate.templateSpeech m (stance s) b) new.
Proof.
  induction xs as [|x xs IH]; intros acc w sps w' H; cbn [foldM] in H.
  - inv_ret H. split; [reflexivity|]. exists []. rewrite app_nil_r.
    split; [reflexivity|constructor].
  - destruct (engine_speak_heuristic jp b model acc x w) as (st & E & St).
    erewrite bind_step in H by exact E.
    destruct (IH _ _ _ _ H) as (Fr & new & -> & All).
    split; [exact Fr|].
    exists (mkSpeech (member_id x) st (Debate.templateSpeech x st b) [] :: new).
    split; [rewrite <- app_assoc; reflexivity|].
    constructor; [|exact All]. cbn [stance sp_member_id text].
    split; [exact St|]. exists x. split; reflexivity.
Qed.

Lemma engine_tally_heuristic jp b model ms :
  forall y n a w y' n' a' w',
    foldM (Engine.tallyStep jp b false model) ms (y, n, a) w = (Ok (y', n', a'), w') ->
    a' = a /\ fetchCalls w' = fetchCalls w.
Proof.
  induction ms as [|m ms IH]; intros y n a w y' n' a' w' H; cbn [foldM] in H.
  - inv_ret H. split; reflexivity.
  - inv_bind H. destruct a0 as [[y1 n1] a1].
    unfold Engine.tallyStep, Agents.decideVote, bind, random, ret in Ha.
    cbn [negb Agents.vote] in Ha.
    destruct (Qgtb (mathRandom w (randomCalls w)) (1 # 2));
      cbn in Ha; injection Ha as <- <- <- <-;
      destruct (IH _ _ _ _ _ _ _ _ H) as (-> & Fr); cbn [fetchCalls] in Fr;
      split; [reflexivity|exact Fr|reflexivity|exact Fr].
Qed.

(** X13: Without the LLM a run that returns has made no request; in its round
    nobody abstains, the yes and no votes add up to the population, and every
    spokesperson supports or opposes (never "amend") with the template speech
    of that stance. *)
Theorem engine_heuristic_run bm jp fuel ds n R b model sd w res w' :
  Engine.runSimulation bm jp fuel ds n R b false model sd w = (Ok res, w') ->
  fetchCalls w' = fetchCalls w /\
  Forall (fun rd =>
            Engine.v_abstain (Engine.roundVote rd) = 0%Z /\
            (Engine.v_yes (Engine.roundVote rd) + Engine.v_no (Engine.roundVote rd)
             = Z.of_nat n)%Z /\
            Forall (fun s =>
                      (stance s = support \/ stance s = oppose) /\
                      exists m, sp_member_id s = member_id m /\
                                text s = Debate.templateSpeech m (stance s) b)
              (Engine.speeches rd))
    (Engine.rounds res).
Proof.
  intro H.
  destruct (runSimulation_unfold _ _ _ _ _ _ _ _ _ _ _ H)
    as (ms & NE & _ & Len & _ & Loop & _).
  destruct R as [|R].
  - cbn [Engine.roundLoop] in Loop. apply ret_Ok in Loop. destruct Loop as [Rs <-].
    rewrite <- Rs. split; [reflexivity|constructor].
  - destruct (engine_roundLoop_unfold _ _ _ _ _ _ _ _ _ _ Loop)
      as (spokes & sps & v & w1 & w2 & Pick & Speak & Vote & Rs).
    destruct (pickSpokespeople_inv _ _ _ _ Pick) as (_ & _ & Fr1 & _).
    destruct (engine_speeches_heuristic _ _ _ _ _ _ Speak) as (Fr2 & new & Sps & All).
    cbn [app] in Sps. subst sps.
    pose proof (asyncVote_spec _ _ _ _ _ _ _ Vote) as (Sum & _).
    unfold Engine.asyncVote in Vote. inv_bind Vote. destruct a as [[y' n'] a'].
    inv_ret Vote.
    destruct (engine_tally_heuristic _ _ _ _ _ _ _ _ Votea) as (-> & Fr3).
    cbn [Engine.v_yes Engine.v_no Engine.v_abstain] in Sum.
    rewrite Rs. split; [congruence|].
    constructor; [|constructor].
    cbn [Engine.roundVote Engine.speeches Engine.v_yes Engine.v_no Engine.v_abstain].
    split; [reflexivity|]. split; [lia|exact All].
Qed.

Lemma engine_heuristic_run_witness :
  match Engine.runSimulation (fun _ _ => 0%Q) (fun _ => None) 0
          [mockDistrict "d1" 0] 3 2 mockBill false "local" (Some 42%Z)
          quietWorld with
  | (Ok res, w') =>
      fetchCalls w' = fetchCalls quietWorld /\
      Forall (fun rd =>
                Engine.v_abstain (Engine.roundVote rd) = 0%Z /\
                (Engine.v_yes (Engine.roundVote rd) + Engine.v_no (Engine.roundVote rd)
                 = Z.of_nat 3)%Z /\
                Forall (fun s =>
                          (stance s = support \/ stance s = oppose) /\
                          exists m, sp_member_id s = member_id m /\
                                    text s = Debate.templateSpeech m (stance s) mockBill)
                  (Engine.speeches rd))
        (Engine.rounds res)
  | (Throw _, _) => False
  end.
Proof.
  destruct (Engine.runSimulation (fun _ _ => 0%Q) (fun _ => None) 0
              [mockDistrict "d1" 0] 3 2 mockBill false "local" (Some 42%Z)
              quietWorld) as [[res|e] w'] eqn:E.
  - eapply engine_heuristic_run. exact E.
  - vm_compute in E. discriminate.
Defined.

(** *** No members *)

(** X14: A population of zero members: the engine still holds its one round, with
    no speech and a tally of 0/0/0 that fails, and leaves the world untouched;
    the browser orchestrator throws a [TypeError] in its first round, where it
    reads [member_id] of a speaker that does not exist. *)
Theorem zero_members_edge :
  (forall bm jp fuel ds R b useLlm model sd w,
      ds <> [] ->
      Engine.runSimulation bm jp fuel ds 0 (S R) b useLlm model sd w
      = (Ok (Engine.mkResult 0
               [Engine.mkRound 0 [] (Engine.mkVote 0 0 0 false (1 # 2))] false), w)) /\
  (forall o w,
      Client.sample o <> [] -> Client.numMembers o = 0 -> 0 < Client.optRounds o ->
      fst (Client.runSimulationClient o w)
      = match fst (Client.initEngine o w) with
        | Ok _ => Throw TypeError
        | Throw e => Throw e
        end).
Proof.
  split.
  - intros bm jp fuel ds R b useLlm model sd w NE.
    destruct ds as [|d ds]; [congruence|]. reflexivity.
  - intros [bl smp n R llm cfg sd] w NE N0 R0.
    cbn [Client.sample Client.numMembers Client.optRounds] in *. subst n.
    destruct smp as [|d0 smp]; [congruence|].
    destruct R as [|R]; [lia|].
    unfold Client.runSimulationClient, bind.
    destruct (Client.initEngine _ w) as [[u|e] w0]; reflexivity.
Qed.

Lemma zero_members_edge_witness :
  Engine.runSimulation (fun _ _ => 0%Q) (fun _ => None) 0 [mockDistrict "d1" 0]
    0 1 mockBill false "local" None quietWorld
  = (Ok (Engine.mkResult 0
           [Engine.mkRound 0 [] (Engine.mkVote 0 0 0 false (1 # 2))] false), quietWorld) /\
  fst (Client.runSimulationClient
         (Client.mkOptions mockBill [mockDistrict "d1" 0] 0 1 false None None) quietWorld)
  = Throw TypeError.
Proof.
  split.
  - apply (proj1 zero_members_edge). discriminate.
  - apply (proj2 zero_members_edge
             (Client.mkOptions mockBill [mockDistrict "d1" 0] 0 1 false None None)
             quietWorld); [discriminate|reflexivity|cbn; lia].
Defined.

(** ** The browser orchestrator ([simulation.ts]) *)

(** *** The population *)

Lemma advanceRandom_0 w : advanceRandom 0 w = w.
Proof. destruct w. unfold advanceRandom. cbn. rewrite Nat.add_0_r. reflexivity. Qed.

Lemma advanceRandom_S k w : advanceRandom k (snd (random w)) = advanceRandom (S k) w.
Proof. unfold advanceRandom, random. cbn. f_equal. lia. Qed.

Lemma client_sampleLoop_inv ds k :
  forall i w ms w',
    Client.sampleLoop ds k i w = (Ok ms, w') ->
    w' = advanceRandom k w /\
    List.length ms = k /\
    forall j m,
      nth_error ms j = Some m ->
      member_id m = memberId (i + j) /\
      nth_error ds ((i + j) mod List.length ds) = Some (district m) /\
      ideology m
      = clamp (lean (district m)
               + (mathRandom w (randomCalls w + j) - (1 # 2)) * (4 # 10))%Q /\
      party_hint m = Client.partyHint (ideology m).
Proof.
  induction k as [|k IH]; intros i w ms w' H; cbn [Client.sampleLoop] in H.
  - inv_ret H. split; [symmetry; apply advanceRandom_0|].
    split; [reflexivity|]. intros [|j] m N; discriminate.
  - destruct (nth_error ds (i mod List.length ds)) as [d|] eqn:D;
      [|exfalso; exact (throw_Ok H)].
    inv_bind H. inv_bind H. inv_ret H.
    unfold random in Ha. injection Ha as <- <-.
    destruct (IH _ _ _ _ Ha0) as (W & L & All).
    split; [rewrite W; apply advanceRandom_S|].
    split; [cbn [List.length]; congruence|].
    intros [|j] m N; cbn [nth_error] in N.
    + injection N as <-. cbn [member_id district ideology party_hint].
      rewrite !Nat.add_0_r. repeat split; [exact D].
    + destruct (All j m N) as (A & B & C & E). cbn [randomCalls mathRandom] in C.
      replace (i + S j) with (S i + j) by lia.
      replace (randomCalls w + S j) with (S (randomCalls w) + j) by lia.
      repeat split; assumption.
Qed.

Lemma runSimulationClient_unfold o w res w' :
  Client.runSimulationClient o w = (Ok res, w') ->
  exists w0 d0 rest llm,
    Client.initEngine o w = (Ok tt, w0) /\
    Client.sample o = d0 :: rest /\
    Client.sampleLoop
      (map (fun i => nth (i mod List.length (Client.sample o)) (Client.sample o) d0)
           (seq 0 (Client.numMembers o)))
      (Client.numMembers o) 0 w0
    = (Ok (Client.members res), advanceRandom (Client.numMembers o) w0) /\
    llm = (Client.useLlm o
           && match loadedEngine w0 with Some _ => true | None => false end)%bool /\
    Client.roundLoop llm o (Client.members res) (Client.optRounds o) 0
      (Client.bill o) [] [] (advanceRandom (Client.numMembers o) w0)
    = (Ok (Client.rounds res, Client.notes res), w').
Proof.
  unfold Client.runSimulationClient. intro H. inv_bind H. destruct a.
  destruct (Client.sample o) as [|d0 ds] eqn:S; [exfalso; exact (throw_Ok H)|].
  inv_bind H. inv_bind H. inv_bind H. destruct a1 as [allRounds ns]. inv_ret H.
  unfold Client.sampleMembers in Ha0.
  destruct (client_sampleLoop_inv _ _ _ _ Ha0) as (W & _).
  unfold Client.engineReady in Ha1. injection Ha1 as <- <-.
  subst w1. exists w0, d0, ds. eexists.
  cbn [Client.members Client.rounds Client.notes].
  split; [exact Ha|]. split; [reflexivity|]. split; [exact Ha0|].
  split; [reflexivity|]. exact Ha2.
Qed.




(** *** Runs without the engine *)

Lemma client_speeches_heuristic b r ms xs :
  (forall sp m, In sp xs -> sp = Some m -> In m ms) ->
  forall acc w,
    snd (foldM (Client.speak false b r) xs acc w) = w /\
    forall sps w',
      foldM (Client.speak false b r) xs acc w = (Ok sps, w') ->
      exists new,
        sps = acc ++ new /\ List.length new = List.length xs /\
        Forall (fun s =>
                  text s = "I have no brain (LLM disabled)." /\
                  exists m, In m ms /\ sp_member_id s = member_id m /\
                            stance s = if Qgtb (ideology m) 0 then support else oppose)
          new.
Proof.
  induction xs as [|x xs IH]; intros Hx acc w; cbn [foldM].
  - split; [reflexivity|]. intros sps w' H. inv_ret H.
    exists []. rewrite app_nil_r. split; [reflexivity|]. split; [reflexivity|constructor].
  - destruct x as [m|]; cbn [Client.speak].
    + unfold bind, ret. cbv zeta.
      destruct (IH (fun sp m' I => Hx sp m' (or_intror I))
                  (acc ++ [mkSpeech (member_id m)
                             (if Qgtb (ideology m) 0 then support else oppose)
                             "I have no brain (LLM disabled)." []]) w) as (W & Sp).
      split; [exact W|]. intros sps w' H.
      destruct (Sp _ _ H) as (new & -> & L & All).
      eexists (_ :: new). split; [rewrite <- app_assoc; reflexivity|].
      split; [cbn [List.length]; congruence|].
      constructor; [|exact All]. cbn [text sp_member_id stance].
      split; [reflexivity|]. exists m.
      split; [apply (Hx (Some m) m); [left; reflexivity|reflexivity]|].
      split; reflexivity.
    + split; [reflexivity|]. intros sps w' H. exfalso. exact (throw_Ok H).
Qed.

Lemma client_roundLoop_heuristic o ms k :
  forall r b acc ns w,
    snd (Client.roundLoop false o ms k r b acc ns w) = w /\
    forall rs ns' w',
      Client.roundLoop false o ms k r b acc ns w = (Ok (rs, ns'), w') ->
      exists new,
        rs = acc ++ new /\
        Forall (fun rd =>
                  List.length (Client.speeches rd) = 5 /\
                  Forall (fun s =>
                            text s = "I have no brain (LLM disabled)." /\
                            exists m, In m ms /\ sp_member_id s = member_id m /\
                                      stance s = if Qgtb (ideology m) 0
                                                 then support else oppose)
                    (Client.speeches rd)) new.
Proof.
  induction k as [|k IH]; intros r b acc ns w; cbn [Client.roundLoop].
  - split; [reflexivity|]. intros rs ns' w' H. inv_ret H.
    exists []. rewrite app_nil_r. split; [reflexivity|constructor].
  - destruct (@client_speeches_heuristic b r ms (Client.pickSpeakers ms)
                (fun sp m I E => @pickSpeakers_In ms sp m I E) [] w) as (W & Sp).
    unfold bind at 1 3.
    destruct (foldM (Client.speak false b r) (Client.pickSpeakers ms) [] w)
      as [[sps|e] w1] eqn:F; cbn [snd] in W; subst w1.
    + destruct (Sp _ _ eq_refl) as (new & Es & L & All). cbn [app] in Es. subst new.
      unfold Client.castVotes. unfold bind at 1 2. unfold ret at 1 3.
      cbn [Client.passed].
      assert (forall b' ns0,
                 snd (Client.roundLoop false o ms k (S r) b'
                        (acc ++ [Client.mkRound r sps
                                   (Client.mkVote (Z.of_nat (Client.numMembers o / 2))
                                      (Z.of_nat (Client.numMembers o / 2)) 0 false (1 # 2) [])
                                   None]) ns0 w) = w /\
                 forall rs ns' w',
                   Client.roundLoop false o ms k (S r) b'
                     (acc ++ [Client.mkRound r sps
                                (Client.mkVote (Z.of_nat (Client.numMembers o / 2))
                                   (Z.of_nat (Client.numMembers o / 2)) 0 false (1 # 2) [])
                                None]) ns0 w = (Ok (rs, ns'), w') ->
                   exists new,
                     rs = acc ++ new /\
                     Forall (fun rd =>
                               List.length (Client.speeches rd) = 5 /\
                               Forall (fun s =>
                                         text s = "I have no brain (LLM disabled)." /\
                                         exists m, In m ms /\ sp_member_id s = member_id m /\
                                                   stance s = if Qgtb (ideology m) 0
                                                              then support else oppose)
                                 (Client.speeches rd)) new) as Next.
      { intros b' ns0. destruct (IH (S r) b' (acc ++ [Client.mkRound r sps
                                   (Client.mkVote (Z.of_nat (Client.numMembers o / 2))
                                      (Z.of_nat (Client.numMembers o / 2)) 0 false (1 # 2) [])
                                   None]) ns0 w) as (W' & R').
        split; [exact W'|]. intros rs ns' w' H.
        destruct (R' _ _ _ H) as (new & -> & All').
        eexists (_ :: new). split; [rewrite <- app_assoc; reflexivity|].
        constructor; [|exact All']. cbn [Client.speeches].
        split; [exact L|exact All]. }
      destruct (S r <? Client.optRounds o); apply Next.
    + split; [reflexivity|]. intros rs ns' w' H. discriminate.
Qed.

(** X16: A run with [useLlm] off calls [Math.random()] once per member and nothing
    else: no inference, no request, no engine load.  Every round has five
    speeches, each by a member of the population, with the fixed text and the
    stance "support" exactly when that member's ideology is positive. *)
Theorem client_heuristic_run o w res w' :
  Client.runSimulationClient o w = (Ok res, w') ->
  Client.useLlm o = false ->
  w' = advanceRandom (Client.numMembers o) w /\
  Forall (fun rd =>
            List.length (Client.speeches rd) = 5 /\
            Forall (fun s =>
                      text s = "I have no brain (LLM disabled)." /\
                      exists m, In m (Client.members res) /\
                                sp_member_id s = member_id m /\
                                stance s = if Qgtb (ideology m) 0
                                           then support else oppose)
              (Client.speeches rd))
    (Client.rounds res).
Proof.
  intros H Off.
  destruct (runSimulationClient_unfold _ _ H)
    as (w0 & d0 & rest & llm & Init & _ & _ & Llm & Loop).
  destruct (initEngine_spec _ _ Init) as (_ & Same). specialize (Same Off). subst w0.
  rewrite Off in Llm. cbn [andb] in Llm. subst llm.
  destruct (client_roundLoop_heuristic o (Client.members res) (Client.optRounds o) 0
              (Client.bill o) [] [] (advanceRandom (Client.numMembers o) w))
    as (W & R).
  rewrite Loop in W. cbn [snd] in W. split; [exact W|].
  destruct (R _ _ _ Loop) as (new & E & All). cbn [app] in E. rewrite E. exact All.
Qed.

Lemma client_heuristic_run_witness :
  match Client.runSimulationClient heuristicRun quietWorld with
  | (Ok res, w') =>
      w' = advanceRandom 3 quietWorld /\
      Forall (fun rd =>
                List.length (Client.speeches rd) = 5 /\
                Forall (fun s =>
                          text s = "I have no brain (LLM disabled)." /\
                          exists m, In m (Client.members res) /\
                                    sp_member_id s = member_id m /\
                                    stance s = if Qgtb (ideology m) 0
                                               then support else oppose)
                  (Client.speeches rd))
        (Client.rounds res)
  | (Throw _, _) => False
  end.
Proof.
  destruct (Client.runSimulationClient heuristicRun quietWorld) as [[res|e] w'] eqn:E.
  - exact (@client_heuristic_run heuristicRun quietWorld res w' E eq_refl).
  - vm_compute in E. discriminate.
Defined.

(** *** The tally and the roll call *)

Lemma triple_eq (a a' b b' c c' : Z) :
  a = a' -> b = b' -> c = c' -> (a, b, c) = (a', b', c').
Proof. intros -> -> ->. reflexivity. Qed.

Lemma countOf_cons b e votes :
  countOf b (e :: votes)
  = ((if Ballot_eqb (snd e) b then 1 else 0) + countOf b votes)%Z.
Proof.
  unfold countOf. cbn [filter].
  destruct (Ballot_eqb (snd e) b); cbn [List.length]; lia.
Qed.

Lemma countVotes_countOf_from votes :
  forall y n a,
    fold_left Client.countStep votes (y, n, a)
    = (y + countOf yes votes, n + countOf no votes, a + countOf abstain votes)%Z.
Proof.
  induction votes as [|[k v] votes IH]; intros y n a; cbn [fold_left].
  - unfold countOf. cbn [filter List.length]. apply triple_eq; lia.
  - unfold Client.countStep at 2. cbn [snd].
    rewrite !countOf_cons. cbn [snd].
    destruct v; rewrite IH; cbn [Ballot_eqb]; apply triple_eq; lia.
Qed.

Lemma countOf_assign votes :
  forall k new old b,
    lookup k votes = Some old ->
    countOf b (assign k new votes)
    = (countOf b votes - (if Ballot_eqb old b then 1 else 0)
       + (if Ballot_eqb new b then 1 else 0))%Z.
Proof.
  induction votes as [|[k' v'] votes IH]; intros k new old b H; cbn [lookup assign] in *.
  - discriminate.
  - destruct (String.eqb k k').
    + injection H as ->. rewrite !countOf_cons. cbn [snd]. lia.
    + rewrite !countOf_cons. cbn [snd]. rewrite (IH _ _ _ _ H). lia.
Qed.

Lemma forceConsistency_counts y n a votes s y' n' a' votes' :
  Client.forceConsistency (y, n, a, votes) s = (y', n', a', votes') ->
  In (sp_member_id s) (map fst votes) ->
  (y, n, a) = (countOf yes votes, countOf no votes, countOf abstain votes) ->
  (y', n', a') = (countOf yes votes', countOf no votes', countOf abstain votes').
Proof.
  intros H I C. injection C as -> -> ->.
  apply lookup_In in I. destruct I as [v L].
  unfold Client.forceConsistency in H. rewrite L in H.
  destruct (Ballot_eqb v (voteOfStance (stance s))) eqn:Same.
  - injection H as <- <- <- <-. reflexivity.
  - destruct v, (stance s); cbn [voteOfStance Ballot_eqb] in *; try discriminate;
      injection H as <- <- <- <-;
      rewrite !(countOf_assign _ _ _ _ L); cbn [Ballot_eqb]; apply triple_eq; lia.
Qed.

Lemma forceConsistency_fold_counts sps :
  forall y n a votes y' n' a' votes',
    fold_left Client.forceConsistency sps (y, n, a, votes) = (y', n', a', votes') ->
    Forall (fun s => In (sp_member_id s) (map fst votes)) sps ->
    (y, n, a) = (countOf yes votes, countOf no votes, countOf abstain votes) ->
    (y', n', a') = (countOf yes votes', countOf no votes', countOf abstain votes').
Proof.
  induction sps as [|s sps IH]; intros y n a votes y' n' a' votes' H All C;
    cbn [fold_left] in H.
  - injection H as <- <- <- <-. exact C.
  - destruct (Client.forceConsistency (y, n, a, votes) s) as [[[y1 n1] a1] votes1] eqn:F.
    inversion All as [|? ? Is All']; subst.
    eapply IH; [exact H| |].
    + pose proof F as F'. apply forceConsistency_spec in F'.
      destruct F' as (_ & _ & (_ & Keys) & _).
      apply Forall_forall. intros s' I'. apply Keys.
      rewrite Forall_forall in All'. exact (All' _ I').
    + eapply forceConsistency_counts; [exact F|exact Is|exact C].
Qed.

Lemma castVotes_counts o b ms sps w v w' :
  Client.castVotes true o b ms sps w = (Ok v, w') ->
  Forall (fun s => In (sp_member_id s) (map member_id ms)) sps ->
  Client.v_yes v = countOf yes (Client.rollCall v) /\
  Client.v_no v = countOf no (Client.rollCall v) /\
  Client.v_abstain v = countOf abstain (Client.rollCall v).
Proof.
  unfold Client.castVotes. intros H Sps. inv_bind H.
  pose proof Ha as Cover. apply batchVote_spec in Cover.
  destruct Cover as (_ & Cover & _).
  destruct (Client.countVotes a) as [[y n] ab] eqn:C.
  destruct (fold_left Client.forceConsistency sps (y, n, ab, a))
    as [[[y' n'] a'] votes'] eqn:F.
  inv_ret H. cbn [Client.v_yes Client.v_no Client.v_abstain Client.rollCall].
  assert ((y', n', a')
          = (countOf yes votes', countOf no votes', countOf abstain votes')) as R.
  { eapply forceConsistency_fold_counts; [exact F| |].
    - apply Forall_forall. intros s I. rewrite Forall_forall in Sps.
      specialize (Sps _ I). apply in_map_iff in Sps.
      destruct Sps as (m & <- & Im). exact (Cover _ Im).
    - unfold Client.countVotes in C. rewrite countVotes_countOf_from in C.
      rewrite <- C. apply triple_eq; lia. }
  injection R as -> -> ->. repeat split.
Qed.

(** X17: In every round of a run with the engine the three counters of the tally
    are exactly the numbers of yes, no and abstain entries of the roll call
    published with them, also after the speakers' votes were forced. *)
Theorem tally_matches_roll_call o w res w' :
  Client.runSimulationClient o w = (Ok res, w') ->
  Client.useLlm o = true ->
  Client.llmConfig o <> None \/ loadedEngine w <> None ->
  Forall (fun rd =>
            let v := Client.roundVote rd in
            Client.v_yes v = countOf yes (Client.rollCall v) /\
            Client.v_no v = countOf no (Client.rollCall v) /\
            Client.v_abstain v = countOf abstain (Client.rollCall v))
    (Client.rounds res).
Proof.
  intros H On Eng.
  pose proof H as All. apply client_rounds_origin in All.
  destruct All as (llm & _ & Llm & All).
  specialize (Llm On Eng). subst llm.
  apply Forall_forall. intros rd I. rewrite Forall_forall in All.
  destruct (All rd I) as (b0 & w0 & w1 & w2 & Sp & Cast).
  cbv zeta. eapply castVotes_counts; [exact Cast|].
  eapply speeches_by_members. exact Sp.
Qed.

Lemma tally_matches_roll_call_witness :
  match Client.runSimulationClient tieRun tieWorld with
  | (Ok res, _) =>
      Forall (fun rd =>
                let v := Client.roundVote rd in
                Client.v_yes v = countOf yes (Client.rollCall v) /\
                Client.v_no v = countOf no (Client.rollCall v) /\
                Client.v_abstain v = countOf abstain (Client.rollCall v))
        (Client.rounds res)
  | (Throw _, _) => False
  end.
Proof.
  destruct (Client.runSimulationClient tieRun tieWorld) as [[res|e] w'] eqn:E.
  - apply (@tally_matches_roll_call tieRun tieWorld res w' E eq_refl).
    left. discriminate.
  - vm_compute in E. discriminate.
Defined.

(** *** The notes *)

Lemma passNote_cons r rd new :
  Client.passed (Client.roundVote rd) = false ->
  passNote r (rd :: new) = passNote (S r) new.
Proof.
  intro F. unfold passNote. cbn [rev].
  destruct (rev new) as [|x l] eqn:R.
  - cbn [app]. rewrite F. reflexivity.
  - cbn [app List.length].
    replace (r + S (List.length new)) with (S r + List.length new) by lia.
    reflexivity.
Qed.

Lemma client_roundLoop_notes llm o ms k :
  forall r b acc ns w rs ns' w',
    Client.roundLoop llm o ms k r b acc ns w = (Ok (rs, ns'), w') ->
    exists new,
      rs = acc ++ new /\
      ns' = ns ++ map (String.append "Amendment Proposed: ") (amendmentsOf new)
               ++ passNote r new.
Proof.
  induction k as [|k IH]; intros r b acc ns w rs ns' w' H; cbn [Client.roundLoop] in H.
  - inv_ret H. exists []. cbn. rewrite !app_nil_r. split; reflexivity.
  - inv_bind H. inv_bind H.
    destruct (Client.passed a0) eqn:P.
    + inv_ret H. eexists [_]. split; [reflexivity|].
      unfold passNote, amendmentsOf.
      cbn [rev app flat_map Client.amendment map Client.roundVote List.length].
      rewrite P. reflexivity.
    + destruct (S r <? Client.optRounds o).
      * destruct llm.
        -- inv_bind H. apply IH in H. destruct H as (new & -> & ->).
           eexists (_ :: new). split; [rewrite <- app_assoc; reflexivity|].
           rewrite passNote_cons by exact P.
           unfold amendmentsOf. cbn [flat_map Client.amendment app map].
           rewrite <- !app_assoc. reflexivity.
        -- apply IH in H. destruct H as (new & -> & ->).
           eexists (_ :: new). split; [rewrite <- app_assoc; reflexivity|].
           rewrite passNote_cons by exact P.
           unfold amendmentsOf. cbn [flat_map Client.amendment app map].
           reflexivity.
      * apply IH in H. destruct H as (new & -> & ->).
        eexists (_ :: new). split; [rewrite <- app_assoc; reflexivity|].
        rewrite passNote_cons by exact P.
        unfold amendmentsOf. cbn [flat_map Client.amendment app map].
        reflexivity.
Qed.

(** X18: The notes of a result are determined by its rounds: one line
    "Amendment Proposed: ..." per recorded amendment, in round order, followed
    by "Passed in round n." exactly when the last round passed, [n] being the
    number of rounds held. *)
Theorem notes_follow_the_rounds o w res w' :
  Client.runSimulationClient o w = (Ok res, w') ->
  Client.notes res
  = map (String.append "Amendment Proposed: ") (amendmentsOf (Client.rounds res))
    ++ passNote 0 (Client.rounds res).
Proof.
  intro H.
  destruct (runSimulationClient_unfold _ _ H)
    as (w0 & d0 & rest & llm & _ & _ & _ & _ & Loop).
  apply client_roundLoop_notes in Loop.
  destruct Loop as (new & E & N). cbn [app] in E, N. rewrite N, E. reflexivity.
Qed.

Lemma notes_follow_the_rounds_witness :
  match Client.runSimulationClient threeRoundsRun threeRoundsWorld with
  | (Ok res, _) =>
      Client.notes res
      = map (String.append "Amendment Proposed: ") (amendmentsOf (Client.rounds res))
        ++ passNote 0 (Client.rounds res) /\
      List.length (Client.notes res) = 3
  | (Throw _, _) => False
  end.
Proof.
  destruct (Client.runSimulationClient threeRoundsRun threeRoundsWorld)
    as [[res|e] w'] eqn:E.
  - split; [exact (@notes_follow_the_rounds _ _ _ _ E)|].
    vm_compute in E. injection E as <- _. reflexivity.
  - vm_compute in E. discriminate.
Defined.

(** *** The batch vote *)

Lemma string_app_assoc (a b c : string) : ((a ++ b) ++ c = a ++ (b ++ c))%string.
Proof. induction a as [|x a IH]; cbn [append]; [reflexivity|rewrite IH; reflexivity]. Qed.

Lemma allDigits_app a b :
  allDigits (a ++ b)%string = (allDigits a && allDigits b)%bool.
Proof.
  induction a as [|c a IH]; cbn [append allDigits]; [reflexivity|].
  rewrite IH. apply andb_assoc.
Qed.

Lemma allDigits_uint d : allDigits (NilEmpty.string_of_uint d) = true.
Proof. induction d; cbn [NilEmpty.string_of_uint allDigits]; try exact IHd; reflexivity. Qed.

Lemma allDigits_natToString n : allDigits (natToString n) = true.
Proof.
  unfold natToString, NilZero.string_of_uint.
  destruct (Nat.to_uint n) eqn:E; try reflexivity; rewrite <- E; apply allDigits_uint.
Qed.

Lemma allDigits_repeat k : allDigits (repeatChar "0"%char k) = true.
Proof. induction k as [|k IH]; cbn [repeatChar allDigits]; [reflexivity|exact IH]. Qed.

Lemma natToString_nonempty n : natToString n <> EmptyString.
Proof.
  unfold natToString, NilZero.string_of_uint.
  destruct (Nat.to_uint n); cbn; discriminate.
Qed.

Lemma memberId_digits i :
  exists ds, memberId i = String "M"%char (String "-"%char ds) /\
             allDigits ds = true /\ ds <> EmptyString.
Proof.
  exists (padStart0 4 (natToString (i + 1))). split; [reflexivity|]. split.
  - unfold padStart0. rewrite allDigits_app, allDigits_repeat, allDigits_natToString.
    reflexivity.
  - unfold padStart0. intro E.
    destruct (repeatChar "0"%char (4 - String.length (natToString (i + 1))));
      [|discriminate].
    exact (natToString_nonempty _ E).
Qed.

Lemma takeWhile_digits ds c r :
  allDigits ds = true -> isDigit c = false ->
  takeWhile isDigit (ds ++ String c r)%string = ds.
Proof.
  intros D C. induction ds as [|d ds IH]; cbn [append takeWhile].
  - rewrite C. reflexivity.
  - cbn [allDigits] in D. apply andb_true_iff in D. destruct D as [D1 D2].
    rewrite D1, (IH D2). reflexivity.
Qed.

Lemma dropString_app p r : dropString (String.length p) (p ++ r)%string = r.
Proof.
  induction p as [|c p IH]; cbn [String.length append dropString].
  - destruct r; reflexivity.
  - exact IH.
Qed.

Lemma length_append a b :
  String.length (a ++ b)%string = String.length a + String.length b.
Proof. induction a as [|c a IH]; cbn [append String.length]; [reflexivity|lia]. Qed.

Lemma scanVotes_skip p r :
  Client.scanVotes (String.length p) (p ++ r)%string = Client.scanVotes 0 r.
Proof.
  induction p as [|c p IH]; cbn [String.length append]; [reflexivity|].
  cbn [Client.scanVotes]. exact IH.
Qed.

Lemma scanVotes_step c r :
  Client.scanVotes 0 (String c r)
  = match Client.matchAt (String c r) with
    | Some (id, v, n) => (id, v) :: Client.scanVotes (n - 1) r
    | None => Client.scanVotes 0 r
    end.
Proof. reflexivity. Qed.

Lemma matchAt_line ds (v : bool) tail :
  allDigits ds = true -> ds <> EmptyString ->
  Client.matchAt
    (String "M" (String "-"
       (ds ++ String ":" (String " " ((if v then "YES" else "NO") ++ tail)))))%string
  = Some (("M-" ++ ds)%string, if v then yes else no,
          String.length ds + (if v then 7 else 6)).
Proof.
  intros D NE. unfold Client.matchAt.
  change (Ascii.eqb (upperAscii "M") "M" && Ascii.eqb "-" "-")%bool with true.
  cbv iota.
  rewrite (@takeWhile_digits ds ":"%char _ D eq_refl).
  cbv zeta. rewrite dropString_app.
  destruct (String.length ds =? 0) eqn:Z.
  { apply Nat.eqb_eq in Z. destruct ds; [congruence|discriminate]. }
  destruct v; cbn [append dropWhile].
  - change (isSpace ":") with false. cbv iota.
    change (Client.isSeparator ":") with true. cbv iota.
    cbn [dropWhile].
    change (isSpace " ") with true. cbv iota.
    change (isSpace "Y") with false. cbv iota.
    replace (Client.prefixCI "YES" (String "Y" (String "E" (String "S" tail))))
      with true by (destruct tail; reflexivity).
    f_equal. f_equal. cbn [String.length]. lia.
  - change (isSpace ":") with false. cbv iota.
    change (Client.isSeparator ":") with true. cbv iota.
    cbn [dropWhile].
    change (isSpace " ") with true. cbv iota.
    change (isSpace "N") with false. cbv iota.
    replace (Client.prefixCI "YES" (String "N" (String "O" tail)))
      with false by (destruct tail; reflexivity).
    replace (Client.prefixCI "NO" (String "N" (String "O" tail)))
      with true by (destruct tail; reflexivity).
    f_equal. f_equal. cbn [String.length]. lia.
Qed.

Lemma ballotLine_shape i v rest :
  exists ds,
    allDigits ds = true /\ ds <> EmptyString /\
    memberId i = ("M-" ++ ds)%string /\
    (ballotLine (i, v) ++ rest)%string
    = (String "M" (String "-"
         (ds ++ String ":" (String " "
            ((if v then "YES" else "NO") ++ String (ascii_of_nat 10) rest)))))%string.
Proof.
  destruct (memberId_digits i) as (ds & Id & D & NE).
  exists ds. split; [exact D|]. split; [exact NE|]. split; [exact Id|].
  unfold ballotLine. cbn [fst snd]. rewrite Id.
  rewrite !string_app_assoc. reflexivity.
Qed.

(** X19: Round trip between the format the batch prompt prescribes and the parser
    of the reply: from a reply made of lines "M-xxxx: YES" and "M-xxxx: NO"
    the parser reads exactly the members and votes written, in order. *)
Theorem scanVotes_reads_prescribed_format (entries : list (nat * bool)) :
  Client.scanVotes 0 (ballotLines entries)
  = map (fun e : nat * bool => (memberId (fst e), if snd e then yes else no)) entries.
Proof.
  induction entries as [|[i v] entries IH]; [reflexivity|].
  cbn [ballotLines fold_right map fst snd].
  fold (ballotLines entries).
  destruct (ballotLine_shape i v (ballotLines entries)) as (ds & D & NE & Id & Shape).
  rewrite Shape. rewrite scanVotes_step.
  rewrite (matchAt_line _ _ D NE). rewrite <- Id.
  f_equal.
  replace (String "-" (ds ++ String ":" (String " "
             ((if v then "YES" else "NO")
              ++ String (ascii_of_nat 10) (ballotLines entries)))))%string
    with ((String "-" (ds ++ ": " ++ (if v then "YES" else "NO")))
          ++ String (ascii_of_nat 10) (ballotLines entries))%string
    by (cbn [append]; rewrite !string_app_assoc; reflexivity).
  replace (String.length ds + (if v then 7 else 6) - 1)
    with (String.length (String "-" (ds ++ ": " ++ (if v then "YES" else "NO")))%string)
    by (cbn [String.length]; rewrite !length_append; destruct v; cbn [String.length]; lia).
  rewrite scanVotes_skip.
  rewrite scanVotes_step.
  replace (Client.matchAt (String (ascii_of_nat 10) (ballotLines entries)))
    with (@None (string * Ballot * nat))
    by (destruct (ballotLines entries); reflexivity).
  exact IH.
Qed.

Lemma assign_fresh {V} k (v : V) o :
  ~ In k (map fst o) -> assign k v o = o ++ [(k, v)].
Proof.
  induction o as [|[k' v'] o IH]; intro N; cbn [assign app]; [reflexivity|].
  destruct (String.eqb k k') eqn:E.
  - apply String.eqb_eq in E. subst k'. exfalso. apply N. left. reflexivity.
  - rewrite IH; [reflexivity|]. intro I. apply N. right. exact I.
Qed.

Lemma abstainAll_fresh chunk :
  forall o,
    NoDup (map fst o ++ map member_id chunk) ->
    Client.abstainAll chunk o = o ++ map (fun m => (member_id m, abstain)) chunk.
Proof.
  unfold Client.abstainAll.
  induction chunk as [|m chunk IH]; intros o N; cbn [fold_left map].
  - rewrite app_nil_r. reflexivity.
  - cbn [map] in N.
    assert (~ In (member_id m) (map fst o)) as Fresh.
    { intro I. apply NoDup_remove_2 in N. apply N. apply in_or_app. left. exact I. }
    rewrite assign_fresh by exact Fresh. rewrite IH.
    + rewrite <- app_assoc. reflexivity.
    + rewrite map_app. cbn [map fst]. rewrite <- app_assoc. exact N.
Qed.

Lemma firstn_add_skipn {T} (l : list T) :
  forall i j, firstn (i + j) l = firstn i l ++ firstn j (skipn i l).
Proof.
  induction l as [|x l IH]; intros i j.
  - rewrite !firstn_nil, skipn_nil, firstn_nil. reflexivity.
  - destruct i as [|i]; [reflexivity|].
    cbn [Nat.add firstn skipn app]. rewrite IH. reflexivity.
Qed.

Lemma batchLoop_all_fail ms :
  NoDup (map member_id ms) ->
  forall k i w,
    (forall j, completion w j = CreateFails) ->
    fst (Client.batchLoop ms k i
           (map (fun m => (member_id m, abstain)) (firstn i ms)) w)
    = Ok (map (fun m => (member_id m, abstain)) (firstn (i + k * Client.BATCH_SIZE) ms)).
Proof.
  intros N. induction k as [|k IH]; intros i w Fail; cbn [Client.batchLoop].
  - cbn [Nat.mul]. rewrite Nat.add_0_r. reflexivity.
  - unfold bind at 1. unfold Client.voteChunk at 1. unfold catch, bind at 1.
    unfold createCompletion at 1. rewrite Fail. unfold ret at 1.
    rewrite abstainAll_fresh.
    + rewrite <- map_app. unfold slice.
      replace (i + Client.BATCH_SIZE - i) with Client.BATCH_SIZE by lia.
      rewrite <- firstn_add_skipn.
      rewrite IH by exact Fail.
      replace (i + Client.BATCH_SIZE + k * Client.BATCH_SIZE)
        with (i + S k * Client.BATCH_SIZE) by (cbn [Nat.mul]; lia).
      reflexivity.
    + rewrite map_map. cbn [fst]. rewrite <- map_app. unfold slice.
      replace (i + Client.BATCH_SIZE - i) with Client.BATCH_SIZE by lia.
      rewrite <- firstn_add_skipn.
      rewrite <- (firstn_skipn (i + Client.BATCH_SIZE) ms) in N.
      rewrite map_app in N. exact (NoDup_app_remove_r _ _ N).
Qed.

Lemma matchAt_vote s id v n :
  Client.matchAt s = Some (id, v, n) -> v <> abstain.
Proof.
  unfold Client.matchAt. destruct s as [|m [|dash r]]; try discriminate.
  destruct (Ascii.eqb (upperAscii m) "M" && Ascii.eqb dash "-")%bool; [|discriminate].
  cbv zeta.
  destruct (String.length (takeWhile isDigit r) =? 0); [discriminate|].
  destruct (Client.prefixCI "YES" _); [intro H; injection H as _ <- _; discriminate|].
  destruct (Client.prefixCI "NO" _); [intro H; injection H as _ <- _; discriminate|].
  discriminate.
Qed.

Lemma scanVotes_no_abstain s :
  forall k, Forall (fun e => snd e <> abstain) (Client.scanVotes k s).
Proof.
  induction s as [|c s IH]; intro k; cbn [Client.scanVotes]; [constructor|].
  destruct k as [|k]; [|apply IH].
  destruct (Client.matchAt (String c s)) as [[[id v] n]|] eqn:M; [|apply IH].
  constructor; [|apply IH]. cbn [snd]. eapply matchAt_vote. exact M.
Qed.

Lemma assign_no_abstain k v (o : Client.RollCall) :
  v <> abstain -> Forall (fun e => snd e <> abstain) o ->
  Forall (fun e => snd e <> abstain) (assign k v o).
Proof.
  intros Hv. induction o as [|[k' v'] o IH]; intro F; cbn [assign].
  - constructor; [exact Hv|constructor].
  - inversion F as [|? ? Hd Tl]; subst.
    destruct (String.eqb k k'); constructor; try assumption.
    apply IH. exact Tl.
Qed.

Lemma recordMatches_no_abstain found :
  forall o,
    Forall (fun e : string * Ballot => snd e <> abstain) found ->
    Forall (fun e => snd e <> abstain) o ->
    Forall (fun e => snd e <> abstain) (Client.recordMatches found o).
Proof.
  unfold Client.recordMatches.
  induction found as [|[id v] found IH]; intros o Ff Fo; cbn [fold_left]; [exact Fo|].
  inversion Ff as [|? ? Hd Tl]; subst.
  apply IH; [exact Tl|]. apply assign_no_abstain; assumption.
Qed.

Lemma fallback_no_abstain chunk :
  forall o w o' w',
    foldM Client.fallbackVote chunk o w = (Ok o', w') ->
    Forall (fun e => snd e <> abstain) o ->
    Forall (fun e => snd e <> abstain) o' /\ completion w' = completion w /\
    completionCalls w' = completionCalls w.
Proof.
  induction chunk as [|m chunk IH]; intros o w o' w' H F; cbn [foldM] in H.
  - inv_ret H. repeat split; assumption.
  - inv_bind H. unfold Client.fallbackVote in Ha.
    destruct (lookup (member_id m) o).
    + inv_ret Ha. exact (IH _ _ _ _ H F).
    + inv_bind Ha. inv_ret Ha. unfold random in Haa. injection Haa as <- <-.
      destruct (IH _ _ _ _ H) as (A & B & C).
      * apply assign_no_abstain; [|exact F]. destruct (Qltb _ _); discriminate.
      * split; [exact A|]. split; [exact B|exact C].
Qed.

Lemma batchLoop_no_abstain ms k :
  forall i o w o' w',
    (forall j, completion w j <> CreateFails) ->
    Client.batchLoop ms k i o w = (Ok o', w') ->
    Forall (fun e => snd e <> abstain) o ->
    Forall (fun e => snd e <> abstain) o'.
Proof.
  induction k as [|k IH]; intros i o w o' w' Good H F; cbn [Client.batchLoop] in H.
  - inv_ret H. exact F.
  - inv_bind H. unfold Client.voteChunk, catch, bind in Ha.
    unfold createCompletion at 1 in Ha.
    destruct (completion w (completionCalls w)) as [|c] eqn:C;
      [exfalso; exact (Good _ C)|].
    match type of Ha with
    | context [foldM Client.fallbackVote ?ch ?o0 ?w0] =>
        destruct (foldM Client.fallbackVote ch o0 w0) as [[o1|e] w1] eqn:Fb
    end.
    + injection Ha as <- <-.
      assert (Forall (fun e : string * Ballot => snd e <> abstain)
                (Client.recordMatches (Client.scanVotes 0 (orElse c EmptyString)) o)) as R.
      { apply recordMatches_no_abstain; [apply scanVotes_no_abstain|exact F]. }
      pose proof Fb as Fb'. apply fallback_no_abstain in Fb'; [|exact R].
      destruct Fb' as (A & B & _).
      eapply IH; [|exact H|exact A].
      intro j. rewrite B. apply Good.
    + exfalso.
      match type of Fb with
      | foldM _ ?ch ?o0 ?w0 = _ =>
          destruct (foldM_total Client.fallbackVote ch
                      (fun acc x w2 _ => fallbackVote_total acc x w2) o0 w0)
            as (o2 & w3 & T)
      end.
      congruence.
Qed.

(** X20: [batchVote] never throws.  When every call of the engine fails, every
    member abstains, in member order; when no call fails, the roll call holds
    no abstention at all (a member the reply does not name gets a yes or a no
    drawn from its ideology). *)
Theorem batchVote_failure_behaviour b ms w :
  (exists votes w', Client.batchVote b ms w = (Ok votes, w')) /\
  ((forall j, completion w j = CreateFails) -> NoDup (map member_id ms) ->
   fst (Client.batchVote b ms w) = Ok (map (fun m => (member_id m, abstain)) ms)) /\
  ((forall j, completion w j <> CreateFails) ->
   forall votes w', Client.batchVote b ms w = (Ok votes, w') ->
                    Forall (fun e => snd e <> abstain) votes).
Proof.
  split; [apply batchLoop_total|]. split.
  - intros Fail N. unfold Client.batchVote.
    change (@nil (string * Ballot))
      with (map (fun m => (member_id m, abstain)) (firstn 0 ms)).
    rewrite batchLoop_all_fail by assumption. cbn [Nat.add].
    rewrite firstn_all2; [reflexivity|].
    unfold Client.BATCH_SIZE. change (10 - 1) with 9.
    pose proof (Nat.div_mod_eq (List.length ms + 9) 10).
    pose proof (Nat.mod_upper_bound (List.length ms + 9) 10 ltac:(lia)). lia.
  - intros Good votes w' H. unfold Client.batchVote in H.
    eapply batchLoop_no_abstain; [exact Good|exact H|constructor].
Qed.

Lemma batchVote_failure_behaviour_witness :
  (exists votes w', Client.batchVote mockBill nineMembers quietWorld = (Ok votes, w')) /\
  fst (Client.batchVote mockBill nineMembers failingEngineWorld)
  = Ok (map (fun m => (member_id m, abstain)) nineMembers) /\
  (forall votes w',
      Client.batchVote mockBill nineMembers quietWorld = (Ok votes, w') ->
      Forall (fun e => snd e <> abstain) votes).
Proof.
  split; [|split].
  - exact (proj1 (batchVote_failure_behaviour mockBill nineMembers quietWorld)).
  - apply (proj1 (proj2 (batchVote_failure_behaviour mockBill nineMembers
                           failingEngineWorld))).
    + intro j. reflexivity.
    + vm_compute. repeat constructor; cbn; intuition discriminate.
  - apply (proj2 (proj2 (batchVote_failure_behaviour mockBill nineMembers quietWorld))).
    intro j. cbn. destruct j; discriminate.
Defined.

(** ** The amendment in the batch prompt ([buildBatchVotePrompt]) *)

Lemma prefix_split p s : prefix p s = true -> exists r, s = (p ++ r)%string.
Proof.
  revert s. induction p as [|a p IH]; intros s H.
  - exists s. reflexivity.
  - destruct s as [|b s]; [discriminate|]. cbn [prefix] in H.
    destruct (ascii_dec a b) as [->|]; [|discriminate].
    destruct (IH _ H) as (r & ->). exists r. reflexivity.
Qed.

Lemma prefix_app p r : prefix p (p ++ r)%string = true.
Proof.
  induction p as [|a p IH]; cbn [append prefix]; [destruct r; reflexivity|].
  destruct (ascii_dec a a); [exact IH|congruence].
Qed.

(** A pattern that holds no line feed matches at the start of [s] followed by
    a line feed exactly when it matches at the start of [s]. *)
Lemma prefix_before_newline p :
  (forall q1 q2, p <> (q1 ++ String (ascii_of_nat 10) q2)%string) ->
  forall s x, prefix p (s ++ String (ascii_of_nat 10) x)%string = prefix p s.
Proof.
  induction p as [|a p IH]; intros NoLf s x.
  - destruct s; reflexivity.
  - destruct s as [|b s]; cbn [append prefix].
    + destruct (ascii_dec a (ascii_of_nat 10)) as [->|]; [|reflexivity].
      exfalso. exact (NoLf EmptyString p eq_refl).
    + destruct (ascii_dec a b); [|reflexivity].
      apply IH. intros q1 q2 E. apply (NoLf (String a q1) q2).
      cbn [append]. rewrite E. reflexivity.
Qed.

Lemma takeWhile_before_newline r x :
  takeWhile isDigit (r ++ String (ascii_of_nat 10) x)%string = takeWhile isDigit r.
Proof.
  induction r as [|c r IH]; cbn [append takeWhile]; [reflexivity|].
  destruct (isDigit c); [rewrite IH|]; reflexivity.
Qed.

Lemma lineSeparatorTail_before_newline r x :
  Prompt.lineSeparatorTail (r ++ String (ascii_of_nat 10) x)%string
  = Prompt.lineSeparatorTail r.
Proof.
  unfold Prompt.lineSeparatorTail.
  rewrite !prefix_before_newline; [reflexivity| |];
    intros q1 q2 E; destruct q1 as [|a [|b [|c q1]]]; cbn in E; discriminate.
Qed.

Lemma takeLine_before_newline r x :
  Prompt.takeLine (r ++ String (ascii_of_nat 10) x)%string = Prompt.takeLine r.
Proof.
  induction r as [|c r IH]; cbn [append Prompt.takeLine]; [reflexivity|].
  rewrite lineSeparatorTail_before_newline.
  destruct ((nat_of_ascii c =? 10) || (nat_of_ascii c =? 13))%bool; [reflexivity|].
  destruct ((nat_of_ascii c =? 226) && Prompt.lineSeparatorTail r)%bool;
    [reflexivity|rewrite IH; reflexivity].
Qed.

Lemma takeWhile_prefix_app f r : exists r', r = (takeWhile f r ++ r')%string.
Proof.
  induction r as [|c r IH]; cbn [takeWhile].
  - exists EmptyString. reflexivity.
  - destruct (f c).
    + destruct IH as (r' & E). exists r'. cbn [append]. rewrite <- E. reflexivity.
    + eexists. reflexivity.
Qed.

Lemma matchAmendmentAt_before_newline s x :
  Prompt.matchAmendmentAt (s ++ String (ascii_of_nat 10) x)%string
  = Prompt.matchAmendmentAt s.
Proof.
  unfold Prompt.matchAmendmentAt.
  rewrite prefix_before_newline.
  2:{ intros q1 q2 E. apply (f_equal (includes (String (ascii_of_nat 10) EmptyString))) in E.
      revert E. clear.
      assert (forall q, includes (String (ascii_of_nat 10) "") (q ++ String (ascii_of_nat 10) q2)%string
                        = true) as Inc.
      { induction q as [|c q IH]; cbn [append includes prefix].
        - destruct (ascii_dec (ascii_of_nat 10) (ascii_of_nat 10)); [|congruence].
          destruct q2; reflexivity.
        - destruct (ascii_dec (ascii_of_nat 10) c); [destruct (q ++ _)%string; reflexivity|].
          exact IH. }
      rewrite Inc. vm_compute. discriminate. }
  destruct (prefix "AMENDMENT (Round " s) eqn:P; [|reflexivity].
  apply prefix_split in P. destruct P as (r & ->).
  rewrite string_app_assoc.
  change 17 with (String.length "AMENDMENT (Round "). rewrite !dropString_app.
  cbv zeta. rewrite takeWhile_before_newline.
  destruct (takeWhile_prefix_app isDigit r) as (r1 & E).
  remember (takeWhile isDigit r) as ds eqn:Hds. clear Hds. subst r.
  destruct (String.length ds =? 0); [reflexivity|].
  rewrite string_app_assoc, !dropString_app.
  rewrite prefix_before_newline.
  2:{ intros q1 q2 E'. destruct q1 as [|a [|b [|c [|d q1]]]]; cbn in E'; discriminate. }
  destruct (prefix "): " r1) eqn:P; [|reflexivity].
  apply prefix_split in P. destruct P as (r2 & ->).
  rewrite string_app_assoc.
  change 3 with (String.length "): "). rewrite !dropString_app.
  rewrite takeLine_before_newline. reflexivity.
Qed.

Lemma firstAmendment_before_newline s x :
  Prompt.firstAmendment (s ++ String (ascii_of_nat 10) x)%string
  = match Prompt.firstAmendment s with
    | Some t => Some t
    | None => Prompt.firstAmendment (String (ascii_of_nat 10) x)
    end.
Proof.
  induction s as [|c s IH].
  - cbn [append]. reflexivity.
  - cbn [append]. 
    change (Prompt.firstAmendment (String c (s ++ String (ascii_of_nat 10) x)))
      with (match Prompt.matchAmendmentAt (String c (s ++ String (ascii_of_nat 10) x)) with
            | Some t => Some t
            | None => Prompt.firstAmendment (s ++ String (ascii_of_nat 10) x)
            end).
    change (Prompt.firstAmendment (String c s))
      with (match Prompt.matchAmendmentAt (String c s) with
            | Some t => Some t
            | None => Prompt.firstAmendment s
            end).
    change (String c (s ++ String (ascii_of_nat 10) x))%string
      with (String c s ++ String (ascii_of_nat 10) x)%string.
    rewrite matchAmendmentAt_before_newline.
    destruct (Prompt.matchAmendmentAt (String c s)); [reflexivity|exact IH].
Qed.

Lemma firstAmendment_of_tag n t :
  Prompt.firstAmendment
    (newline ++ newline ++ "AMENDMENT (Round " ++ natToString n ++ "): " ++ t)%string
  = Some (Prompt.takeLine t).
Proof.
  unfold newline. cbn [append].
  change (Prompt.firstAmendment
            (String (ascii_of_nat 10) (String (ascii_of_nat 10)
               (String "A" (String "M" (String "E" (String "N" (String "D"
               (String "M" (String "E" (String "N" (String "T" (String " "
               (String "(" (String "R" (String "o" (String "u" (String "n"
               (String "d" (String " " (natToString n ++ String ")" (String ":"
               (String " " t)))))))))))))))))))))))
    with (match Prompt.matchAmendmentAt
                  ("AMENDMENT (Round " ++ (natToString n ++ String ")" (String ":"
                   (String " " t))))%string with
          | Some u => Some u
          | None => Prompt.firstAmendment
                      (String "M" (String "E" (String "N" (String "D"
               (String "M" (String "E" (String "N" (String "T" (String " "
               (String "(" (String "R" (String "o" (String "u" (String "n"
               (String "d" (String " " (natToString n ++ String ")" (String ":"
               (String " " t)))))))))))))))))))
          end).
  unfold Prompt.matchAmendmentAt.
  rewrite prefix_app.
  change 17 with (String.length "AMENDMENT (Round "). rewrite dropString_app.
  rewrite (@takeWhile_digits (natToString n) ")"%char _ (allDigits_natToString n) eq_refl).
  cbv zeta.
  destruct (String.length (natToString n) =? 0) eqn:Z.
  { apply Nat.eqb_eq in Z. pose proof (natToString_nonempty n).
    destruct (natToString n); [congruence|discriminate]. }
  rewrite dropString_app.
  change (String ")" (String ":" (String " " t))) with ("): " ++ t)%string.
  rewrite prefix_app.
  change 3 with (String.length "): "). rewrite dropString_app. reflexivity.
Qed.

(** X21: Round trip between the amendment tag the round loop appends to the bill's
    summary and the pattern the batch prompt reads it back with.  When the
    summary held no such tag, the prompt finds the first line of the amendment
    just appended.  A tag that is already there stays the one found: after a
    second amendment the prompt still repeats the first one, not the latest. *)
Theorem prompt_reads_first_amendment (b : Bill) (r r2 : nat) (t t2 : string) :
  (Prompt.amendmentText b = None ->
   Prompt.amendmentText (Client.amendSummary b r t) = Some (Prompt.takeLine t) /\
   Prompt.amendmentText (Client.amendSummary (Client.amendSummary b r t) r2 t2)
   = Some (Prompt.takeLine t)) /\
  (forall x, Prompt.amendmentText b = Some x ->
             Prompt.amendmentText (Client.amendSummary b r t) = Some x).
Proof.
  assert (forall b0 r0 t0,
             Prompt.amendmentText (Client.amendSummary b0 r0 t0)
             = match Prompt.amendmentText b0 with
               | Some x => Some x
               | None => Some (Prompt.takeLine t0)
               end) as Step.
  { intros b0 r0 t0. unfold Prompt.amendmentText, Client.amendSummary. cbn [summary].
    change (newline ++ newline ++ "AMENDMENT (Round " ++ natToString (r0 + 1) ++ "): " ++ t0)%string
      with (String (ascii_of_nat 10)
              (newline ++ "AMENDMENT (Round " ++ natToString (r0 + 1) ++ "): " ++ t0))%string.
    rewrite firstAmendment_before_newline.
    destruct (Prompt.firstAmendment (summary b0)); [reflexivity|].
    exact (firstAmendment_of_tag (r0 + 1) t0). }
  split.
  - intro N. rewrite Step, Step, Step, N. split; reflexivity.
  - intros x S. rewrite Step, S. reflexivity.
Qed.

Lemma prompt_reads_first_amendment_witness :
  Prompt.amendmentText (Client.amendSummary mockBill 0 "Cut the fines.")
  = Some (Prompt.takeLine "Cut the fines.") /\
  Prompt.amendmentText
    (Client.amendSummary (Client.amendSummary mockBill 0 "Cut the fines.") 1
       "Add a sunset clause.")
  = Some (Prompt.takeLine "Cut the fines.").
Proof.
  apply (proj1 (prompt_reads_first_amendment mockBill 0 1 "Cut the fines."
                  "Add a sunset clause.")).
  reflexivity.
Defined.

(** ** Synthetic districts ([synthetic.ts]) *)

Lemma Qmax_lower a x : (a <= Qmax a x)%Q.
Proof.
  unfold Qmax. destruct (Qle_bool a x) eqn:E.
  - apply Qle_bool_iff. exact E.
  - apply Qle_refl.
Qed.

Lemma jitterWeights_inv bm jitter ws :
  forall sum rng,
    exists out rng',
      Synthetic.jitterWeights bm jitter ws sum rng
      = Ok (out, fold_left Qplus (map snd out) sum, rng') /\
      map fst out = map fst ws /\
      Forall (fun kv => ((1 # 100) <= snd kv)%Q) out.
Proof.
  induction ws as [|[k x] ws IH]; intros sum rng; cbn [Synthetic.jitterWeights].
  - exists [], rng. repeat split. constructor.
  - destruct (gauss_total bm 0 (jitter * (8 # 100)) rng) as (g & rng1 & ->).
    cbv zeta.
    destruct (IH (sum + Qmax (1 # 100) (x + g))%Q rng1) as (out & rng2 & -> & Keys & Low).
    exists ((k, Qmax (1 # 100) (x + g)) :: out), rng2.
    split; [reflexivity|]. split; [cbn [map fst]; rewrite Keys; reflexivity|].
    constructor; [apply Qmax_lower|exact Low].
Qed.

Lemma subLoop_inv bm d subPop jitter k :
  forall i rng,
    exists out rng',
      Synthetic.subLoop bm d subPop jitter k i rng = Ok (out, rng') /\
      map district_id out
      = map (fun j => (district_id d ++ ".s" ++ natToString (j + 1))%string) (seq i k) /\
      Forall (fun d' =>
                (-1 <= lean d')%Q /\ (lean d' <= 1)%Q /\ population d' = subPop /\
                exists w,
                  map fst w = map fst (weights d) /\
                  Forall (fun kv => ((1 # 100) <= snd kv)%Q) w /\
                  weights d' = Synthetic.normalise w (Qsum (map snd w))) out.
Proof.
  induction k as [|k IH]; intros i rng; cbn [Synthetic.subLoop].
  - exists [], rng. repeat split. constructor.
  - destruct (gauss_total bm 0 (jitter * (35 # 100)) rng) as (g & rng1 & ->).
    cbv zeta.
    destruct (jitterWeights_inv bm jitter (weights d) 0 rng1)
      as (w & rng2 & -> & Keys & Low).
    destruct (IH (S i) rng2) as (out & rng3 & -> & Ids & All).
    eexists; eexists. split; [reflexivity|].
    split; [cbn [map seq district_id]; rewrite Ids; reflexivity|].
    constructor; [|exact All]. cbn [lean population weights].
    destruct (clamp_range (lean d + g)) as (Lo & Hi).
    split; [exact Lo|]. split; [exact Hi|]. split; [reflexivity|].
    exists w. split; [exact Keys|]. split; [exact Low|reflexivity].
Qed.

Lemma baseLoop_inv bm multiplier jitter base :
  forall rng,
    exists out,
      Synthetic.baseLoop bm base multiplier jitter rng = Ok out /\
      map district_id out
      = flat_map (fun d => map (fun j => (district_id d ++ ".s" ++ natToString (j + 1))%string)
                             (seq 0 multiplier)) base /\
      Forall (fun d' =>
                (-1 <= lean d')%Q /\ (lean d' <= 1)%Q /\
                exists d,
                  In d base /\
                  population d'
                  = Qmax 1 (inject_Z (Qfloor (population d
                                              / inject_Z (Z.of_nat multiplier)))) /\
                  exists w,
                    map fst w = map fst (weights d) /\
                    Forall (fun kv => ((1 # 100) <= snd kv)%Q) w /\
                    weights d' = Synthetic.normalise w (Qsum (map snd w))) out.
Proof.
  induction base as [|d base IH]; intro rng; cbn [Synthetic.baseLoop].
  - exists []. repeat split. constructor.
  - cbv zeta.
    destruct (subLoop_inv bm d
                (Qmax 1 (inject_Z (Qfloor (population d / inject_Z (Z.of_nat multiplier)))))
                jitter multiplier 0 rng) as (subs & rng1 & -> & Ids & All).
    destruct (IH rng1) as (out & -> & Ids' & All').
    exists (subs ++ out). split; [reflexivity|].
    split; [rewrite map_app, Ids, Ids'; reflexivity|].
    apply Forall_app. split.
    + apply Forall_forall. intros d' I. rewrite Forall_forall in All.
      destruct (All d' I) as (Lo & Hi & Pop & W).
      split; [exact Lo|]. split; [exact Hi|].
      exists d. split; [left; reflexivity|]. split; [exact Pop|exact W].
    + apply Forall_forall. intros d' I. rewrite Forall_forall in All'.
      destruct (All' d' I) as (Lo & Hi & d0 & In0 & Rest).
      split; [exact Lo|]. split; [exact Hi|].
      exists d0. split; [right; exact In0|exact Rest].
Qed.















(** ** The active districts and the API facade ([state.ts], [api.ts]) *)

Lemma setActiveDistricts_consistent ds src st :
  State.consistent (State.setActiveDistricts ds src st).
Proof. split; reflexivity. Qed.

Lemma flat_map_length_const {A B} (f : A -> list B) (l : list A) (n : nat) :
  (forall a, List.length (f a) = n) -> List.length (flat_map f l) = List.length l * n.
Proof.
  intro H. induction l as [|a l IH]; cbn [flat_map List.length]; [reflexivity|].
  rewrite length_app, H, IH. lia.
Qed.

(** X24: [makeSyntheticDistricts] composes with whatever loaded the districts: it
    throws "No active districts to split from." exactly when none are active;
    otherwise the synthetic districts replace the active ones, the summary
    returned is the stored one, its source is "synthetic", its count is the old
    number of districts times the multiplier (unchanged for a multiplier of at
    most 1) and its sample holds the first five of them, or all if fewer. *)
Theorem makeSyntheticDistricts_replaces_active bm st req now :
  match Api.makeSyntheticDistricts bm st req now with
  | Throw e =>
      State.activeDistricts st = [] /\ e = Error "No active districts to split from."
  | Ok (s, st') =>
      State.activeDistricts st <> [] /\
      s = State.activeSummary st' /\ State.consistent st' /\
      State.source s = "synthetic" /\
      State.count s
      = (if Api.multiplier req <=? 1 then List.length (State.activeDistricts st)
         else List.length (State.activeDistricts st) * Api.multiplier req) /\
      List.length (State.sample s) = Nat.min 5 (State.count s)
  end.
Proof.
  unfold Api.makeSyntheticDistricts, State.getActiveDistricts. cbv zeta.
  destruct (State.activeDistricts st) as [|d ds] eqn:A; [split; reflexivity|].
  cbn [List.length Nat.eqb].
  unfold Synthetic.splitDistricts.
  destruct (Api.multiplier req <=? 1) eqn:M.
  - cbn [State.getActiveSummary State.setActiveDistricts State.activeSummary
         State.source State.count State.sample].
    split; [discriminate|]. split; [reflexivity|].
    split; [apply setActiveDistricts_consistent|]. split; [reflexivity|].
    split; [reflexivity|]. unfold slice. rewrite length_firstn. reflexivity.
  - destruct (baseLoop_inv bm (Api.multiplier req) (Api.jitter req) (d :: ds)
                (Rng.create (Api.synth_seed req) now)) as (out & -> & Ids & _).
    cbn [State.getActiveSummary State.setActiveDistricts State.activeSummary
         State.source State.count State.sample].
    split; [discriminate|]. split; [reflexivity|].
    split; [apply setActiveDistricts_consistent|]. split; [reflexivity|].
    split; [|unfold slice; rewrite length_firstn; reflexivity].
    apply (f_equal (@List.length string)) in Ids. rewrite length_map in Ids.
    rewrite Ids.
    rewrite (@flat_map_length_const _ _ _ (d :: ds) (Api.multiplier req));
      [reflexivity|].
    intro a. rewrite length_map, length_seq. reflexivity.
Qed.

(** X25: [simulate] on the active districts: with none it throws its own error and
    touches nothing (the engine's check for an empty list is never reached);
    with some and at most seven members it returns, reporting the requested
    member count, the request's bill unchanged, at most one round and three
    notes.  A requested seed of 0 is dropped: the run is the one of a request
    without a seed, seeded from the clock. *)
Theorem simulate_on_active_districts bm jp fuel st req w :
  (State.activeDistricts st = [] ->
   Api.simulate bm jp fuel st req w
   = (Throw (Error "No active districts loaded. Please Load Districts first."), w)) /\
  (State.activeDistricts st <> [] -> Api.num_members req <= 7 ->
   exists resp w',
     Api.simulate bm jp fuel st req w = (Ok resp, w') /\
     Api.resp_members resp = Api.num_members req /\
     Api.resp_bill resp = Api.req_bill req /\
     List.length (Api.resp_rounds resp) <= 1 /\
     List.length (Api.resp_notes resp) = 3) /\
  Api.simulate bm jp fuel st
    (Api.mkRequest (Api.req_bill req) (Api.num_members req) (Api.req_rounds req)
       (Api.use_llm req) (Api.llm_model req) (Some 0%Z)) w
  = Api.simulate bm jp fuel st
      (Api.mkRequest (Api.req_bill req) (Api.num_members req) (Api.req_rounds req)
         (Api.use_llm req) (Api.llm_model req) None) w.
Proof.
  split; [|split].
  - intro E. unfold Api.simulate, State.getActiveDistricts. rewrite E. reflexivity.
  - intros NE Small. unfold Api.simulate, State.getActiveDistricts. cbv zeta.
    destruct (State.activeDistricts st) as [|d ds] eqn:A; [congruence|].
    cbn [List.length Nat.eqb].
    destruct (@engine_small_run_completes bm jp fuel (d :: ds) (Api.num_members req)
                (Api.req_rounds req) (Api.req_bill req) (Api.use_llm req)
                (Api.llm_model req) (Api.seedOrNull (Api.req_seed req)) w
                ltac:(discriminate) Small) as (res & w' & Run).
    erewrite bind_step by exact Run.
    eexists; eexists. split; [reflexivity|].
    cbn [Api.resp_members Api.resp_bill Api.resp_rounds Api.resp_notes List.length].
    pose proof Run as Inv. apply runSimulation_unfold in Inv.
    destruct Inv as (ms & _ & _ & _ & Mem & Loop & _).
    split; [exact Mem|]. split; [reflexivity|]. split; [|reflexivity].
    destruct (Api.req_rounds req) as [|R].
    + cbn [Engine.roundLoop] in Loop. apply ret_Ok in Loop.
      destruct Loop as [<- _]. cbn. lia.
    + apply engine_roundLoop_unfold in Loop.
      destruct Loop as (sp & sps & v & w1 & w2 & _ & _ & _ & ->). cbn. lia.
  - reflexivity.
Qed.

Lemma simulate_on_active_districts_witness :
  Api.simulate (fun _ _ => 0%Q) (fun _ => None) 0 State.initial
    (Api.mkRequest mockBill 3 1 false "local" (Some 0%Z)) quietWorld
  = (Throw (Error "No active districts loaded. Please Load Districts first."),
     quietWorld) /\
  exists resp w',
    Api.simulate (fun _ _ => 0%Q) (fun _ => None) 0
      (snd (Api.useMockDistricts State.initial))
      (Api.mkRequest mockBill 3 1 false "local" (Some 0%Z)) quietWorld
    = (Ok resp, w') /\
    Api.resp_members resp = 3 /\
    Api.resp_bill resp = mockBill /\
    List.length (Api.resp_rounds resp) <= 1 /\
    List.length (Api.resp_notes resp) = 3.
Proof.
  split.
  - apply (proj1 (simulate_on_active_districts (fun _ _ => 0%Q) (fun _ => None) 0
                    State.initial (Api.mkRequest mockBill 3 1 false "local" (Some 0%Z))
                    quietWorld)).
    reflexivity.
  - apply (proj1 (proj2 (simulate_on_active_districts (fun _ _ => 0%Q) (fun _ => None) 0
                           (snd (Api.useMockDistricts State.initial))
                           (Api.mkRequest mockBill 3 1 false "local" (Some 0%Z))
                           quietWorld))).
    + discriminate.
    + cbn. lia.
Defined.

(** ** The later revision of the browser orchestrator *)

(** *** The vote, member by member *)

Lemma advanceCompletion_0 w : advanceCompletion 0 w = w.
Proof. destruct w. unfold advanceCompletion. cbn. rewrite Nat.add_0_r. reflexivity. Qed.

Lemma advanceCompletion_add a b w :
  advanceCompletion b (advanceCompletion a w) = advanceCompletion (a + b) w.
Proof. unfold advanceCompletion. cbn. f_equal. lia. Qed.

Lemma rev_memberVote_spec m w :
  ClientRev.memberVote m w
  = (Ok (member_id m, replyVote (completion w (completionCalls w))),
     advanceCompletion 1 w).
Proof.
  unfold ClientRev.memberVote, catch, bind, createCompletion, ret, replyVote,
    advanceCompletion.
  replace (completionCalls w + 1) with (S (completionCalls w)) by lia.
  destruct (completion w (completionCalls w)) as [|c]; reflexivity.
Qed.

Lemma rollCallOf_keys w from ms : map fst (rollCallOf w from ms) = map member_id ms.
Proof.
  revert from. induction ms as [|m ms IH]; intro from; [reflexivity|].
  cbn [rollCallOf map fst]. rewrite IH. reflexivity.
Qed.

Lemma rollCallOf_app w a b :
  forall from,
    rollCallOf w from (a ++ b)
    = rollCallOf w from a ++ rollCallOf w (from + List.length a) b.
Proof.
  induction a as [|m a IH]; intro from.
  - cbn [app List.length rollCallOf]. rewrite Nat.add_0_r. reflexivity.
  - cbn [app rollCallOf List.length]. rewrite IH.
    replace (S from + List.length a) with (from + S (List.length a)) by lia.
    reflexivity.
Qed.

Lemma rollCallOf_advance k w ms :
  forall from, rollCallOf (advanceCompletion k w) from ms = rollCallOf w from ms.
Proof.
  induction ms as [|m ms IH]; intro from; [reflexivity|].
  cbn [rollCallOf]. rewrite IH. reflexivity.
Qed.

Lemma rev_chunkVotes_spec chunk :
  forall w,
    ClientRev.chunkVotes chunk w
    = (Ok (rollCallOf w (completionCalls w) chunk),
       advanceCompletion (List.length chunk) w).
Proof.
  induction chunk as [|m chunk IH]; intro w; cbn [ClientRev.chunkVotes].
  - unfold ret. rewrite advanceCompletion_0. reflexivity.
  - erewrite bind_step by apply rev_memberVote_spec.
    erewrite bind_step by apply IH.
    unfold ret. rewrite advanceCompletion_add, rollCallOf_advance.
    cbn [List.length Nat.add rollCallOf].
    replace (completionCalls (advanceCompletion 1 w)) with (S (completionCalls w))
      by (unfold advanceCompletion; cbn [completionCalls]; lia).
    reflexivity.
Qed.

Lemma recordMatches_app a b o :
  Client.recordMatches (a ++ b) o = Client.recordMatches b (Client.recordMatches a o).
Proof. unfold Client.recordMatches. apply fold_left_app. Qed.

Lemma recordMatches_fresh rs :
  forall o,
    NoDup (map fst o ++ map fst rs) ->
    Client.recordMatches rs o = o ++ rs.
Proof.
  unfold Client.recordMatches.
  induction rs as [|[k v] rs IH]; intros o N; cbn [fold_left].
  - rewrite app_nil_r. reflexivity.
  - cbn [map fst] in N.
    rewrite assign_fresh.
    + rewrite IH; [rewrite <- app_assoc; reflexivity|].
      rewrite map_app. cbn [map fst]. rewrite <- app_assoc. exact N.
    + intro I. apply NoDup_remove_2 in N. apply N. apply in_or_app. left. exact I.
Qed.

Lemma rev_batchLoop_spec limit ms :
  0 < limit ->
  forall k i results w,
    List.length ms <= i + k * limit ->
    ClientRev.batchLoop limit ms k i results w
    = (Ok (Client.recordMatches (rollCallOf w (completionCalls w) (skipn i ms)) results),
       advanceCompletion (List.length (skipn i ms)) w).
Proof.
  intro L. induction k as [|k IH]; intros i results w Cover; cbn [ClientRev.batchLoop].
  - rewrite skipn_all2 by lia. unfold ret. rewrite advanceCompletion_0. reflexivity.
  - unfold slice. replace (i + limit - i) with limit by lia.
    assert (skipn i ms = firstn limit (skipn i ms) ++ skipn (i + limit) ms) as Split.
    { rewrite <- (firstn_skipn limit (skipn i ms)) at 1.
      rewrite skipn_skipn. rewrite (Nat.add_comm limit i). reflexivity. }
    remember (firstn limit (skipn i ms)) as chunk eqn:Hc. clear Hc.
    erewrite bind_step by apply rev_chunkVotes_spec.
    rewrite IH by (cbn [Nat.mul] in Cover; lia).
    remember (skipn (i + limit) ms) as rest eqn:Hr. clear Hr.
    rewrite Split. clear Split.
    rewrite rollCallOf_advance.
    rewrite rollCallOf_app, recordMatches_app, length_app.
    rewrite advanceCompletion_add.
    reflexivity.
Qed.

Lemma rev_batchVote_spec b ms limit w :
  0 < limit -> NoDup (map member_id ms) ->
  ClientRev.batchVote b ms limit w
  = (Ok (rollCallOf w (completionCalls w) ms), advanceCompletion (List.length ms) w).
Proof.
  intros L N.
  unfold ClientRev.batchVote. destruct limit as [|l]; [lia|].
  rewrite rev_batchLoop_spec.
  - cbn [skipn]. rewrite recordMatches_fresh; [reflexivity|].
    cbn [map app]. rewrite rollCallOf_keys. exact N.
  - lia.
  - cbn [Nat.add].
    pose proof (Nat.div_mod_eq (List.length ms + (S l - 1)) (S l)).
    pose proof (Nat.mod_upper_bound (List.length ms + (S l - 1)) (S l) ltac:(lia)).
    nia.
Qed.

(** X26: [batchVote] of the later revision, for a positive limit and members with
    distinct identifiers: it never throws, calls the engine exactly once per
    member, and the roll call holds exactly one entry per member, in member
    order, read off that member's own reply (an abstention when the call
    failed).  The limit has no influence on the result. *)
Theorem rev_batchVote_one_vote_per_member b ms limit w :
  0 < limit -> NoDup (map member_id ms) ->
  ClientRev.batchVote b ms limit w
  = (Ok (rollCallOf w (completionCalls w) ms), advanceCompletion (List.length ms) w) /\
  map fst (rollCallOf w (completionCalls w) ms) = map member_id ms.
Proof.
  intros L N. split; [apply rev_batchVote_spec; assumption|apply rollCallOf_keys].
Qed.

Lemma rev_batchVote_one_vote_per_member_witness :
  ClientRev.batchVote mockBill nineMembers 4 failingEngineWorld
  = (Ok (rollCallOf failingEngineWorld 0 nineMembers),
     advanceCompletion 9 failingEngineWorld) /\
  map fst (rollCallOf failingEngineWorld 0 nineMembers) = map member_id nineMembers.
Proof.
  apply (@rev_batchVote_one_vote_per_member mockBill nineMembers 4 failingEngineWorld).
  - lia.
  - vm_compute. repeat constructor; cbn; intuition discriminate.
Defined.

(** *** The clean-up of a speech *)

Lemma notDot_lower c : ClientRev.notDot (lowerAscii c) = ClientRev.notDot c.
Proof.
  destruct c as [[] [] [] [] [] [] [] []]; reflexivity.
Qed.

Lemma dropWhile_notDot_lower s :
  dropWhile ClientRev.notDot (toLowerCase s)
  = toLowerCase (dropWhile ClientRev.notDot s).
Proof.
  unfold toLowerCase.
  induction s as [|c s IH]; cbn [mapString dropWhile]; [reflexivity|].
  rewrite notDot_lower. destruct (ClientRev.notDot c); [exact IH|reflexivity].
Qed.

Lemma includes_dot c r :
  includes "." (String c r) = (Ascii.eqb c "."%char || includes "." r)%bool.
Proof.
  cbn [includes prefix].
  destruct (ascii_dec "." c) as [<-|N].
  - destruct r; reflexivity.
  - destruct (Ascii.eqb c ".") eqn:E; [|reflexivity].
    apply Ascii.eqb_eq in E. congruence.
Qed.

Lemma dropWhile_no_dot s :
  includes "." s = false -> dropWhile ClientRev.notDot s = EmptyString.
Proof.
  induction s as [|c s IH]; intro H; [reflexivity|].
  rewrite includes_dot in H. apply orb_false_iff in H. destruct H as [H1 H2].
  cbn [dropWhile]. unfold ClientRev.notDot. rewrite H1. cbn [negb]. exact (IH H2).
Qed.

Lemma dropWhile_takeWhile_dot s :
  dropWhile ClientRev.notDot (takeWhile ClientRev.notDot s ++ ".")%string = ".".
Proof.
  induction s as [|c s IH]; cbn [takeWhile append]; [reflexivity|].
  destruct (ClientRev.notDot c) eqn:E; [|reflexivity].
  cbn [append dropWhile]. rewrite E. exact IH.
Qed.

(** After the cut at the first full stop, nothing follows a full stop: the
    test for a speech that already starts with "Mr. Speaker" never succeeds. *)
Lemma cutAtDot_never_addressed raw :
  startsWith "mr. speaker" (toLowerCase (ClientRev.cutAtDot raw)) = false.
Proof.
  destruct (startsWith "mr. speaker" (toLowerCase (ClientRev.cutAtDot raw))) eqn:S;
    [|reflexivity].
  exfalso. unfold startsWith in S. apply prefix_split in S. destruct S as (r & E).
  apply (f_equal (dropWhile ClientRev.notDot)) in E.
  rewrite dropWhile_notDot_lower in E.
  change (dropWhile ClientRev.notDot ("mr. speaker" ++ r)%string)
    with (". speaker" ++ r)%string in E.
  unfold ClientRev.cutAtDot in E.
  destruct (includes "." raw) eqn:I.
  - rewrite dropWhile_takeWhile_dot in E. discriminate.
  - rewrite (dropWhile_no_dot _ I) in E. discriminate.
Qed.

Lemma substring_0_length n s : String.length (substring 0 n s) <= n.
Proof.
  revert s. induction n as [|n IH]; intro s.
  - destruct s; cbn; lia.
  - destruct s as [|c s]; cbn [substring String.length]; [lia|].
    specialize (IH s). lia.
Qed.

Lemma substring_0_prefix p :
  forall n r, String.length p <= n -> prefix p (substring 0 n (p ++ r)) = true.
Proof.
  induction p as [|a p IH]; intros n r L.
  - destruct (substring 0 n ("" ++ r)); reflexivity.
  - destruct n as [|n]; [cbn in L; lia|].
    cbn [append substring prefix].
    destruct (ascii_dec a a); [|congruence].
    apply IH. cbn in L. lia.
Qed.

Lemma cleanSpeech_spec st content :
  ClientRev.cleanSpeech st content
  = substring 0 300
      (ClientRev.speechPrefix st ++ " "
       ++ ClientRev.lowerFirst
            (ClientRev.cutAtDot
               (trim (ClientRev.removeChar ClientRev.dquoteChar
                        (ClientRev.removeBoilerplate 0 (orElse content EmptyString))))))
    /\
  prefix (ClientRev.speechPrefix st ++ " ") (ClientRev.cleanSpeech st content) = true /\
  String.length (ClientRev.cleanSpeech st content) <= 300.
Proof.
  assert (ClientRev.cleanSpeech st content
          = substring 0 300
              (ClientRev.speechPrefix st ++ " "
               ++ ClientRev.lowerFirst
                    (ClientRev.cutAtDot
                       (trim (ClientRev.removeChar ClientRev.dquoteChar
                                (ClientRev.removeBoilerplate 0
                                   (orElse content EmptyString))))))) as E.
  { unfold ClientRev.cleanSpeech. cbv zeta.
    rewrite cutAtDot_never_addressed. reflexivity. }
  split; [exact E|]. split.
  - rewrite E. rewrite <- string_app_assoc. apply substring_0_prefix.
    destruct st; cbn; lia.
  - rewrite E. apply substring_0_length.
Qed.

(** X27: The clean-up always puts the address in front of a speech, also in front
    of one that already begins with it, since the text was just cut at its
    first full stop: every speech begins with the address of its stance
    ("I oppose" also for the stance "amend") and a blank, and has at most 300
    characters.  For an ASCII reply the speech is exactly the address, a
    blank and the first sentence of the reply with its first letter in lower
    case, cut to 300 characters. *)
Theorem cleanSpeech_always_prefixes st content :
  (prefix (ClientRev.speechPrefix st ++ " ") (ClientRev.cleanSpeech st content) = true /\
   String.length (ClientRev.cleanSpeech st content) <= 300) /\
  (asciiOnly (orElse content EmptyString) = true ->
   ClientRev.cleanSpeech st content
   = substring 0 300
       (ClientRev.speechPrefix st ++ " "
        ++ ClientRev.lowerFirst
             (ClientRev.cutAtDot
                (trim (ClientRev.removeChar ClientRev.dquoteChar
                         (ClientRev.removeBoilerplate 0
                            (orElse content EmptyString))))))).
Proof.
  destruct (cleanSpeech_spec st content) as (E & P & L).
  split; [split; assumption|]. intros _. exact E.
Qed.

Lemma cleanSpeech_always_prefixes_witness :
  prefix "Mr. Speaker, I support this because "
    (ClientRev.cleanSpeech support (Some "Mr. Speaker, this is good. Really.")) = true /\
  ClientRev.cleanSpeech support (Some "Mr. Speaker, this is good. Really.")
  = "Mr. Speaker, I support this because mr.".
Proof.
  destruct (cleanSpeech_always_prefixes support
              (Some "Mr. Speaker, this is good. Really.")) as [[P _] E].
  split; [exact P|]. rewrite E; reflexivity.
Defined.

(** *** Whole runs of the later revision *)

Lemma rev_speak_inv llm b r sps sp w sps' w' :
  ClientRev.speak llm b r sps sp w = (Ok sps', w') ->
  exists m s,
    sp = Some m /\ sps' = sps ++ [s] /\ sp_member_id s = member_id m /\
    (if llm
     then prefix (ClientRev.speechPrefix (stance s) ++ " ") (text s) = true /\
          String.length (text s) <= 300
     else text s = "I have no brain (LLM disabled)." /\
          (stance s = support \/ stance s = oppose)).
Proof.
  unfold ClientRev.speak. destruct sp as [m|]; [|intro H; exfalso; exact (throw_Ok H)].
  destruct llm.
  - intro H. inv_bind H. inv_bind H. inv_ret H.
    exists m. eexists. split; [reflexivity|]. split; [reflexivity|].
    cbn [sp_member_id stance text]. split; [reflexivity|].
    match goal with |- context [ClientRev.cleanSpeech ?st ?c] =>
      destruct (cleanSpeech_spec st c) as (_ & P & L)
    end.
    split; assumption.
  - intro H. inv_bind H. inv_ret H.
    exists m. eexists. split; [reflexivity|]. split; [reflexivity|].
    cbn [sp_member_id stance text]. split; [reflexivity|]. split; [reflexivity|].
    destruct (Qltb _ _); [left|right]; reflexivity.
Qed.

Lemma rev_speeches_inv llm b r ms w sps w' :
  foldM (ClientRev.speak llm b r) (Client.pickSpeakers ms) [] w = (Ok sps, w') ->
  Forall (fun s =>
            In (sp_member_id s) (map member_id ms) /\
            (if llm
             then prefix (ClientRev.speechPrefix (stance s) ++ " ") (text s) = true /\
                  String.length (text s) <= 300
             else text s = "I have no brain (LLM disabled)." /\
                  (stance s = support \/ stance s = oppose))) sps.
Proof.
  apply (foldM_invariant
           (fun acc =>
              Forall (fun s =>
                        In (sp_member_id s) (map member_id ms) /\
                        (if llm
                         then prefix (ClientRev.speechPrefix (stance s) ++ " ") (text s)
                              = true /\ String.length (text s) <= 300
                         else text s = "I have no brain (LLM disabled)." /\
                              (stance s = support \/ stance s = oppose))) acc)).
  - intros acc x w0 acc' w0' I P H.
    apply rev_speak_inv in H. destruct H as (m & s & -> & -> & Id & T).
    apply Forall_app. split; [exact P|]. constructor; [|constructor].
    split; [|exact T].
    rewrite Id. apply in_map. eapply pickSpeakers_In; [exact I|reflexivity].
  - constructor.
Qed.

Lemma forceConsistency_fold_keys sps :
  forall y n a votes y' n' a' votes',
    fold_left Client.forceConsistency sps (y, n, a, votes) = (y', n', a', votes') ->
    Forall (fun s => In (sp_member_id s) (map fst votes)) sps ->
    map fst votes' = map fst votes.
Proof.
  induction sps as [|s sps IH]; intros y n a votes y' n' a' votes' H All;
    cbn [fold_left] in H.
  - injection H as _ _ _ <-. reflexivity.
  - inversion All as [|? ? Is All']; subst.
    destruct (Client.forceConsistency (y, n, a, votes) s) as [[[y1 n1] a1] votes1] eqn:F.
    assert (map fst votes1 = map fst votes) as K.
    { unfold Client.forceConsistency in F.
      destruct (match lookup (sp_member_id s) votes with
                | Some v => Ballot_eqb v (voteOfStance (stance s))
                | None => false
                end).
      - injection F as _ _ _ <-. reflexivity.
      - destruct (match lookup (sp_member_id s) votes with
                  | Some yes => _ | Some no => _ | _ => _ end) as [[y2 n2] a2].
        destruct (match voteOfStance (stance s) with
                  | yes => _ | no => _ | abstain => _ end) as [[y3 n3] a3].
        injection F as _ _ _ <-. rewrite keys_assign.
        apply existsb_eqb_In in Is. rewrite Is. reflexivity. }
    rewrite <- K. eapply IH; [exact H|]. rewrite K. exact All'.
Qed.

Lemma countOf_total votes :
  (countOf yes votes + countOf no votes + countOf abstain votes
   = Z.of_nat (List.length votes))%Z.
Proof.
  induction votes as [|[k v] votes IH].
  - reflexivity.
  - rewrite !countOf_cons. cbn [snd List.length].
    destruct v; cbn [Ballot_eqb]; lia.
Qed.

Lemma rev_castVotes_spec o b ms sps w v w' :
  ClientRev.castVotes true o b ms sps w = (Ok v, w') ->
  NoDup (map member_id ms) ->
  Forall (fun s => In (sp_member_id s) (map member_id ms)) sps ->
  map fst (Client.rollCall v) = map member_id ms /\
  (Client.v_yes v + Client.v_no v + Client.v_abstain v
   = Z.of_nat (List.length ms))%Z /\
  Client.v_yes v = countOf yes (Client.rollCall v) /\
  Client.v_no v = countOf no (Client.rollCall v) /\
  Client.v_abstain v = countOf abstain (Client.rollCall v).
Proof.
  unfold ClientRev.castVotes. intros H N Sps. inv_bind H.
  rewrite rev_batchVote_spec in Ha;
    [|destruct (ClientRev.parallelLimit o) as [[|l]|]; cbn; lia|exact N].
  injection Ha as <- <-.
  remember (rollCallOf w (completionCalls w) ms) as votes eqn:V.
  assert (map fst votes = map member_id ms) as K by (subst votes; apply rollCallOf_keys).
  clear V.
  destruct (Client.countVotes votes) as [[y n] ab] eqn:C.
  destruct (fold_left Client.forceConsistency sps (y, n, ab, votes))
    as [[[y' n'] a'] votes'] eqn:F.
  inv_ret H. cbn [Client.v_yes Client.v_no Client.v_abstain Client.rollCall].
  assert (Forall (fun s => In (sp_member_id s) (map fst votes)) sps) as Sps'
    by (rewrite K; exact Sps).
  assert ((y', n', a')
          = (countOf yes votes', countOf no votes', countOf abstain votes')) as R.
  { eapply forceConsistency_fold_counts; [exact F|exact Sps'|].
    unfold Client.countVotes in C. rewrite countVotes_countOf_from in C.
    rewrite <- C. apply triple_eq; lia. }
  assert (map fst votes' = map fst votes) as K'
    by (eapply forceConsistency_fold_keys; [exact F|exact Sps']).
  injection R as -> -> ->.
  split; [rewrite K'; exact K|].
  split; [|repeat split].
  rewrite countOf_total.
  rewrite <- (length_map fst votes'), K', K, length_map. reflexivity.
Qed.

Lemma rev_roundLoop_origin llm o ms k :
  forall r b acc ns w rs ns' w',
    ClientRev.roundLoop llm o ms k r b acc ns w = (Ok (rs, ns'), w') ->
    exists new, rs = acc ++ new /\
      Forall (fun rd =>
                exists b0 w0 w1 w2,
                  foldM (ClientRev.speak llm b0 (Client.round_index rd))
                    (Client.pickSpeakers ms) [] w0 = (Ok (Client.speeches rd), w1) /\
                  ClientRev.castVotes llm o b0 ms (Client.speeches rd) w1
                  = (Ok (Client.roundVote rd), w2)) new.
Proof.
  induction k as [|k IH]; intros r b acc ns w rs ns' w' H; cbn [ClientRev.roundLoop] in H.
  - inv_ret H. exists []. rewrite app_nil_r. split; constructor.
  - inv_bind H. inv_bind H.
    assert (forall am,
      exists b0 w0 w1 w2,
        foldM (ClientRev.speak llm b0 (Client.round_index (Client.mkRound r a a0 am)))
          (Client.pickSpeakers ms) [] w0
        = (Ok (Client.speeches (Client.mkRound r a a0 am)), w1) /\
        ClientRev.castVotes llm o b0 ms (Client.speeches (Client.mkRound r a a0 am)) w1
        = (Ok (Client.roundVote (Client.mkRound r a a0 am)), w2)) as Here.
    { intro am. exists b, w, w0, w1. split; assumption. }
    destruct (Client.passed a0).
    + inv_ret H. eexists. split; [reflexivity|].
      constructor; [apply Here|constructor].
    + destruct (S r <? Client.optRounds (ClientRev.base o)); [destruct llm|].
      * inv_bind H. apply IH in H. destruct H as (new & -> & F).
        eexists. rewrite <- app_assoc. split; [reflexivity|].
        constructor; [apply Here|exact F].
      * apply IH in H. destruct H as (new & -> & F).
        eexists. rewrite <- app_assoc. split; [reflexivity|].
        constructor; [apply Here|exact F].
      * apply IH in H. destruct H as (new & -> & F).
        eexists. rewrite <- app_assoc. split; [reflexivity|].
        constructor; [apply Here|exact F].
Qed.

Lemma rev_run_inv o w res w' :
  ClientRev.runSimulationClient o w = (Ok res, w') ->
  exists w0 w1 llm,
    Client.initEngine (ClientRev.base o) w = (Ok tt, w0) /\
    map member_id (Client.members res)
    = map memberId (seq 0 (Client.numMembers (ClientRev.base o))) /\
    llm = (Client.useLlm (ClientRev.base o)
           && match loadedEngine w0 with Some _ => true | None => false end)%bool /\
    ClientRev.roundLoop llm o (Client.members res)
      (Client.optRounds (ClientRev.base o)) 0 (Client.bill (ClientRev.base o)) [] [] w1
    = (Ok (Client.rounds res, Client.notes res), w').
Proof.
  unfold ClientRev.runSimulationClient. intro H. inv_bind H. destruct a.
  destruct (Client.sample (ClientRev.base o)) as [|d0 ds] eqn:S;
    [exfalso; exact (throw_Ok H)|].
  inv_bind H. inv_bind H. inv_bind H. destruct a1 as [allRounds ns]. inv_ret H.
  unfold Client.sampleMembers in Ha0. apply client_sampleLoop_ids in Ha0.
  destruct Ha0 as [Ids L].
  unfold Client.engineReady in Ha1. injection Ha1 as <- <-.
  exists w0, w1. eexists. cbn [Client.members Client.rounds Client.notes].
  rewrite <- L.
  split; [exact Ha|]. split; [exact Ids|]. split; [reflexivity|]. exact Ha2.
Qed.

(** X28: In the later revision a round with the engine publishes a roll call that
    lists exactly the members of the population, each once and in order (a
    reply cannot add an identifier of its own); the three counters are the
    numbers of its yes, no and abstain entries and add up to [numMembers];
    every speech begins with the address of its stance and has at most 300
    characters. *)
Theorem rev_roll_call_is_the_population o w res w' :
  ClientRev.runSimulationClient o w = (Ok res, w') ->
  Client.useLlm (ClientRev.base o) = true ->
  Client.llmConfig (ClientRev.base o) <> None \/ loadedEngine w <> None ->
  Forall (fun rd =>
            let v := Client.roundVote rd in
            map fst (Client.rollCall v) = map member_id (Client.members res) /\
            (Client.v_yes v + Client.v_no v + Client.v_abstain v
             = Z.of_nat (Client.numMembers (ClientRev.base o)))%Z /\
            Client.v_yes v = countOf yes (Client.rollCall v) /\
            Client.v_no v = countOf no (Client.rollCall v) /\
            Client.v_abstain v = countOf abstain (Client.rollCall v) /\
            Forall (fun s =>
                      prefix (ClientRev.speechPrefix (stance s) ++ " ") (text s) = true /\
                      String.length (text s) <= 300)
              (Client.speeches rd))
    (Client.rounds res).
Proof.
  intros H On Eng.
  apply rev_run_inv in H. destruct H as (w0 & w1 & llm & Init & Ids & Llm & Loop).
  apply initEngine_spec in Init. destruct Init as [Loaded _].
  specialize (Loaded On Eng). rewrite On in Llm.
  destruct (loadedEngine w0); [|congruence]. cbn [andb] in Llm. subst llm.
  apply rev_roundLoop_origin in Loop. destruct Loop as (new & E & Origin).
  cbn [app] in E. subst new.
  assert (NoDup (map member_id (Client.members res))) as N
    by (rewrite Ids; apply memberIds_NoDup).
  assert (List.length (Client.members res) = Client.numMembers (ClientRev.base o)) as Len.
  { rewrite <- (length_map member_id), Ids, length_map, length_seq. reflexivity. }
  apply Forall_forall. intros rd I. rewrite Forall_forall in Origin.
  destruct (Origin rd I) as (b0 & wa & wb & wc & Sp & Cast).
  apply rev_speeches_inv in Sp.
  assert (Forall (fun s => In (sp_member_id s) (map member_id (Client.members res)))
            (Client.speeches rd)) as Sps.
  { apply Forall_forall. intros sp Isp. rewrite Forall_forall in Sp.
    exact (proj1 (Sp sp Isp)). }
  pose proof Cast as Spec. apply rev_castVotes_spec in Spec; [|exact N|exact Sps].
  destruct Spec as (K & Sum & Y & No & A).
  cbv zeta. rewrite <- Len.
  refine (conj K (conj Sum (conj Y (conj No (conj A _))))).
  apply Forall_forall. intros sp Isp. rewrite Forall_forall in Sp.
  exact (proj2 (Sp sp Isp)).
Qed.

Lemma rev_roll_call_is_the_population_witness :
  match ClientRev.runSimulationClient revTieRun tieWorld with
  | (Ok res, _) =>
      Forall (fun rd =>
                let v := Client.roundVote rd in
                map fst (Client.rollCall v) = map member_id (Client.members res) /\
                (Client.v_yes v + Client.v_no v + Client.v_abstain v
                 = Z.of_nat (Client.numMembers (ClientRev.base revTieRun)))%Z /\
                Client.v_yes v = countOf yes (Client.rollCall v) /\
                Client.v_no v = countOf no (Client.rollCall v) /\
                Client.v_abstain v = countOf abstain (Client.rollCall v) /\
                Forall (fun s =>
                          prefix (ClientRev.speechPrefix (stance s) ++ " ") (text s)
                          = true /\
                          String.length (text s) <= 300)
                  (Client.speeches rd))
        (Client.rounds res)
  | (Throw _, _) => False
  end.
Proof.
  destruct (ClientRev.runSimulationClient revTieRun tieWorld) as [[res|e] w'] eqn:E.
  - apply (@rev_roll_call_is_the_population revTieRun tieWorld res w' E eq_refl).
    left. discriminate.
  - vm_compute in E. discriminate.
Defined.

(** ** Member identifiers *)

(** X29: The identifiers [M-0001], [M-0002], ... never collide, also past
    [M-9999], where the number outgrows the four digits it is padded to: two
    positions give the same identifier only if they are the same position. *)
Theorem member_identifiers_are_distinct (i j : nat) :
  memberId i = memberId j <-> i = j.
Proof.
  split; [apply memberId_inj|intros ->; reflexivity].
Qed.
